(** * Cluster rebalancer and scaling decision engine: a shallow embedding

    The development follows the Python sources file by file:
    - [Py]             the builtins the sources rely on (exceptions, [float],
                       [str.replace], [in], [min]/[max], stable [sorted]);
    - [Main]           src/main.py  (the simulated [ClusterRebalancer]);
    - [Config]         src/config.py;
    - [ScalingMetrics] src/scaling_metrics.py;
    - [AKS]            src/aks_integration.py ([auto_scale_node_pool]);
    - [Utils]          src/utils.py ([safe_evict_pod]).

    Numbers.  Python floats are modelled by exact rationals ([Q]); integers
    by [Z].  Rounding is not modelled; in the concrete runs evaluated
    below every comparison is decided by a margin far above the rounding
    error of binary floating point.

    Time.  [time.time()] is an argument [now] of each operation that reads
    the clock; the few reads made inside one call all see that value.

    Dictionaries.  The node table is iterated in insertion order and
    searched for the first match, so it is an association list; label
    dictionaries are only looked up and are finite maps. *)

From Stdlib Require Import ZArith QArith Qabs String Ascii List Lia Lqa
  Permutation Sorted.
From stdpp Require Import base option gmap strings.

Open Scope Q_scope.

(* ------------------------------------------------------------------ *)
(** * Python builtins *)
(* ------------------------------------------------------------------ *)

Module Py.

Inductive exn : Type :=
| ValueError
| KeyError (key : string)
| AttributeError (attr : string).

Inductive result (A : Type) : Type :=
| Ok (a : A)
| Raise (e : exn).

Arguments Ok {A} a.
Arguments Raise {A} e.

Definition bind {A B} (r : result A) (k : A -> result B) : result B :=
  match r with
  | Ok a => k a
  | Raise e => Raise e
  end.

Definition Qltb (x y : Q) : bool := negb (Qle_bool y x).

(** [min(a, b)] and [max(a, b)] return the first argument on ties. *)
Definition min (a b : Q) : Q := if Qltb b a then b else a.
Definition max (a b : Q) : Q := if Qltb a b then b else a.

(** ** Strings *)

(** ['m' in s] *)
Fixpoint contains_m (s : string) : bool :=
  match s with
  | EmptyString => false
  | String c r => if Ascii.eqb c "m" then true else contains_m r
  end.

(** [s.replace('m', '')] *)
Fixpoint replace_m (s : string) : string :=
  match s with
  | EmptyString => EmptyString
  | String c r => if Ascii.eqb c "m" then replace_m r else String c (replace_m r)
  end.

(** [s.replace('Gi', '')]: every occurrence, scanning left to right. *)
Fixpoint replace_Gi (s : string) : string :=
  match s with
  | EmptyString => EmptyString
  | String c r =>
      match r with
      | String d r' =>
          if Ascii.eqb c "G" && Ascii.eqb d "i" then replace_Gi r'
          else String c (replace_Gi r)
      | EmptyString => String c EmptyString
      end
  end.

(** ** [float(s)] on decimal literals

    The strings the rebalancer parses are Kubernetes quantities with the
    unit removed: an optional sign, digits, and an optional fractional
    part.  Anything else is a [ValueError] here. *)

Definition digit_of (c : ascii) : option Z :=
  let n := nat_of_ascii c in
  if Nat.leb 48 n && Nat.leb n 57 then Some (Z.of_nat (n - 48)) else None.

(** Value and number of digits of an all-digit string. *)
Fixpoint digits (s : string) (acc : Z) (len : nat) : option (Z * nat) :=
  match s with
  | EmptyString => Some (acc, len)
  | String c r =>
      match digit_of c with
      | Some d => digits r (10 * acc + d)%Z (S len)
      | None => None
      end
  end.

Fixpoint split_dot (s : string) : string * option string :=
  match s with
  | EmptyString => (EmptyString, None)
  | String c r =>
      if Ascii.eqb c "." then (EmptyString, Some r)
      else let '(a, b) := split_dot r in (String c a, b)
  end.

Definition unsigned_float (s : string) : option Q :=
  let '(ip, fp) := split_dot s in
  match digits ip 0 0 with
  | None => None
  | Some (i, ni) =>
      match fp with
      | None => if Nat.eqb ni 0 then None else Some (inject_Z i)
      | Some f =>
          match digits f 0 0 with
          | None => None
          | Some (fv, nf) =>
              if Nat.eqb (ni + nf) 0 then None
              else Some (Qmake (i * 10 ^ Z.of_nat nf + fv)
                               (Z.to_pos (10 ^ Z.of_nat nf)))
          end
      end
  end.

Definition float (s : string) : result Q :=
  let parsed :=
    match s with
    | String c r =>
        if Ascii.eqb c "-" then option_map Qopp (unsigned_float r)
        else if Ascii.eqb c "+" then unsigned_float r
        else unsigned_float s
    | EmptyString => None
    end in
  match parsed with
  | Some q => Ok q
  | None => Raise ValueError
  end.

(** ** [sorted(l, key=..., reverse=True)]

    Python's sort is stable, and with [reverse=True] elements with equal
    keys still keep their original relative order.  [insert_desc] places
    an element in front of the first one whose key does not exceed its
    own; folding from the right keeps earlier equal elements first. *)

Section Sorted.
Context {A : Type} (key : A -> Q).

Fixpoint insert_desc (x : A) (l : list A) : list A :=
  match l with
  | [] => [x]
  | y :: l' =>
      if Qle_bool (key y) (key x) then x :: y :: l'
      else y :: insert_desc x l'
  end.

Definition sorted_reverse (l : list A) : list A :=
  fold_right insert_desc [] l.

End Sorted.

(** ** Insertion-ordered dictionaries with string keys *)

Section Dict.
Context {V : Type}.

Fixpoint get (d : list (string * V)) (k : string) : option V :=
  match d with
  | [] => None
  | (k', v) :: d' => if String.eqb k' k then Some v else get d' k
  end.

(** In-place change of the value stored under [k] (the entry keeps its
    position); nothing happens when [k] is absent. *)
Fixpoint update (d : list (string * V)) (k : string) (f : V -> V)
  : list (string * V) :=
  match d with
  | [] => []
  | (k', v) :: d' =>
      if String.eqb k' k then (k', f v) :: d' else (k', v) :: update d' k f
  end.

(** [del d[k]] *)
Fixpoint del (d : list (string * V)) (k : string) : list (string * V) :=
  match d with
  | [] => []
  | (k', v) :: d' => if String.eqb k' k then d' else (k', v) :: del d' k
  end.

End Dict.

(** ** More string methods *)

(** [s.rstrip(chars)]: the longest suffix made of characters of [chars]
    is removed. *)
Fixpoint rstrip (chars : list ascii) (s : string) : string :=
  match s with
  | EmptyString => EmptyString
  | String c r =>
      match rstrip chars r with
      | EmptyString =>
          if existsb (Ascii.eqb c) chars then EmptyString else String c EmptyString
      | String d r' => String c (String d r')
      end
  end.

(** [int(s)] on decimal literals: an optional sign and at least one
    digit.  Anything else is a [ValueError] here. *)
Definition int_of_string (s : string) : result Z :=
  let unsigned (u : string) : option Z :=
    match digits u 0 0 with
    | Some (v, len) => if Nat.eqb len 0 then None else Some v
    | None => None
    end in
  let parsed :=
    match s with
    | String c r =>
        if Ascii.eqb c "-" then option_map Z.opp (unsigned r)
        else if Ascii.eqb c "+" then unsigned r
        else unsigned s
    | EmptyString => None
    end in
  match parsed with
  | Some z => Ok z
  | None => Raise ValueError
  end.

End Py.

Import Py.

#[export] Instance result_ret : MRet result := @Ok.
#[export] Instance result_bind : MBind result := fun A B k r => Py.bind r k.


(* ------------------------------------------------------------------ *)
(** * src/main.py: the simulated cluster rebalancer *)
(* ------------------------------------------------------------------ *)

Module Main.

(** A pod dictionary: [pod['name']], [pod['namespace']],
    [pod['resources']['requests']['cpu'|'memory']], [pod['labels']] and
    [pod['creation_timestamp']].  Every pod carries all of these keys, as
    the pods built by [_initialize_regular_node_pods] do. *)
Record Pod : Type := mkPod {
  name : string;
  namespace : string;
  requests_cpu : string;
  requests_memory : string;
  labels : gmap string string;
  creation_timestamp : Q
}.

(** A value of [self.simulated_nodes]. *)
Record Node : Type := mkNode {
  is_spot : bool;
  allocatable_cpu : string;
  allocatable_memory : string;
  current_cpu_usage : Q;
  current_mem_usage_gb : Q;
  pods : list Pod
}.

(** A value of the dictionary built by [get_node_metrics]: the same keys,
    with ['pods'] the number of resident pods. *)
Record NodeMetrics : Type := mkNodeMetrics {
  m_is_spot : bool;
  m_pods : nat;
  m_allocatable_cpu : string;
  m_allocatable_memory : string;
  m_current_cpu_usage : Q;
  m_current_mem_usage_gb : Q
}.

Record ClusterRebalancer : Type := mkClusterRebalancer {
  REBALANCE_INTERVAL_SECONDS : Q;
  last_rebalance_time : Q;
  max_pods_per_cycle : nat;
  simulation_mode : bool;
  simulated_nodes : list (string * Node)
}.

Definition set_usage (cpu mem : Q) (n : Node) : Node :=
  mkNode (is_spot n) (allocatable_cpu n) (allocatable_memory n) cpu mem (pods n).

Definition set_pods (ps : list Pod) (n : Node) : Node :=
  mkNode (is_spot n) (allocatable_cpu n) (allocatable_memory n)
         (current_cpu_usage n) (current_mem_usage_gb n) ps.

Definition set_nodes (nodes : list (string * Node)) (self : ClusterRebalancer)
  : ClusterRebalancer :=
  mkClusterRebalancer (REBALANCE_INTERVAL_SECONDS self) (last_rebalance_time self)
    (max_pods_per_cycle self) (simulation_mode self) nodes.

Definition set_last_rebalance_time (t : Q) (self : ClusterRebalancer)
  : ClusterRebalancer :=
  mkClusterRebalancer (REBALANCE_INTERVAL_SECONDS self) t
    (max_pods_per_cycle self) (simulation_mode self) (simulated_nodes self).

(** Methods run on the rebalancer object and may raise; what they changed
    before raising stays changed. *)
Definition M (A : Type) : Type := ClusterRebalancer -> result A * ClusterRebalancer.

#[export] Instance M_ret : MRet M := fun A a self => (Ok a, self).
#[export] Instance M_bind : MBind M := fun A B k m self =>
  match m self with
  | (Ok a, self') => k a self'
  | (Raise e, self') => (Raise e, self')
  end.

Definition lift {A} (r : result A) : M A := fun self => (r, self).
Definition read {A} (f : ClusterRebalancer -> A) : M A := fun self => (Ok (f self), self).
Definition modify (f : ClusterRebalancer -> ClusterRebalancer) : M unit :=
  fun self => (Ok tt, f self).

(** [try: body  except Exception: log] *)
Definition try_except (body : M unit) : M unit :=
  fun self => (Ok tt, (body self).2).

(** ** Module-level helpers *)

Definition calculate_node_score (node_info : NodeMetrics) : result Q :=
  cpu_capacity ← float (m_allocatable_cpu node_info);
  mem_capacity_gb ← float (replace_Gi (m_allocatable_memory node_info));
  mret (cpu_capacity * 0.7 + mem_capacity_gb * 0.3).

Definition safe_evict_pod (pod_name pod_namespace : string)
    (pod_labels : gmap string string) : bool :=
  if bool_decide (pod_labels !! "critical"%string = Some "true"%string)
  then false
  else true.

(** ** [_update_simulated_node_usage] *)

(** The accumulation loop; a malformed request raises and leaves the
    sums reached so far. *)
Fixpoint usage_loop (ps : list Pod) (cpu mem : Q) : Q * Q * option exn :=
  match ps with
  | [] => (cpu, mem, None)
  | pod :: rest =>
      match float (replace_m (requests_cpu pod)) with
      | Raise e => (cpu, mem, Some e)
      | Ok cpu_req =>
          let cpu_req :=
            if contains_m (requests_cpu pod) then cpu_req / 1000.0 else cpu_req in
          match float (replace_Gi (requests_memory pod)) with
          | Raise e => (cpu, mem, Some e)
          | Ok mem_req => usage_loop rest (cpu + cpu_req) (mem + mem_req)
          end
      end
  end.

Definition _update_simulated_node_usage (node_name : string) : M unit :=
  fun self =>
    match get (simulated_nodes self) node_name with
    | None => (Ok tt, self)
    | Some node =>
        let '(cpu, mem, err) := usage_loop (pods node) 0.0 0.0 in
        let self' :=
          set_nodes (update (simulated_nodes self) node_name (set_usage cpu mem))
                    self in
        match err with
        | None => (Ok tt, self')
        | Some e => (Raise e, self')
        end
    end.

(** ** [get_node_metrics] *)

Fixpoint update_all (names : list string) : M unit :=
  match names with
  | [] => mret tt
  | node_name :: rest =>
      _ ← _update_simulated_node_usage node_name; update_all rest
  end.

Definition metrics_of (info : Node) : NodeMetrics :=
  mkNodeMetrics (is_spot info) (length (pods info))
    (allocatable_cpu info) (allocatable_memory info)
    (current_cpu_usage info) (current_mem_usage_gb info).

Definition get_node_metrics : M (list (string * NodeMetrics)) :=
  simulation ← read simulation_mode;
  if (simulation : bool) then
    names ← read (fun self => map fst (simulated_nodes self));
    _ ← update_all names;
    read (fun self => map (fun '(name, info) => (name, metrics_of info))
                          (simulated_nodes self))
  else mret [].

(** ** [find_pods_for_rebalance] *)

Definition find_pods_for_rebalance : M (list Pod) :=
  read (fun self =>
    if simulation_mode self then
      let regular_node_pods :=
        from_option pods [] (get (simulated_nodes self) "aks-regular-1") in
      List.filter
        (fun pod => bool_decide (labels pod !! "critical"%string = Some "false"%string))
        regular_node_pods
    else []).

(** ** [_calculate_pod_priority] *)

Definition _calculate_pod_priority (now : Q) (pod : Pod) : result Q :=
  let priority := 0 in
  let priority :=
    if bool_decide (default "false"%string (labels pod !! "critical"%string) = "false"%string)
    then priority + 5 else priority in
  let priority :=
    if Qltb 3600 (now - creation_timestamp pod) then priority + 1 else priority in
  cpu_req ← float (replace_m (requests_cpu pod));
  let cpu_req :=
    if contains_m (requests_cpu pod) then cpu_req / 1000.0 else cpu_req in
  mem_req_gb ← float (replace_Gi (requests_memory pod));
  let cpu_priority_factor := 1 - Py.min (cpu_req / 2.0) 1.0 in
  let mem_priority_factor := 1 - Py.min (mem_req_gb / 4.0) 1.0 in
  mret (priority + (cpu_priority_factor + mem_priority_factor) * 0.5).

(** ** [_filter_pods] *)

Fixpoint prioritize (now : Q) (ps : list Pod) : result (list (Pod * Q)) :=
  match ps with
  | [] => mret []
  | pod :: rest =>
      if bool_decide (labels pod !! "critical"%string = Some "true"%string)
      then prioritize now rest
      else
        score ← _calculate_pod_priority now pod;
        prioritized_pods ← prioritize now rest;
        mret ((pod, score) :: prioritized_pods)
  end.

Definition _filter_pods (max_pods_per_cycle : nat) (now : Q) (ps : list Pod)
  : result (list Pod) :=
  match ps with
  | [] => mret []
  | _ =>
      prioritized_pods ← prioritize now ps;
      let prioritized_pods := sorted_reverse snd prioritized_pods in
      mret (map fst (firstn max_pods_per_cycle prioritized_pods))
  end.

(** ** [_select_target_nodes] *)

Fixpoint score_nodes (node_metrics : list (string * NodeMetrics))
  : result (list (string * Q)) :=
  match node_metrics with
  | [] => mret []
  | (name, info) :: rest =>
      if m_is_spot info then
        cpu_capacity ← float (m_allocatable_cpu info);
        mem_capacity_gb ← float (replace_Gi (m_allocatable_memory info));
        let cpu_utilization :=
          if Qltb 0 cpu_capacity then m_current_cpu_usage info / cpu_capacity
          else 1.0 in
        let mem_utilization :=
          if Qltb 0 mem_capacity_gb then m_current_mem_usage_gb info / mem_capacity_gb
          else 1.0 in
        let utilization_factor :=
          ((1 - cpu_utilization) + (1 - mem_utilization)) / 2.0 in
        base_capacity_score ← calculate_node_score info;
        let score := base_capacity_score * (1 + utilization_factor * 2) in
        scored_nodes ← score_nodes rest;
        mret ((name, score) :: scored_nodes)
      else score_nodes rest
  end.

Definition _select_target_nodes (node_metrics : list (string * NodeMetrics))
  : result (list (string * Q)) :=
  scored_nodes ← score_nodes node_metrics;
  mret (sorted_reverse snd scored_nodes).

(** ** [_execute_migrations] *)

(** The search [for n_name, n_info in self.simulated_nodes.items()]: the
    first node whose pod list gets shorter when the pods bearing
    [pod_name] are filtered out receives the shortened list.  Returns the
    node's name with the changed table, or [None] when no list shrinks. *)
Fixpoint remove_pod (pod_name : string) (nodes : list (string * Node))
  : option (string * list (string * Node)) :=
  match nodes with
  | [] => None
  | (n_name, n_info) :: rest =>
      let new_pod_list :=
        List.filter (fun p => negb (String.eqb (name p) pod_name)) (pods n_info) in
      if Nat.ltb (length new_pod_list) (length (pods n_info)) then
        Some (n_name, (n_name, set_pods new_pod_list n_info) :: rest)
      else
        match remove_pod pod_name rest with
        | Some (original, rest') => Some (original, (n_name, n_info) :: rest')
        | None => None
        end
  end.

Definition append_pod (pod : Pod) (n : Node) : Node :=
  set_pods (pods n ++ [pod]) n.

(** One iteration of [for pod in pods], with [node_cycle_idx] as it
    stands when the iteration starts. *)
Definition migrate_pod (now : Q) (target_nodes : list (string * Q))
    (node_cycle_idx : nat) (pod : Pod) : M unit :=
  let target_node_name :=
    (nth (node_cycle_idx mod length target_nodes) target_nodes (""%string, 0)).1 in
  pod_priority ← lift (_calculate_pod_priority now pod);
  if negb (safe_evict_pod (name pod) (namespace pod) (labels pod)) then mret tt
  else
    nodes ← read simulated_nodes;
    match remove_pod (name pod) nodes with
    | None => mret tt
    | Some (original_node_name, nodes') =>
        _ ← modify (set_nodes nodes');
        _ ← _update_simulated_node_usage original_node_name;
        nodes ← read simulated_nodes;
        match get nodes target_node_name with
        | Some _ =>
            _ ← modify (set_nodes (update nodes target_node_name (append_pod pod)));
            _update_simulated_node_usage target_node_name
        | None => mret tt
        end
    end.

Fixpoint migrate_loop (now : Q) (target_nodes : list (string * Q))
    (node_cycle_idx : nat) (ps : list Pod) : M unit :=
  match ps with
  | [] => mret tt
  | pod :: rest =>
      _ ← migrate_pod now target_nodes node_cycle_idx pod;
      migrate_loop now target_nodes (S node_cycle_idx) rest
  end.

Definition _execute_migrations (now : Q) (ps : list Pod)
    (target_nodes : list (string * Q)) : M unit :=
  match target_nodes with
  | [] => mret tt
  | _ =>
      simulation ← read simulation_mode;
      if (simulation : bool) then migrate_loop now target_nodes 0 ps
      else mret tt
  end.

(** ** [simulate_spot_node_interruption] *)

(** The capacity test, written out twice in the source (for the
    remaining Spot nodes and for the fallback node) with the same text.
    [and] does not evaluate its right operand when the left one is
    false. *)
Definition has_capacity (node_info : Node) (pod : Pod) : result bool :=
  cpu_req ← float (replace_m (requests_cpu pod));
  let cpu_req := cpu_req / 1000 in
  mem_req ← float (replace_Gi (requests_memory pod));
  cpu_alloc ← float (allocatable_cpu node_info);
  if Qle_bool (current_cpu_usage node_info + cpu_req) cpu_alloc then
    mem_alloc ← float (replace_Gi (allocatable_memory node_info));
    mret (Qle_bool (current_mem_usage_gb node_info + mem_req) mem_alloc)
  else mret false.

Fixpoint eligible_spot_nodes (nodes : list (string * Node)) (pod : Pod)
    (remaining_spot_nodes_names : list string) : result (list string) :=
  match remaining_spot_nodes_names with
  | [] => mret []
  | n_name :: rest =>
      match get nodes n_name with
      | None => Raise (KeyError n_name)
      | Some node_info =>
          fits ← has_capacity node_info pod;
          eligible ← eligible_spot_nodes nodes pod rest;
          mret (if (fits : bool) then n_name :: eligible else eligible)
      end
  end.

(** [random.choice(seq)] for a non-empty [seq], driven by the number [r]
    drawn for this call. *)
Definition choice (r : nat) (seq : list string) : string :=
  nth (r mod length seq) seq ""%string.

Definition place (target_node_id : string) (pod : Pod) : M unit :=
  nodes ← read simulated_nodes;
  _ ← modify (set_nodes (update nodes target_node_id (append_pod pod)));
  _update_simulated_node_usage target_node_id.

(** One iteration of [for pod in interrupted_node_pods]; [r] is the
    random draw available to it. *)
Definition reprogram_pod (remaining_spot_nodes_names : list string)
    (fallback_node_name : string) (r : nat) (pod : Pod) : M unit :=
  nodes ← read simulated_nodes;
  eligible_spot_nodes_with_capacity ←
    lift (eligible_spot_nodes nodes pod remaining_spot_nodes_names);
  match eligible_spot_nodes_with_capacity with
  | _ :: _ => place (choice r eligible_spot_nodes_with_capacity) pod
  | [] =>
      match get nodes fallback_node_name with
      | Some fallback =>
          if negb (is_spot fallback) then
            fits ← lift (has_capacity fallback pod);
            if (fits : bool) then place fallback_node_name pod else mret tt
          else mret tt
      | None => mret tt
      end
  end.

Fixpoint reprogram_loop (remaining_spot_nodes_names : list string)
    (fallback_node_name : string) (rng : nat -> nat) (i : nat) (ps : list Pod)
  : M unit :=
  match ps with
  | [] => mret tt
  | pod :: rest =>
      _ ← reprogram_pod remaining_spot_nodes_names fallback_node_name (rng i) pod;
      reprogram_loop remaining_spot_nodes_names fallback_node_name rng (S i) rest
  end.

(** [rng i] is the draw used for the [i]-th orphaned pod. *)
Definition simulate_spot_node_interruption (rng : nat -> nat) (node_name : string)
  : M unit :=
  nodes ← read simulated_nodes;
  match get nodes node_name with
  | None => mret tt
  | Some node =>
      if negb (is_spot node) then mret tt
      else
        let interrupted_node_pods := pods node in
        _ ← modify (set_nodes (del nodes node_name));
        nodes ← read simulated_nodes;
        let remaining_spot_nodes_names :=
          map fst (List.filter (fun '(n_name, n_info) => is_spot n_info) nodes) in
        let fallback_node_name := "aks-regular-1"%string in
        reprogram_loop remaining_spot_nodes_names fallback_node_name rng 0
                       interrupted_node_pods
  end.

(** ** [rebalance_cluster] *)

(** The two logging loops format [float(info['allocatable'][...])] for
    every node of the metrics table, which raises on a malformed
    capacity. *)
Fixpoint log_node_state (node_metrics : list (string * NodeMetrics)) : result unit :=
  match node_metrics with
  | [] => mret tt
  | (name, info) :: rest =>
      _ ← float (m_allocatable_cpu info);
      _ ← float (replace_Gi (m_allocatable_memory info));
      log_node_state rest
  end.

Definition rebalance_cluster (now : Q) : M unit :=
  fun self =>
    if Qltb (now - last_rebalance_time self) (REBALANCE_INTERVAL_SECONDS self)
    then (Ok tt, self)
    else
      try_except (
        node_metrics ← get_node_metrics;
        _ ← lift (log_node_state node_metrics);
        pods_to_move ← find_pods_for_rebalance;
        max_pods ← read max_pods_per_cycle;
        filtered_pods ← lift (_filter_pods max_pods now pods_to_move);
        target_nodes ← lift (_select_target_nodes node_metrics);
        _ ← match filtered_pods, target_nodes with
            | _ :: _, _ :: _ => _execute_migrations now filtered_pods target_nodes
            | _, _ => mret tt
            end;
        _ ← modify (set_last_rebalance_time now);
        node_metrics ← get_node_metrics;
        lift (log_node_state node_metrics)) self.

End Main.

(** ** The state built by [ClusterRebalancer.__init__]

    Ten test pods on the regular node, two empty Spot nodes.  The request
    strings are the ones the f-strings of [_initialize_regular_node_pods]
    produce; [t0] is the clock at construction time. *)

Module Initial.
Import Main.

Definition test_pod (t0 : Q) (i : Z) (pod_name pod_cpu pod_mem is_critical : string)
  : Pod :=
  mkPod pod_name "default" pod_cpu pod_mem
    {[ "critical"%string := is_critical;
       "app.kubernetes.io/name"%string := pod_name ]}
    (t0 - inject_Z i * 3600).

Definition initial_pods (t0 : Q) : list Pod :=
  [ test_pod t0 1 "app-1" "0.30000000000000004" "1.0Gi" "false";
    test_pod t0 2 "app-2" "0.4" "1.5Gi" "false";
    test_pod t0 3 "app-3" "0.5" "0.5Gi" "true";
    test_pod t0 4 "app-4" "0.6000000000000001" "1.0Gi" "false";
    test_pod t0 5 "app-5" "0.2" "1.5Gi" "false";
    test_pod t0 6 "app-6" "0.30000000000000004" "0.5Gi" "true";
    test_pod t0 7 "app-7" "0.4" "1.0Gi" "false";
    test_pod t0 8 "app-8" "0.5" "1.5Gi" "false";
    test_pod t0 9 "app-9" "0.6000000000000001" "0.5Gi" "true";
    test_pod t0 10 "app-10" "0.2" "1.0Gi" "false" ].

Definition init (t0 : Q) : ClusterRebalancer :=
  let self :=
    mkClusterRebalancer 30 0 10 true
      [ ("aks-spot-1"%string, mkNode true "4" "16Gi" 0.0 0.0 []);
        ("aks-spot-2"%string, mkNode true "2" "8Gi" 0.0 0.0 []);
        ("aks-regular-1"%string, mkNode false "8" "32Gi" 0.0 0.0 (initial_pods t0)) ] in
  (_update_simulated_node_usage "aks-regular-1" self).2.

End Initial.

(* ------------------------------------------------------------------ *)
(** * src/config.py *)
(* ------------------------------------------------------------------ *)

Module Config.

Record TimeWindow : Type := mkTimeWindow {
  start : string;
  end_ : string;
  min_replicas : Z;
  max_replicas : Z
}.

(** The class attributes of [Config], each with the type its initialiser
    gives it ([os.getenv] without a default may be [None]). *)
Record t : Type := mk {
  KUBECONFIG : option string;
  AKS_CLUSTER_NAME : option string;
  AZURE_SUBSCRIPTION_ID : option string;
  SPOT_NODE_POOL : string;
  REGULAR_NODE_POOL : string;
  SPOT_UTILIZATION_THRESHOLD : Q;
  REGULAR_UTILIZATION_THRESHOLD : Q;
  MAX_SPOT_INTERRUPTION_RISK : Q;
  KEDA_NAMESPACE : string;
  PROMETHEUS_URL : string;
  SCALING_COOLDOWN : Z;
  MIN_REPLICAS : Z;
  MAX_REPLICAS : Z;
  CPU_SCALING_THRESHOLD : Z;
  MEMORY_SCALING_THRESHOLD : Z;
  ENVIRONMENT : string;
  RESPONSE_TIME_THRESHOLD : Q;
  MAX_RESPONSE_TIME : Q;
  COOLDOWN_PERIOD : Z;
  STABILIZATION_WINDOW : Z;
  MIN_CHANGE_PERIOD : Z;
  TIME_WINDOWS : list (string * TimeWindow);
  ROLLBACK_ENABLED : bool;
  ROLLBACK_THRESHOLD_CPU : Z;
  ROLLBACK_CHECK_INTERVAL : Z
}.

(** The values taken when the environment sets none of the variables. *)
Definition default : t := {|
  KUBECONFIG := None;
  AKS_CLUSTER_NAME := None;
  AZURE_SUBSCRIPTION_ID := None;
  SPOT_NODE_POOL := "spot";
  REGULAR_NODE_POOL := "regular";
  SPOT_UTILIZATION_THRESHOLD := 0.7;
  REGULAR_UTILIZATION_THRESHOLD := 0.8;
  MAX_SPOT_INTERRUPTION_RISK := 0.3;
  KEDA_NAMESPACE := "keda";
  PROMETHEUS_URL := "http://prometheus-kube-prometheus-prometheus.monitoring:9090";
  SCALING_COOLDOWN := 300;
  MIN_REPLICAS := 1;
  MAX_REPLICAS := 10;
  CPU_SCALING_THRESHOLD := 70;
  MEMORY_SCALING_THRESHOLD := 80;
  ENVIRONMENT := "local";
  RESPONSE_TIME_THRESHOLD := 1.0;
  MAX_RESPONSE_TIME := 2.0;
  COOLDOWN_PERIOD := 300;
  STABILIZATION_WINDOW := 60;
  MIN_CHANGE_PERIOD := 120;
  TIME_WINDOWS :=
    [ ("night"%string, mkTimeWindow "00:00" "06:00" 1 3);
      ("morning"%string, mkTimeWindow "06:00" "12:00" 2 5);
      ("afternoon"%string, mkTimeWindow "12:00" "18:00" 3 8);
      ("evening"%string, mkTimeWindow "18:00" "00:00" 2 6) ];
  ROLLBACK_ENABLED := true;
  ROLLBACK_THRESHOLD_CPU := 85;
  ROLLBACK_CHECK_INTERVAL := 300
|}.

(** Python values, as far as attribute reads of [Config] produce them. *)
Inductive value : Type :=
| VNone
| VStr (s : string)
| VInt (z : Z)
| VFloat (q : Q)
| VBool (b : bool)
| VWindows (w : list (string * TimeWindow)).

Definition of_getenv (o : option string) : value :=
  match o with
  | Some s => VStr s
  | None => VNone
  end.

(** Truth value of a Python object in a condition. *)
Definition truthy (v : value) : bool :=
  match v with
  | VNone => false
  | VStr s => negb (String.eqb s "")
  | VInt z => negb (Z.eqb z 0)
  | VFloat q => negb (Qeq_bool q 0)
  | VBool b => b
  | VWindows w => match w with [] => false | _ => true end
  end.

(** The attribute table of the class: the names assigned in its body. *)
Definition attributes (c : t) : list (string * value) :=
  [ ("KUBECONFIG"%string, of_getenv (KUBECONFIG c));
    ("AKS_CLUSTER_NAME"%string, of_getenv (AKS_CLUSTER_NAME c));
    ("AZURE_SUBSCRIPTION_ID"%string, of_getenv (AZURE_SUBSCRIPTION_ID c));
    ("SPOT_NODE_POOL"%string, VStr (SPOT_NODE_POOL c));
    ("REGULAR_NODE_POOL"%string, VStr (REGULAR_NODE_POOL c));
    ("SPOT_UTILIZATION_THRESHOLD"%string, VFloat (SPOT_UTILIZATION_THRESHOLD c));
    ("REGULAR_UTILIZATION_THRESHOLD"%string, VFloat (REGULAR_UTILIZATION_THRESHOLD c));
    ("MAX_SPOT_INTERRUPTION_RISK"%string, VFloat (MAX_SPOT_INTERRUPTION_RISK c));
    ("KEDA_NAMESPACE"%string, VStr (KEDA_NAMESPACE c));
    ("PROMETHEUS_URL"%string, VStr (PROMETHEUS_URL c));
    ("SCALING_COOLDOWN"%string, VInt (SCALING_COOLDOWN c));
    ("MIN_REPLICAS"%string, VInt (MIN_REPLICAS c));
    ("MAX_REPLICAS"%string, VInt (MAX_REPLICAS c));
    ("CPU_SCALING_THRESHOLD"%string, VInt (CPU_SCALING_THRESHOLD c));
    ("MEMORY_SCALING_THRESHOLD"%string, VInt (MEMORY_SCALING_THRESHOLD c));
    ("ENVIRONMENT"%string, VStr (ENVIRONMENT c));
    ("RESPONSE_TIME_THRESHOLD"%string, VFloat (RESPONSE_TIME_THRESHOLD c));
    ("MAX_RESPONSE_TIME"%string, VFloat (MAX_RESPONSE_TIME c));
    ("COOLDOWN_PERIOD"%string, VInt (COOLDOWN_PERIOD c));
    ("STABILIZATION_WINDOW"%string, VInt (STABILIZATION_WINDOW c));
    ("MIN_CHANGE_PERIOD"%string, VInt (MIN_CHANGE_PERIOD c));
    ("TIME_WINDOWS"%string, VWindows (TIME_WINDOWS c));
    ("ROLLBACK_ENABLED"%string, VBool (ROLLBACK_ENABLED c));
    ("ROLLBACK_THRESHOLD_CPU"%string, VInt (ROLLBACK_THRESHOLD_CPU c));
    ("ROLLBACK_CHECK_INTERVAL"%string, VInt (ROLLBACK_CHECK_INTERVAL c)) ].

(** [Config().attr]: the instance has no attributes of its own and the
    class defines no [__getattr__], so a name outside the table raises. *)
Definition getattr (c : t) (attr : string) : result value :=
  match get (attributes c) attr with
  | Some v => Ok v
  | None => Raise (AttributeError attr)
  end.

End Config.

(* ------------------------------------------------------------------ *)
(** * src/scaling_metrics.py *)
(* ------------------------------------------------------------------ *)

Module ScalingMetrics.

(** An entry of [metric_history]. *)
Record MetricSample : Type := mkSample {
  timestamp : Q;
  cpu : Q;
  memory : Q;
  response_time : Q
}.

(** The [ScalingMetrics] object; the four gauges hold the last value
    set. *)
Record t : Type := mk {
  config : Config.t;
  last_scale_time : Q;
  metric_history : list MetricSample;
  cpu_usage : Q;
  memory_usage : Q;
  pod_count : Z;
  response_time_gauge : Q
}.

Definition __init__ (cfg : Config.t) : t := mk cfg 0 [] 0 0 0 0.

Definition set_last_scale_time (now : Q) (self : t) : t :=
  mk (config self) now (metric_history self)
     (cpu_usage self) (memory_usage self) (pod_count self) (response_time_gauge self).

(** [sum(xs) / len(xs)] *)
Definition mean (xs : list Q) : Q :=
  fold_left Qplus xs 0 / inject_Z (Z.of_nat (length xs)).

Section WithPower.

(** [pods ** 0.7] is a floating-point power with no rational value in
    general; the development is parametric in it. *)
Variable pow_0_7 : Z -> Q.

Definition _calculate_simulated_response_time (cpu memory : Q) (pods : Z) : Q :=
  let base_time := 0.2 in
  let cpu_factor := (cpu / 100) * (cpu / 100) in
  let mem_factor := memory / 100 in
  let scaling_factor := 1.0 / Py.max 1 (pow_0_7 pods) in
  base_time + (cpu_factor * mem_factor * scaling_factor * 3.0).

Definition update_metrics (now : Q) (cpu_usage memory_usage : Q)
    (current_pods : Z) (response_time : option Q) (self : t) : t :=
  let response_time :=
    match response_time with
    | None => _calculate_simulated_response_time cpu_usage memory_usage current_pods
    | Some r => r
    end in
  let history :=
    metric_history self ++ [mkSample now cpu_usage memory_usage response_time] in
  let history :=
    List.filter
      (fun m => Qltb (now - inject_Z (Config.STABILIZATION_WINDOW (config self)))
                     (timestamp m))
      history in
  mk (config self) (last_scale_time self) history
     cpu_usage memory_usage current_pods response_time.

End WithPower.

Definition _metrics_are_stable (self : t) : bool :=
  if Nat.ltb (length (metric_history self)) 3 then false
  else
    let avg_cpu := mean (map cpu (metric_history self)) in
    let avg_memory := mean (map memory (metric_history self)) in
    forallb
      (fun m => negb (Qltb 15 (Qabs (cpu m - avg_cpu))
                      || Qltb 15 (Qabs (memory m - avg_memory))))
      (metric_history self).

Definition should_scale_up (now : Q) (self : t) : bool * t :=
  let cfg := config self in
  if Qltb (now - last_scale_time self) (inject_Z (Config.MIN_CHANGE_PERIOD cfg))
  then (false, self)
  else
    match metric_history self with
    | [] => (false, self)
    | _ =>
        let avg_cpu := mean (map cpu (metric_history self)) in
        let avg_memory := mean (map memory (metric_history self)) in
        let avg_response := mean (map response_time (metric_history self)) in
        if Qltb (Config.MAX_RESPONSE_TIME cfg) avg_response then
          (true, set_last_scale_time now self)
        else if Qltb (Config.RESPONSE_TIME_THRESHOLD cfg) avg_response then
          (true, set_last_scale_time now self)
        else
          let cpu_ok := Qltb (inject_Z (Config.CPU_SCALING_THRESHOLD cfg)) avg_cpu in
          let mem_ok := Qltb (inject_Z (Config.MEMORY_SCALING_THRESHOLD cfg)) avg_memory in
          if cpu_ok || mem_ok then (true, set_last_scale_time now self)
          else (false, self)
    end.

End ScalingMetrics.

(* ------------------------------------------------------------------ *)
(** * src/aks_integration.py: [auto_scale_node_pool] *)
(* ------------------------------------------------------------------ *)

Module AKS.

Record AKSManager : Type := mkAKSManager {
  config : Config.t;
  scaling_metrics : ScalingMetrics.t
}.

(** The branch [auto_scale_node_pool] takes, with the node count it asks
    [scale_node_pool] for. *)
Inductive Decision : Type :=
| ScaleUp (new_count : Z)
| ScaleDown (new_count : Z)
| NoOp.

(** [int(x)] of a float truncates towards zero. *)
Definition int (x : Q) : Z := Z.quot (Qnum x) (Zpos (Qden x)).

Section WithPower.
Variable pow_0_7 : Z -> Q.

(** The body of [auto_scale_node_pool] up to the call of
    [scale_node_pool].  The three values read from Prometheus are
    arguments: [cpu_usage], [memory_usage] and the pod-count reading. *)
Definition scaling_decision (now : Q) (cpu_usage memory_usage pods_reading : Q)
    (self : AKSManager) : Decision * AKSManager :=
  let cfg := config self in
  let current_pods := int pods_reading in
  let metrics :=
    ScalingMetrics.update_metrics pow_0_7 now cpu_usage memory_usage current_pods
      None (scaling_metrics self) in
  let '(up, metrics) := ScalingMetrics.should_scale_up now metrics in
  let self := mkAKSManager cfg metrics in
  if up && Z.ltb current_pods (Config.MAX_REPLICAS cfg) then
    (ScaleUp (Z.min (current_pods + 1) (Config.MAX_REPLICAS cfg)), self)
  else if Z.ltb (Config.MIN_REPLICAS cfg) current_pods
          && Qltb cpu_usage (inject_Z (Config.CPU_SCALING_THRESHOLD cfg) * 0.7)
          && Qltb memory_usage (inject_Z (Config.MEMORY_SCALING_THRESHOLD cfg) * 0.7)
  then (ScaleDown (Z.max (current_pods - 1) (Config.MIN_REPLICAS cfg)), self)
  else (NoOp, self).

(** [scale_node_pool] is the cloud call: it answers whether the resize
    request went through. *)
Definition auto_scale_node_pool (scale_node_pool : string -> Z -> bool)
    (now : Q) (cpu_usage memory_usage pods_reading : Q) (pool_name : string)
    (self : AKSManager) : bool * AKSManager :=
  let '(decision, self) :=
    scaling_decision now cpu_usage memory_usage pods_reading self in
  match decision with
  | ScaleUp new_count => (scale_node_pool pool_name new_count, self)
  | ScaleDown new_count => (scale_node_pool pool_name new_count, self)
  | NoOp => (false, self)
  end.

End WithPower.

End AKS.

(* ------------------------------------------------------------------ *)
(** * src/utils.py: [safe_evict_pod] *)
(* ------------------------------------------------------------------ *)

Module Utils.

(** What a call of the Kubernetes client does: it returns, or raises
    [ApiException] with an HTTP status. *)
Inductive outcome (A : Type) : Type :=
| Returned (a : A)
| ApiException (status : Z).

Arguments Returned {A} a.
Arguments ApiException {A} status.

(** The cluster as [safe_evict_pod] sees it; the first argument is the
    retry attempt during which the call is made. *)
Record CoreV1Api : Type := mkCoreV1Api {
  read_namespaced_pod : nat -> string -> string -> outcome (gmap string string);
  create_namespaced_pod_eviction : nat -> string -> string -> outcome unit
}.

(** The requests and pauses a run performs, in order. *)
Inductive effect : Type :=
| ReadPod (pod_name namespace : string)
| Evict (pod_name namespace : string)
| Sleep (attempt : nat).

(** [for attempt in range(max_retries)] *)
Fixpoint evict_loop (api : CoreV1Api) (pod_name namespace : string)
    (attempts : list nat) : bool * list effect :=
  match attempts with
  | [] => (false, [])
  | attempt :: rest =>
      let retry :=
        let '(r, effs) := evict_loop api pod_name namespace rest in
        (r, Sleep attempt :: effs) in
      match read_namespaced_pod api attempt pod_name namespace with
      | ApiException status =>
          let '(r, effs) :=
            if Z.eqb status 429 then retry else (false, []) in
          (r, ReadPod pod_name namespace :: effs)
      | Returned pod_labels =>
          if bool_decide (default "false"%string (pod_labels !! "critical"%string)
                          = "true"%string)
          then (false, [ReadPod pod_name namespace])
          else
            match create_namespaced_pod_eviction api attempt pod_name namespace with
            | Returned _ =>
                (true, [ReadPod pod_name namespace; Evict pod_name namespace])
            | ApiException status =>
                let '(r, effs) :=
                  if Z.eqb status 429 then retry else (false, []) in
                (r, ReadPod pod_name namespace :: Evict pod_name namespace :: effs)
            end
      end
  end.

Definition safe_evict_pod (cfg : Config.t) (api : CoreV1Api)
    (pod_name namespace : string) (max_retries : Z)
  : result bool * list effect :=
  match Config.getattr cfg "TEST_MODE" with
  | Raise e => (Raise e, [])
  | Ok test_mode =>
      if Config.truthy test_mode then (Ok true, [])
      else
        let '(r, effs) :=
          evict_loop api pod_name namespace (seq 0 (Z.to_nat max_retries)) in
        (Ok r, effs)
  end.

(** ** [calculate_node_score]

    The node is the dictionary the rebalancer keeps for it; every
    exception inside the [try] gives the score [0.0]. *)
Definition calculate_node_score (node_info : Main.Node) : Q :=
  let attempt : result Q :=
    let is_spot := Main.is_spot node_info in
    cpu_alloc ← float (Main.allocatable_cpu node_info);
    mem_alloc ← float (rstrip ["G"; "i"]%char (Main.allocatable_memory node_info));
    let score := 1.0 in
    let score := if is_spot then score + 0.5 else score in
    let utilization := (cpu_alloc + mem_alloc) / 2 in
    let score := score - utilization * 0.3 in
    mret (Py.max 0.1 score) in
  match attempt with
  | Ok score => score
  | Raise _ => 0.0
  end.

End Utils.

(* ------------------------------------------------------------------ *)
(** * The properties, in the vocabulary of the specification *)
(* ------------------------------------------------------------------ *)

Module Spec.
Import Main.

(** ** Pods and nodes *)

(** The criticality flag: the label ['critical'] equal to ['true']. *)
Definition is_critical (pod : Pod) : bool :=
  bool_decide (labels pod !! "critical"%string = Some "true"%string).

(** The request a pod declares: CPU in cores (a trailing [m] marks
    millicores) and memory in GiB. *)
Definition declared_cpu (pod : Pod) : result Q :=
  q ← float (replace_m (requests_cpu pod));
  mret (if contains_m (requests_cpu pod) then q / 1000 else q).

Definition declared_memory (pod : Pod) : result Q :=
  float (replace_Gi (requests_memory pod)).

(** Sum of the declared requests of a list of pods. *)
Fixpoint requests_sum (ps : list Pod) : result (Q * Q) :=
  match ps with
  | [] => mret (0, 0)
  | pod :: rest =>
      c ← declared_cpu pod;
      m ← declared_memory pod;
      '(cs, ms) ← requests_sum rest;
      mret (c + cs, m + ms)
  end.

(** Resident requests within the allocatable capacity, CPU and memory
    independently. *)
Definition within_capacity (n : Node) : result bool :=
  '(c, m) ← requests_sum (pods n);
  cpu_allocatable ← float (allocatable_cpu n);
  mem_allocatable ← float (replace_Gi (allocatable_memory n));
  mret (Qle_bool c cpu_allocatable && Qle_bool m mem_allocatable).

(** [current_usage + pod_request <= allocatable] for CPU and memory. *)
Definition fits (n : Node) (pod : Pod) : result bool :=
  c ← declared_cpu pod;
  m ← declared_memory pod;
  cpu_allocatable ← float (allocatable_cpu n);
  mem_allocatable ← float (replace_Gi (allocatable_memory n));
  mret (Qle_bool (current_cpu_usage n + c) cpu_allocatable
        && Qle_bool (current_mem_usage_gb n + m) mem_allocatable).

(** A node with room left on both resources. *)
Definition has_spare_capacity (n : Node) : result bool :=
  cpu_allocatable ← float (allocatable_cpu n);
  mem_allocatable ← float (replace_Gi (allocatable_memory n));
  mret (Qltb (current_cpu_usage n) cpu_allocatable
        && Qltb (current_mem_usage_gb n) mem_allocatable).

(** Where every pod lives: node names with their pods. *)
Definition residents (nodes : list (string * Node)) : list (string * list Pod) :=
  map (fun e => (e.1, pods e.2)) nodes.

(** The same, by pod name. *)
Definition placement (self : ClusterRebalancer) : list (string * list string) :=
  map (fun e => (e.1, map name e.2)) (residents (simulated_nodes self)).

(** The usage counters of every node. *)
Definition usage_counters (self : ClusterRebalancer) : list (string * (Q * Q)) :=
  map (fun e => (e.1, (current_cpu_usage e.2, current_mem_usage_gb e.2)))
      (simulated_nodes self).

(** The critical pods of every node, node by node. *)
Definition critical_in (rs : list (string * list Pod)) : list (string * list Pod) :=
  map (fun e => (e.1, List.filter is_critical e.2)) rs.

Definition critical_residents (self : ClusterRebalancer)
  : list (string * list Pod) :=
  critical_in (residents (simulated_nodes self)).

Definition all_pods (self : ClusterRebalancer) : list Pod :=
  concat (map snd (residents (simulated_nodes self))).

(** Pod names identify pods across the cluster. *)
Definition unique_pod_names (self : ClusterRebalancer) : Prop :=
  NoDup (map name (all_pods self)).

(** The states a rebalancer goes through: built by the constructor, then
    changed by rebalance cycles and node interruptions only. *)
Inductive reachable : ClusterRebalancer -> Prop :=
| reachable_init (t0 : Q) : reachable (Initial.init t0)
| reachable_rebalance (now : Q) (self : ClusterRebalancer) :
    reachable self -> reachable (rebalance_cluster now self).2
| reachable_interruption (rng : nat -> nat) (node_name : string)
    (self : ClusterRebalancer) :
    reachable self ->
    reachable (simulate_spot_node_interruption rng node_name self).2.

(** ** Node scoring, as section 4.1 words it *)

Definition util (current_usage allocatable : Q) : Q :=
  if Qeq_bool allocatable 0 then 1.0 else current_usage / allocatable.

Definition score (cpu_allocatable mem_allocatable_GB cpu_usage mem_usage : Q) : Q :=
  let utilization_factor :=
    ((1 - util cpu_usage cpu_allocatable)
     + (1 - util mem_usage mem_allocatable_GB)) / 2 in
  (0.7 * cpu_allocatable + 0.3 * mem_allocatable_GB)
  * (1 + utilization_factor * 2).




(** ** The scaling engine as a sequence of calls *)

Inductive call : Type :=
| UpdateMetrics (now cpu memory : Q) (pods : Z) (response_time : option Q)
| ShouldScaleUp (now : Q).

(** Runs the calls in order; returns the answers of the [should_scale_up]
    calls with their times. *)
Fixpoint run (pow_0_7 : Z -> Q) (calls : list call) (self : ScalingMetrics.t)
  : list (Q * bool) * ScalingMetrics.t :=
  match calls with
  | [] => ([], self)
  | UpdateMetrics now c m p r :: rest =>
      run pow_0_7 rest (ScalingMetrics.update_metrics pow_0_7 now c m p r self)
  | ShouldScaleUp now :: rest =>
      let '(d, self) := ScalingMetrics.should_scale_up now self in
      let '(ds, self) := run pow_0_7 rest self in
      ((now, d) :: ds, self)
  end.

Definition decision_times (calls : list call) : list Q :=
  flat_map (fun c => match c with ShouldScaleUp now => [now] | _ => [] end) calls.


(** ** A computable stand-in for [pods ** 0.7]

    [pods ** 0.7] rounded down to three decimals, from the integer tenth
    root of [pods^7 * 10^30]. *)

Fixpoint root10_bits (n : Z) (bits : nat) (r : Z) : Z :=
  match bits with
  | O => r
  | S b =>
      let r' := (r + 2 ^ Z.of_nat b)%Z in
      root10_bits n b (if (r' ^ 10 <=? n)%Z then r' else r)
  end.

Definition pow_0_7 (pods : Z) : Q :=
  if (pods <=? 0)%Z then 0
  else
    let n := (pods ^ 7 * 10 ^ 30)%Z in
    Qmake (root10_bits n (Z.to_nat (Z.log2 n)) 0) 1000.

End Spec.

(* ------------------------------------------------------------------ *)
(** * Concrete states used as instances *)
(* ------------------------------------------------------------------ *)

Module Examples.


(** One sample at 95% CPU. *)
Definition scale_up_starts_cooldown_state : ScalingMetrics.t :=
  ScalingMetrics.mk Config.default 0
    [ScalingMetrics.mkSample 995 95 50 0.5] 95 50 3 0.5.



(** The third test pod of the constructor, a critical one. *)
Definition app_3 : Main.Pod :=
  Initial.test_pod 1000000 3 "app-3" "0.5" "0.5Gi" "true".

(** The rebalancer as constructed at time 1000000. *)
Definition fresh : Main.ClusterRebalancer := Initial.init 1000000.

(** The seven test pods that are not critical, in the order of their
    migration priority. *)
Definition app_1 : Main.Pod :=
  Initial.test_pod 1000000 1 "app-1" "0.30000000000000004" "1.0Gi" "false".
Definition app_2 : Main.Pod :=
  Initial.test_pod 1000000 2 "app-2" "0.4" "1.5Gi" "false".
Definition app_4 : Main.Pod :=
  Initial.test_pod 1000000 4 "app-4" "0.6000000000000001" "1.0Gi" "false".
Definition app_5 : Main.Pod :=
  Initial.test_pod 1000000 5 "app-5" "0.2" "1.5Gi" "false".
Definition app_7 : Main.Pod :=
  Initial.test_pod 1000000 7 "app-7" "0.4" "1.0Gi" "false".
Definition app_8 : Main.Pod :=
  Initial.test_pod 1000000 8 "app-8" "0.5" "1.5Gi" "false".
Definition app_10 : Main.Pod :=
  Initial.test_pod 1000000 10 "app-10" "0.2" "1.0Gi" "false".

Definition movable : list Main.Pod :=
  [app_10; app_1; app_7; app_5; app_4; app_2; app_8].

(** [random.choice] always drawing 0; every choice below is made among
    a single node. *)
Definition rng0 : nat -> nat := fun _ => 0%nat.

(** The run of the script at the end of main.py: a first cycle, the
    interruption of [aks-spot-1], and the next cycle that is due. *)
Definition after_first_cycle : Main.ClusterRebalancer :=
  (Main.rebalance_cluster 1000001 fresh).2.

Definition after_interruption : Main.ClusterRebalancer :=
  (Main.simulate_spot_node_interruption rng0 "aks-spot-1" after_first_cycle).2.

Definition after_second_cycle : Main.ClusterRebalancer :=
  (Main.rebalance_cluster 1000040 after_interruption).2.

(** The interruption loop at the moment it reaches [app-4]: the node is
    gone and [app-10] and [app-7] have been reprogrammed. *)
Definition reaching_app_4 : Main.ClusterRebalancer :=
  (Main.reprogram_loop ["aks-spot-2"%string] "aks-regular-1" rng0 0
     [app_10; app_7]
     (Main.set_nodes (del (Main.simulated_nodes after_first_cycle) "aks-spot-1")
        after_first_cycle)).2.

(** The constructor followed at once by the interruption of
    [aks-spot-1], which leaves [aks-spot-2] as the only Spot node. *)
Definition one_spot_left : Main.ClusterRebalancer :=
  (Main.simulate_spot_node_interruption rng0 "aks-spot-1" fresh).2.

(** A table no run of the rebalancer produces: two pods named [db] in
    different namespaces on the regular node, one of them critical. *)
Definition db_critical : Main.Pod :=
  Main.mkPod "db" "prod" "1" "1Gi" {[ "critical"%string := "true"%string ]} 0.
Definition db_plain : Main.Pod :=
  Main.mkPod "db" "default" "1" "1Gi" {[ "critical"%string := "false"%string ]} 0.

Definition name_clash : Main.ClusterRebalancer :=
  Main.mkClusterRebalancer 30 0 10 true
    [ ("aks-spot-1"%string, Main.mkNode true "4" "16Gi" 0 0 []);
      ("aks-regular-1"%string,
       Main.mkNode false "8" "32Gi" 2 2 [db_critical; db_plain]) ].

End Examples.

Import Examples.

(* ------------------------------------------------------------------ *)
(** * Further vocabulary for the rebalancer *)
(* ------------------------------------------------------------------ *)

Module Table.
Import Main.

Definition is_ok {A} (r : result A) : bool :=
  match r with
  | Ok _ => true
  | Raise _ => false
  end.

(** The two request strings of a pod are numbers. *)
Definition pod_parses (pod : Pod) : bool :=
  is_ok (float (replace_m (requests_cpu pod)))
  && is_ok (float (replace_Gi (requests_memory pod))).

(** The two capacity strings of a node are numbers. *)
Definition capacity_parses (n : Node) : bool :=
  is_ok (float (allocatable_cpu n))
  && is_ok (float (replace_Gi (allocatable_memory n))).

(** Every quantity written in the table is a number. *)
Definition well_formed (self : ClusterRebalancer) : bool :=
  forallb (fun e => capacity_parses e.2 && forallb pod_parses (pods e.2))
          (simulated_nodes self).

(** [pod] is one of the pods of the node stored under [node_name]. *)
Definition resides (pod : Pod) (node_name : string) (self : ClusterRebalancer)
  : Prop :=
  exists n, get (simulated_nodes self) node_name = Some n /\ In pod (pods n).

(** The part of a node no operation of the rebalancer writes. *)
Definition identity_of (n : Node) : bool * string * string :=
  (is_spot n, allocatable_cpu n, allocatable_memory n).

(** The part of the rebalancer outside the node table. *)
Definition settings (self : ClusterRebalancer) : Q * Q * nat * bool :=
  (REBALANCE_INTERVAL_SECONDS self, last_rebalance_time self,
   max_pods_per_cycle self, simulation_mode self).

(** How a node may change while the pods named [x] are moved: its
    identity stays and it keeps every pod that bears another name. *)
Definition keeps (x : string) (n n' : Node) : Prop :=
  identity_of n' = identity_of n
  /\ forall q, name q <> x -> In q (pods n) -> In q (pods n').

(** The same, entry by entry, for a whole table. *)
Definition table_keeps (x : string) (nodes nodes' : list (string * Node)) : Prop :=
  Forall2 (fun e e' => e'.1 = e.1 /\ keeps x e.2 e'.2) nodes nodes'.

(** How a node may change during an interruption: its identity stays
    and pods taken from [orphans] are added behind the ones it has. *)
Definition grows (orphans : list Pod) (n n' : Node) : Prop :=
  identity_of n' = identity_of n
  /\ exists extra, pods n' = pods n ++ extra /\ incl extra orphans.

Definition table_grows (orphans : list Pod) (nodes nodes' : list (string * Node))
  : Prop :=
  Forall2 (fun e e' => e'.1 = e.1 /\ grows orphans e.2 e'.2) nodes nodes'.

(** The capacity test of the interruption handler answers yes for [pod]
    on the node stored under [n_name]. *)
Definition passes (nodes : list (string * Node)) (pod : Pod) (n_name : string)
  : bool :=
  match get nodes n_name with
  | Some node_info =>
      match has_capacity node_info pod with
      | Ok fits => fits
      | Raise _ => false
      end
  | None => false
  end.

(** The nodes of a table, in order, each with its identity. *)
Definition idents (nodes : list (string * Node))
  : list (string * (bool * string * string)) :=
  map (fun e => (e.1, identity_of e.2)) nodes.

End Table.


(* ------------------------------------------------------------------ *)
(** * Further sample states *)
(* ------------------------------------------------------------------ *)

Module Samples.

(** Three samples taken ten seconds apart under a steady load. *)
Definition steady : ScalingMetrics.t :=
  ScalingMetrics.mk Config.default 0
    [ ScalingMetrics.mkSample 980 60 70 0.5;
      ScalingMetrics.mkSample 990 65 72 0.5;
      ScalingMetrics.mkSample 1000 55 68 0.5 ] 55 68 3 0.5.

End Samples.

(* ------------------------------------------------------------------ *)
(** * src/hpa_scheduler.py *)
(* ------------------------------------------------------------------ *)

Module HPAScheduler.

(** A [datetime.time]. *)
Record time : Type := mkTime {
  hour : Z;
  minute : Z;
  second : Z;
  microsecond : Z
}.

(** The ranges [datetime.time] accepts for its fields. *)
Definition valid (now : time) : Prop :=
  (0 <= hour now < 24)%Z
  /\ (0 <= minute now < 60)%Z
  /\ (0 <= second now < 60)%Z
  /\ (0 <= microsecond now < 1000000)%Z.

(** Times compare as the tuples (hour, minute, second, microsecond). *)
Definition compare (a b : time) : comparison :=
  match (hour a ?= hour b)%Z with
  | Eq =>
      match (minute a ?= minute b)%Z with
      | Eq =>
          match (second a ?= second b)%Z with
          | Eq => (microsecond a ?= microsecond b)%Z
          | c => c
          end
      | c => c
      end
  | c => c
  end.

Definition ltb (a b : time) : bool :=
  match compare a b with Lt => true | _ => false end.

Definition leb (a b : time) : bool :=
  match compare a b with Gt => false | _ => true end.

Fixpoint split_colon (s : string) : string * option string :=
  match s with
  | EmptyString => (EmptyString, None)
  | String c r =>
      if Ascii.eqb c ":" then (EmptyString, Some r)
      else let '(a, b) := split_colon r in (String c a, b)
  end.

(** [datetime.strptime(s, '%H:%M').time()] on ASCII input: one or two
    digits up to 23, a colon, one or two digits up to 59, and nothing
    else. *)
Definition strptime (s : string) : result time :=
  match split_colon s with
  | (h, Some m) =>
      match digits h 0 0, digits m 0 0 with
      | Some (hv, hl), Some (mv, ml) =>
          if Nat.leb 1 hl && Nat.leb hl 2 && Z.leb hv 23
             && Nat.leb 1 ml && Nat.leb ml 2 && Z.leb mv 59
          then Ok (mkTime hv mv 0 0)
          else Raise ValueError
      | _, _ => Raise ValueError
      end
  | (_, None) => Raise ValueError
  end.

Record t : Type := mk {
  config : Config.t;
  current_window : option string;
  last_rollback_check : Q
}.

Definition __init__ (cfg : Config.t) : t := mk cfg None 0.

(** The loop of [get_current_time_window] over the remaining windows;
    [None] stands for the pair [(None, None)]. *)
Fixpoint find_window (now : time) (windows : list (string * Config.TimeWindow))
  : result (option (string * Config.TimeWindow)) :=
  match windows with
  | [] => mret None
  | (window_name, window) :: rest =>
      start ← strptime (Config.start window);
      end_ ← strptime (Config.end_ window);
      if leb start now && ltb now end_
         || String.ltb (Config.end_ window) (Config.start window)
            && (leb start now || ltb now end_)
      then mret (Some (window_name, window))
      else find_window now rest
  end.

Definition get_current_time_window (now : time) (self : t)
  : result (option (string * Config.TimeWindow)) :=
  find_window now (Config.TIME_WINDOWS (config self)).

(** The requests sent to the cluster. *)
Inductive request : Type :=
| PatchHPA (namespace name : string) (minReplicas : option Z) (maxReplicas : Z)
| ListPodMetrics (namespace : string).

(** The custom-objects client: the patch returns or raises; the metrics
    listing gives, for every pod, the CPU usage string of each of its
    containers where there is one. *)
Record CustomObjectsApi : Type := mkCustomObjectsApi {
  patch_namespaced_custom_object :
    string -> string -> option Z -> Z -> Utils.outcome unit;
  list_namespaced_custom_object :
    string -> Utils.outcome (list (list (option string)))
}.

(** [adjust_hpa]; [environment] is [os.getenv('ENVIRONMENT')]. *)
Definition adjust_hpa (api : CustomObjectsApi) (environment : option string)
    (now : time) (namespace hpa_name : string) (self : t)
  : result bool * t * list request :=
  match get_current_time_window now self with
  | Raise e => (Raise e, self, [])
  | Ok None => (Ok false, self, [])
  | Ok (Some (window_name, window)) =>
      if String.eqb window_name "" then (Ok false, self, [])
      else if bool_decide (Some window_name = current_window self)
      then (Ok false, self, [])
      else
        let adjusted :=
          mk (config self) (Some window_name) (last_rollback_check self) in
        if bool_decide (environment = Some "local"%string)
        then (Ok true, adjusted, [])
        else
          let sent :=
            PatchHPA namespace hpa_name (Some (Config.min_replicas window))
                     (Config.max_replicas window) in
          match patch_namespaced_custom_object api namespace hpa_name
                  (Some (Config.min_replicas window)) (Config.max_replicas window)
          with
          | Utils.Returned _ => (Ok true, adjusted, [sent])
          | Utils.ApiException _ => (Ok false, self, [sent])
          end
  end.

(** [max(...)] of a generator of integers. *)
Definition max_of (zs : list Z) : result Z :=
  match zs with
  | [] => Raise ValueError
  | z :: rest => Ok (fold_left Z.max rest z)
  end.

(** The two nested loops of [check_rollback_conditions] over the
    containers of one pod and over the pods. *)
Fixpoint sum_containers (containers : list (option string)) (total_cpu count : Z)
  : result (Z * Z) :=
  match containers with
  | [] => mret (total_cpu, count)
  | container :: rest =>
      let cpu := default "0m"%string container in
      v ← int_of_string (rstrip ["m"]%char cpu);
      sum_containers rest (total_cpu + v)%Z (count + 1)%Z
  end.

Fixpoint sum_pods (items : list (list (option string))) (total_cpu count : Z)
  : result (Z * Z) :=
  match items with
  | [] => mret (total_cpu, count)
  | pod :: rest =>
      '(total_cpu, count) ← sum_containers pod total_cpu count;
      sum_pods rest total_cpu count
  end.

Definition set_last_rollback_check (now : Q) (self : t) : t :=
  mk (config self) (current_window self) now.

(** [check_rollback_conditions]; [now] is the value of [time.time()]. *)
Definition check_rollback_conditions (api : CustomObjectsApi) (now : Q)
    (namespace hpa_name : string) (self : t) : bool * t * list request :=
  let cfg := config self in
  if negb (Config.ROLLBACK_ENABLED cfg) then (false, self, [])
  else if Qltb (now - last_rollback_check self)
               (inject_Z (Config.ROLLBACK_CHECK_INTERVAL cfg))
  then (false, self, [])
  else
    let self := set_last_rollback_check now self in
    match list_namespaced_custom_object api namespace with
    | Utils.ApiException _ => (false, self, [ListPodMetrics namespace])
    | Utils.Returned items =>
        match sum_pods items 0 0 with
        | Raise _ => (false, self, [ListPodMetrics namespace])
        | Ok (total_cpu, count) =>
            let avg_cpu := inject_Z total_cpu / inject_Z (Z.max 1 count) in
            if Qltb (inject_Z (Config.ROLLBACK_THRESHOLD_CPU cfg)) avg_cpu then
              match max_of (map (fun w => Config.max_replicas w.2)
                                (Config.TIME_WINDOWS cfg)) with
              | Raise _ => (false, self, [ListPodMetrics namespace])
              | Ok max_replicas =>
                  let sent := PatchHPA namespace hpa_name None max_replicas in
                  match patch_namespaced_custom_object api namespace hpa_name
                          None max_replicas with
                  | Utils.Returned _ =>
                      (true, self, [ListPodMetrics namespace; sent])
                  | Utils.ApiException _ =>
                      (false, self, [ListPodMetrics namespace; sent])
                  end
              end
            else (false, self, [ListPodMetrics namespace])
        end
    end.

End HPAScheduler.

(* ------------------------------------------------------------------ *)
(** * src/simulador_escalado.py *)
(* ------------------------------------------------------------------ *)

Module Simulador.

Record t : Type := mk {
  scaling_metrics : ScalingMetrics.t;
  current_pods : Z
}.

Definition __init__ (cfg : Config.t) : t := mk (ScalingMetrics.__init__ cfg) 2.

(** What an iteration reads from outside: the two random draws and the
    clock at the two places it is read. *)
Record reading : Type := mkReading {
  cpu : Q;
  mem : Q;
  update_time : Q;
  decision_time : Q
}.

(** The bounds of [random.uniform] in iteration [i]: CPU first, memory
    second. *)
Definition phase (i : nat) : (Q * Q) * (Q * Q) :=
  if Nat.ltb i 10 then ((25, 45), (30, 50))
  else if Nat.leb 10 i && Nat.ltb i 20 then ((50, 85), (60, 90))
  else ((70, 95), (75, 95)).

(** The decisions an iteration logs. *)
Inductive decision : Type :=
| Escalar (pods : Z)
| Reducir (pods : Z).

Section WithPower.
Variable pow_0_7 : Z -> Q.

(** One iteration of the loop of [simular_carga]; [None] is the
    [IndexError] of [metric_history[-1]] on an empty history. *)
Definition iteration (r : reading) (self : t) : option (t * list decision) :=
  let metrics :=
    ScalingMetrics.update_metrics pow_0_7 (update_time r) (cpu r) (mem r)
      (current_pods self) None (scaling_metrics self) in
  match last (ScalingMetrics.metric_history metrics) with
  | None => None
  | Some current_metrics =>
      let '(up, metrics) := ScalingMetrics.should_scale_up (decision_time r) metrics in
      if up && Z.ltb (current_pods self) 10 then
        let pods := (current_pods self + 1)%Z in
        Some (mk metrics pods, [Escalar pods])
      else if Qltb (cpu r) 50 && Qltb (mem r) 60 && Z.ltb 1 (current_pods self) then
        let pods := (current_pods self - 1)%Z in
        Some (mk metrics pods, [Reducir pods])
      else Some (mk metrics (current_pods self), [])
  end.

(** [for i in range(...)], from iteration [i] on, with the readings of
    the iterations still to run. *)
Fixpoint simular_carga (readings : list reading) (self : t)
  : option (t * list decision) :=
  match readings with
  | [] => Some (self, [])
  | r :: rest =>
      match iteration r self with
      | None => None
      | Some (self, logged) =>
          match simular_carga rest self with
          | None => None
          | Some (self, logged') => Some (self, logged ++ logged')
          end
      end
  end.

End WithPower.

(** The readings of a run respect the bounds of their phases, the first
    of them being those of iteration [i]. *)
Fixpoint in_phase (i : nat) (readings : list reading) : Prop :=
  match readings with
  | [] => True
  | r :: rest =>
      let '((cpu_lo, cpu_hi), (mem_lo, mem_hi)) := phase i in
      (cpu_lo <= cpu r <= cpu_hi /\ mem_lo <= mem r <= mem_hi)
      /\ in_phase (S i) rest
  end.

End Simulador.

(* ------------------------------------------------------------------ *)
(** * Sample inputs for the other modules *)
(* ------------------------------------------------------------------ *)

Module Inputs.


(** A cluster whose pod carries the label [critical=true]. *)
Definition guarded_cluster : Utils.CoreV1Api :=
  Utils.mkCoreV1Api
    (fun _ _ _ => Utils.Returned {[ "critical"%string := "true"%string ]})
    (fun _ _ _ => Utils.Returned tt).

Definition half_past_noon : HPAScheduler.time := HPAScheduler.mkTime 12 30 0 0.
Definition five_to_six : HPAScheduler.time := HPAScheduler.mkTime 17 55 0 0.

Definition scheduler : HPAScheduler.t := HPAScheduler.__init__ Config.default.

(** A client whose patch goes through and whose metrics show two pods
    at 900 and 950 millicores. *)
Definition busy_cluster : HPAScheduler.CustomObjectsApi :=
  HPAScheduler.mkCustomObjectsApi
    (fun _ _ _ _ => Utils.Returned tt)
    (fun _ => Utils.Returned [[Some "900m"%string]; [Some "950m"%string]]).

Definition simulator : Simulador.t := Simulador.__init__ Config.default.


(** A batch of three movable pods sent in turn to the two Spot nodes of
    the constructor's table. *)
Definition batch : list Main.Pod := [app_1; app_2; app_4].

Definition both_spot_nodes : list (string * Q) :=
  [("aks-spot-1"%string, 1.5); ("aks-spot-2"%string, 1.5)].

Definition after_batch : Main.ClusterRebalancer :=
  (Main._execute_migrations 1000001 batch both_spot_nodes fresh).2.

(** Two readings of the high-load phase. *)
Definition high_load : list Simulador.reading :=
  [ Simulador.mkReading 90 92 1000 1001;
    Simulador.mkReading 75 80 1004 1005 ].

End Inputs.
(* ------------------------------------------------------------------ *)
(** * Comparison lemmas *)
(* ------------------------------------------------------------------ *)

Lemma Qltb_lt (x y : Q) : Qltb x y = true <-> x < y.
Proof.
  unfold Qltb. rewrite negb_true_iff, <- not_true_iff_false, Qle_bool_iff.
  split; [apply Qnot_le_lt | apply Qlt_not_le].
Qed.

Lemma Qltb_ge (x y : Q) : Qltb x y = false <-> y <= x.
Proof.
  unfold Qltb. rewrite negb_false_iff. apply Qle_bool_iff.
Qed.

(* ------------------------------------------------------------------ *)
(** * The metric window and the scale-up decision *)
(* ------------------------------------------------------------------ *)

Section ScalingFacts.
Import ScalingMetrics.
Variable pow : Z -> Q.

Lemma update_metrics_config now c m p r self :
  config (update_metrics pow now c m p r self) = config self.
Proof. reflexivity. Qed.

Lemma update_metrics_last_scale_time now c m p r self :
  last_scale_time (update_metrics pow now c m p r self) = last_scale_time self.
Proof. reflexivity. Qed.

Lemma should_scale_up_config now self :
  config (should_scale_up now self).2 = config self.
Proof.
  unfold should_scale_up.
  repeat (match goal with
          | |- context [if ?b then _ else _] => destruct b
          | |- context [match ?l with [] => _ | _ :: _ => _ end] => destruct l
          end; try reflexivity).
Qed.

(** Inside the cooldown the answer is no and nothing is written. *)
Lemma should_scale_up_cooldown now self :
  now - last_scale_time self < inject_Z (Config.MIN_CHANGE_PERIOD (config self)) ->
  should_scale_up now self = (false, self).
Proof.
  intros H. unfold should_scale_up.
  apply Qltb_lt in H. rewrite H. reflexivity.
Qed.

(** The timestamp after a call: the call time on a yes, the old one on
    a no. *)
Lemma should_scale_up_last_scale_time now self :
  last_scale_time (should_scale_up now self).2
  = if (should_scale_up now self).1 then now else last_scale_time self.
Proof.
  unfold should_scale_up.
  repeat (match goal with
          | |- context [if ?b then _ else _] => destruct b
          | |- context [match ?l with [] => _ | _ :: _ => _ end] => destruct l
          end; try reflexivity).
Qed.

(** A run made of calls whose decisions all fall inside the cooldown
    keeps the timestamp and answers no throughout. *)
Lemma run_in_cooldown calls : forall self t,
  last_scale_time self = t ->
  Forall (fun t' => t' - t < inject_Z (Config.MIN_CHANGE_PERIOD (config self)))
         (Spec.decision_times calls) ->
  Forall (fun d => d.2 = false) (Spec.run pow calls self).1
  /\ last_scale_time (Spec.run pow calls self).2 = t.
Proof.
  induction calls as [|c calls IH]; intros self t Ht Hall; simpl.
  - split; [constructor | exact Ht].
  - destruct c as [now cpu mem pods rt | now]; simpl in Hall.
    + apply IH; [rewrite update_metrics_last_scale_time; exact Ht|].
      rewrite update_metrics_config. exact Hall.
    + inversion Hall as [|? ? Hnow Hrest]; subst.
      rewrite should_scale_up_cooldown by exact Hnow.
      destruct (IH self (last_scale_time self) eq_refl Hrest) as [Hds Hl].
      destruct (Spec.run pow calls self) as [ds self']. simpl in *.
      split; [constructor; [reflexivity | exact Hds] | exact Hl].
Qed.

End ScalingFacts.




(** C6.  Once [should_scale_up] has answered yes at time [t], every
    later call of it at a time [t'] with
    [t' - t < MIN_CHANGE_PERIOD] answers no, whatever samples are
    ingested in between. *)
Theorem scale_up_starts_cooldown (pow : Z -> Q) (t : Q)
    (self self1 : ScalingMetrics.t) (calls : list Spec.call) :
  ScalingMetrics.should_scale_up t self = (true, self1) ->
  Forall (fun t' => t' - t < inject_Z (Config.MIN_CHANGE_PERIOD
                                         (ScalingMetrics.config self)))
         (Spec.decision_times calls) ->
  Forall (fun d => d.2 = false) (Spec.run pow calls self1).1.
Proof.
  intros Hup Hall.
  pose proof (should_scale_up_last_scale_time t self) as Hl.
  pose proof (should_scale_up_config t self) as Hc.
  rewrite Hup in Hl, Hc. simpl in Hl, Hc.
  apply (run_in_cooldown pow calls self1 t Hl).
  rewrite Hc. exact Hall.
Qed.

Lemma scale_up_starts_cooldown_witness :
  Forall (fun d => d.2 = false)
    (Spec.run Spec.pow_0_7
       [Spec.UpdateMetrics 1010 95 90 3 None; Spec.ShouldScaleUp 1010;
        Spec.ShouldScaleUp 1119]
       (ScalingMetrics.set_last_scale_time 1000 scale_up_starts_cooldown_state)).1.
Proof.
  apply (scale_up_starts_cooldown Spec.pow_0_7 1000 scale_up_starts_cooldown_state).
  - reflexivity.
  - repeat constructor.
Defined.

(** ** Scale decisions and the cooldown timestamp *)




(** ** [utils.safe_evict_pod] *)

(** C10.  Whatever the pod name, namespace and retry count, and whatever
    the configuration values and the cluster's answers,
    [utils.safe_evict_pod] raises [AttributeError] on [TEST_MODE], which
    [Config] does not define; no request has been sent by then and no
    value is returned. *)
Theorem utils_safe_evict_pod_raises (cfg : Config.t) (api : Utils.CoreV1Api)
    (pod_name namespace : string) (max_retries : Z) :
  Utils.safe_evict_pod cfg api pod_name namespace max_retries
  = (Raise (AttributeError "TEST_MODE"), []).
Proof.
  unfold Utils.safe_evict_pod.
  assert (H : Config.getattr cfg "TEST_MODE" = Raise (AttributeError "TEST_MODE"))
    by reflexivity.
  rewrite H. reflexivity.
Qed.

(* ------------------------------------------------------------------ *)
(** * The stable descending sort *)
(* ------------------------------------------------------------------ *)

Section SortedFacts.
Context {A : Type} (key : A -> Q).

Let desc (a b : A) : Prop := key b <= key a.

Lemma insert_desc_perm x l : Permutation (insert_desc key x l) (x :: l).
Proof.
  induction l as [|y l IH]; simpl; [reflexivity|].
  destruct (Qle_bool (key y) (key x)); [reflexivity|].
  rewrite IH. apply perm_swap.
Qed.

Lemma sorted_reverse_perm l : Permutation (sorted_reverse key l) l.
Proof.
  induction l as [|x l IH]; simpl; [reflexivity|].
  rewrite insert_desc_perm. apply perm_skip. exact IH.
Qed.

Lemma insert_desc_sorted x l :
  StronglySorted desc l -> StronglySorted desc (insert_desc key x l).
Proof.
  induction l as [|y l IH]; intros Hs; simpl.
  - constructor; constructor.
  - inversion Hs as [|? ? Hl Hy]; subst.
    destruct (Qle_bool (key y) (key x)) eqn:Hle.
    + apply Qle_bool_iff in Hle.
      constructor; [exact Hs|].
      constructor; [exact Hle|].
      eapply List.Forall_impl; [|exact Hy].
      intros z Hz. unfold desc in *. eapply Qle_trans; eassumption.
    + constructor; [apply IH; exact Hl|].
      eapply Permutation_Forall; [symmetry; apply insert_desc_perm|].
      constructor; [|exact Hy].
      unfold desc. apply Qlt_le_weak, Qnot_le_lt.
      intros H. apply Qle_bool_iff in H. congruence.
Qed.

Lemma sorted_reverse_sorted l : StronglySorted desc (sorted_reverse key l).
Proof.
  induction l as [|x l IH]; simpl; [constructor|].
  apply insert_desc_sorted. exact IH.
Qed.

(** Entries with one given key keep their relative order. *)
Lemma insert_desc_stable v x l :
  List.filter (fun a => Qeq_bool (key a) v) (insert_desc key x l)
  = List.filter (fun a => Qeq_bool (key a) v) (x :: l).
Proof.
  induction l as [|y l IH]; [reflexivity|].
  cbn [insert_desc].
  destruct (Qle_bool (key y) (key x)) eqn:Hle; [reflexivity|].
  cbn [List.filter] in *. rewrite IH.
  destruct (Qeq_bool (key x) v) eqn:Hx; [|reflexivity].
  destruct (Qeq_bool (key y) v) eqn:Hy; [|reflexivity].
  exfalso. apply Qeq_bool_iff in Hx, Hy.
  assert (Hxy : Qle_bool (key y) (key x) = true).
  { apply Qle_bool_iff. rewrite Hx, Hy. apply Qle_refl. }
  congruence.
Qed.

Lemma sorted_reverse_stable v l :
  List.filter (fun a => Qeq_bool (key a) v) (sorted_reverse key l)
  = List.filter (fun a => Qeq_bool (key a) v) l.
Proof.
  induction l as [|x l IH]; [reflexivity|].
  cbn [sorted_reverse fold_right]. rewrite insert_desc_stable.
  cbn [List.filter]. fold (sorted_reverse key l). rewrite IH. reflexivity.
Qed.

End SortedFacts.

(* ------------------------------------------------------------------ *)
(** * Node scoring *)
(* ------------------------------------------------------------------ *)






(* ------------------------------------------------------------------ *)
(** * Critical pods *)
(* ------------------------------------------------------------------ *)

Section CriticalFacts.
Import Main.

Lemma prioritize_sound now ps : forall l,
  prioritize now ps = Ok l ->
  Forall (fun pq => In pq.1 ps /\ Spec.is_critical pq.1 = false) l.
Proof.
  induction ps as [|pod rest IH]; intros l H; simpl in H.
  - injection H as <-. constructor.
  - destruct (bool_decide (labels pod !! "critical"%string = Some "true"%string))
      eqn:Hcrit.
    + eapply List.Forall_impl; [|apply IH; exact H].
      intros pq [Hin Hc]. split; [right; exact Hin | exact Hc].
    + destruct (_calculate_pod_priority now pod) as [score|]; [|discriminate H].
      simpl in H.
      destruct (prioritize now rest) as [tl|]; [|discriminate H].
      simpl in H. injection H as <-.
      constructor; [split; [left; reflexivity | exact Hcrit]|].
      eapply List.Forall_impl; [|apply IH; reflexivity].
      intros pq [Hin Hc]. split; [right; exact Hin | exact Hc].
Qed.

(** What [_filter_pods] returns is drawn from its input and holds no
    critical pod. *)
Lemma filter_pods_sound cap now ps out :
  _filter_pods cap now ps = Ok out ->
  Forall (fun p => In p ps /\ Spec.is_critical p = false) out.
Proof.
  unfold _filter_pods. destruct ps as [|p0 ps0].
  - intros H. injection H as <-. constructor.
  - set (ps := p0 :: ps0). intros H.
    destruct (prioritize now ps) as [l|] eqn:Hl; [|discriminate H].
    simpl in H. injection H as <-.
    apply prioritize_sound in Hl.
    apply List.Forall_forall. intros p Hin.
    apply in_map_iff in Hin as [[p' s] [<- Hin]].
    assert (Hin' : In (p', s) (sorted_reverse snd l)).
    { rewrite <- (firstn_skipn cap). apply in_or_app. left. exact Hin. }
    clear Hin. rename Hin' into Hin.
    apply (Permutation_in _ (sorted_reverse_perm snd l)) in Hin.
    rewrite List.Forall_forall in Hl. exact (Hl _ Hin).
Qed.

End CriticalFacts.

(** Unfolds the plumbing of the method monad. *)
Ltac msimpl :=
  cbv beta iota delta
    [Main.lift Main.read Main.modify mbind Main.M_bind mret Main.M_ret];
  cbn [fst snd].

Section ResidentFacts.
Import Main.

(** Names of the critical pods of a table. *)
Let critical_names (nodes : list (string * Node)) : list string :=
  map name (List.filter Spec.is_critical (concat (map snd (Spec.residents nodes)))).

Lemma residents_update nodes k f :
  (forall n, pods (f n) = pods n) ->
  Spec.residents (update nodes k f) = Spec.residents nodes.
Proof.
  intros Hf. unfold Spec.residents.
  induction nodes as [|[k' v] rest IH]; cbn [update map]; [reflexivity|].
  destruct (String.eqb k' k); cbn [map fst snd].
  - rewrite Hf. reflexivity.
  - rewrite IH. reflexivity.
Qed.

Lemma update_usage_residents node_name self :
  Spec.residents (simulated_nodes (_update_simulated_node_usage node_name self).2)
  = Spec.residents (simulated_nodes self).
Proof.
  unfold _update_simulated_node_usage.
  destruct (get (simulated_nodes self) node_name) as [node|]; [|reflexivity].
  destruct (usage_loop (pods node) 0.0 0.0) as [[cpu mem] [e|]]; simpl;
    apply residents_update; reflexivity.
Qed.

Lemma update_all_residents names : forall self,
  Spec.residents (simulated_nodes (update_all names self).2)
  = Spec.residents (simulated_nodes self).
Proof.
  induction names as [|n rest IH]; intros self; simpl; [reflexivity|].
  unfold mbind, M_bind.
  pose proof (update_usage_residents n self) as Hn.
  destruct (_update_simulated_node_usage n self) as [[[]|e] self']; simpl in *.
  - rewrite IH. exact Hn.
  - exact Hn.
Qed.

Lemma get_node_metrics_residents self :
  Spec.residents (simulated_nodes (get_node_metrics self).2)
  = Spec.residents (simulated_nodes self).
Proof.
  unfold get_node_metrics, mbind, M_bind, read. simpl.
  destruct (simulation_mode self); [|reflexivity].
  pose proof (update_all_residents (map fst (simulated_nodes self)) self) as H.
  destruct (update_all (map fst (simulated_nodes self)) self) as [[[]|e] self'];
    simpl in *; exact H.
Qed.

(** Filtering out a name borne by no critical pod keeps the critical
    pods. *)
Lemma filter_name_critical x ps :
  ~ In x (map name (List.filter Spec.is_critical ps)) ->
  List.filter Spec.is_critical
    (List.filter (fun p => negb (String.eqb (name p) x)) ps)
  = List.filter Spec.is_critical ps.
Proof.
  induction ps as [|p ps IH]; intros Hx; [reflexivity|].
  cbn [List.filter] in *.
  destruct (Spec.is_critical p) eqn:Hc.
  - cbn [map In] in Hx.
    destruct (String.eqb (name p) x) eqn:Hn.
    + apply String.eqb_eq in Hn. exfalso. apply Hx. left. exact Hn.
    + cbn [negb List.filter]. rewrite Hc, IH; [reflexivity|].
      intros H. apply Hx. right. exact H.
  - destruct (negb (String.eqb (name p) x)); cbn [List.filter];
      rewrite ?Hc; apply IH; exact Hx.
Qed.

Lemma critical_names_cons k v rest x :
  ~ In x (critical_names ((k, v) :: rest)) ->
  ~ In x (map name (List.filter Spec.is_critical (pods v)))
  /\ ~ In x (critical_names rest).
Proof.
  unfold critical_names. simpl. rewrite List.filter_app, map_app, in_app_iff.
  tauto.
Qed.

Lemma remove_pod_critical x nodes : forall original nodes',
  ~ In x (critical_names nodes) ->
  remove_pod x nodes = Some (original, nodes') ->
  Spec.critical_in (Spec.residents nodes')
  = Spec.critical_in (Spec.residents nodes).
Proof.
  induction nodes as [|[k v] rest IH]; intros original nodes' Hx H; simpl in H;
    [discriminate H|].
  apply critical_names_cons in Hx as [Hv Hrest].
  unfold Spec.critical_in, Spec.residents in *.
  destruct (Nat.ltb _ _).
  - injection H as <- <-. cbn [map fst snd pods set_pods].
    rewrite filter_name_critical by exact Hv. reflexivity.
  - destruct (remove_pod x rest) as [[o rest']|] eqn:Hr; [|discriminate H].
    injection H as <- <-. cbn [map fst snd].
    rewrite (IH o rest' Hrest eq_refl). reflexivity.
Qed.

Lemma append_pod_critical nodes k pod :
  Spec.is_critical pod = false ->
  Spec.critical_in (Spec.residents (update nodes k (append_pod pod)))
  = Spec.critical_in (Spec.residents nodes).
Proof.
  intros Hc. unfold Spec.critical_in, Spec.residents.
  induction nodes as [|[k' v] rest IH]; cbn [update map]; [reflexivity|].
  destruct (String.eqb k' k); cbn [map fst snd pods set_pods append_pod].
  - rewrite List.filter_app. cbn [List.filter]. rewrite Hc, app_nil_r.
    reflexivity.
  - rewrite IH. reflexivity.
Qed.

Lemma update_usage_critical node_name self :
  Spec.critical_residents (_update_simulated_node_usage node_name self).2
  = Spec.critical_residents self.
Proof.
  unfold Spec.critical_residents. rewrite update_usage_residents. reflexivity.
Qed.

(** The loop body leaves a critical pod where it is, whatever else the
    table holds. *)
Lemma migrate_pod_critical now target_nodes idx pod self :
  Spec.is_critical pod = true ->
  (migrate_pod now target_nodes idx pod self).2 = self.
Proof.
  intros Hc. unfold migrate_pod, mbind, M_bind, lift, safe_evict_pod.
  destruct (_calculate_pod_priority now pod); [|reflexivity].
  unfold Spec.is_critical in Hc. rewrite Hc. reflexivity.
Qed.

Lemma migrate_pod_keeps_critical now target_nodes idx pod self :
  (Spec.is_critical pod = false ->
   ~ In (name pod) (critical_names (simulated_nodes self))) ->
  Spec.critical_residents (migrate_pod now target_nodes idx pod self).2
  = Spec.critical_residents self.
Proof.
  intros Hx.
  destruct (Spec.is_critical pod) eqn:Hc.
  { rewrite migrate_pod_critical by exact Hc. reflexivity. }
  specialize (Hx eq_refl).
  unfold migrate_pod, mbind, M_bind, lift, safe_evict_pod, read, modify.
  destruct (_calculate_pod_priority now pod); [|reflexivity].
  unfold Spec.is_critical in Hc. rewrite Hc. cbn [negb].
  destruct (remove_pod (name pod) (simulated_nodes self))
    as [[original nodes']|] eqn:Hr; [|reflexivity].
  pose proof (remove_pod_critical _ _ _ _ Hx Hr) as Hrem.
  set (self1 := set_nodes nodes' self).
  assert (H1 : Spec.critical_residents self1 = Spec.critical_residents self)
    by exact Hrem.
  pose proof (update_usage_critical original self1) as H2.
  destruct (_update_simulated_node_usage original self1) as [[[]|e] self2];
    simpl in H2 |- *; [|congruence].
  destruct (get (simulated_nodes self2) _) as [target|]; [|simpl; congruence].
  set (self3 := set_nodes _ self2).
  assert (H3 : Spec.critical_residents self3 = Spec.critical_residents self2).
  { apply append_pod_critical. exact Hc. }
  rewrite update_usage_critical. congruence.
Qed.

Lemma critical_names_residents nodes nodes' :
  Spec.critical_in (Spec.residents nodes') = Spec.critical_in (Spec.residents nodes) ->
  critical_names nodes' = critical_names nodes.
Proof.
  assert (H : forall ns,
    critical_names ns
    = map name (concat (map snd (Spec.critical_in (Spec.residents ns))))).
  { intros ns. unfold critical_names. f_equal.
    induction ns as [|[k v] rest IH]; simpl; [reflexivity|].
    rewrite List.filter_app, IH. reflexivity. }
  intros Heq. rewrite !H, Heq. reflexivity.
Qed.

Lemma migrate_loop_keeps_critical now target_nodes ps : forall idx self,
  Forall (fun pod => Spec.is_critical pod = false ->
                     ~ In (name pod) (critical_names (simulated_nodes self))) ps ->
  Spec.critical_residents (migrate_loop now target_nodes idx ps self).2
  = Spec.critical_residents self.
Proof.
  induction ps as [|pod rest IH]; intros idx self Hall; simpl; [reflexivity|].
  inversion Hall as [|? ? Hpod Hrest]; subst.
  unfold mbind, M_bind.
  pose proof (migrate_pod_keeps_critical now target_nodes idx pod self Hpod) as H1.
  destruct (migrate_pod now target_nodes idx pod self) as [[[]|e] self1];
    simpl in H1 |- *; [|exact H1].
  rewrite IH; [exact H1|].
  rewrite (critical_names_residents _ _ H1). exact Hrest.
Qed.

Lemma execute_migrations_keeps_critical now ps target_nodes self :
  Forall (fun pod => Spec.is_critical pod = false ->
                     ~ In (name pod) (critical_names (simulated_nodes self))) ps ->
  Spec.critical_residents (_execute_migrations now ps target_nodes self).2
  = Spec.critical_residents self.
Proof.
  intros Hall. unfold _execute_migrations.
  destruct target_nodes as [|t ts]; [reflexivity|].
  unfold mbind, M_bind, read. simpl.
  destruct (simulation_mode self); [|reflexivity].
  apply migrate_loop_keeps_critical. exact Hall.
Qed.

Lemma NoDup_map_eq {A B} (f : A -> B) (l : list A) a b :
  NoDup (map f l) -> In a l -> In b l -> f a = f b -> a = b.
Proof.
  induction l as [|x l IH]; intros Hnd Ha Hb Hab; [destruct Ha|].
  cbn [map] in Hnd. apply NoDup_cons in Hnd as [Hx Hnd].
  rewrite list_elem_of_In in Hx.
  destruct Ha as [-> | Ha], Hb as [-> | Hb].
  - reflexivity.
  - exfalso. apply Hx. rewrite Hab. apply in_map. exact Hb.
  - exfalso. apply Hx. rewrite <- Hab. apply in_map. exact Ha.
  - apply IH; assumption.
Qed.

Lemma get_pods_in_table nodes k v p :
  get nodes k = Some v -> In p (pods v) ->
  In p (concat (map snd (Spec.residents nodes))).
Proof.
  induction nodes as [|[k' v'] rest IH]; intros Hget Hin; [discriminate Hget|].
  cbn [get] in Hget. cbn [Spec.residents map snd concat].
  apply in_app_iff. destruct (String.eqb k' k).
  - injection Hget as ->. left. exact Hin.
  - right. apply IH; assumption.
Qed.

(** With unique pod names, a pod that is not critical shares its name
    with no critical pod. *)
Lemma unique_names_no_clash nodes pod :
  NoDup (map name (concat (map snd (Spec.residents nodes)))) ->
  In pod (concat (map snd (Spec.residents nodes))) ->
  Spec.is_critical pod = false ->
  ~ In (name pod) (critical_names nodes).
Proof.
  intros Hnd Hin Hc Hclash. unfold critical_names in Hclash.
  apply in_map_iff in Hclash as [c [Hname Hcin]].
  apply filter_In in Hcin as [Hcin Hcc].
  assert (c = pod) by (eapply NoDup_map_eq; eassumption).
  subst c. congruence.
Qed.

Lemma rebalance_cluster_keeps_critical now self :
  Spec.unique_pod_names self ->
  Spec.critical_residents (rebalance_cluster now self).2
  = Spec.critical_residents self.
Proof.
  intros Hnd. unfold rebalance_cluster.
  destruct (Qltb _ _); [reflexivity|].
  unfold try_except, find_pods_for_rebalance. msimpl.
  pose proof (get_node_metrics_residents self) as Hres.
  destruct (get_node_metrics self) as [[node_metrics|e] s1]; msimpl;
    cbn [snd] in Hres;
    [|unfold Spec.critical_residents; rewrite Hres; reflexivity].
  assert (H1 : Spec.critical_residents s1 = Spec.critical_residents self)
    by (unfold Spec.critical_residents; rewrite Hres; reflexivity).
  destruct (log_node_state node_metrics) as [[]|e]; msimpl; [|exact H1].
  set (pods_to_move := if simulation_mode s1 then _ else _).
  destruct (_filter_pods (max_pods_per_cycle s1) now pods_to_move)
    as [filtered_pods|e] eqn:Hf; msimpl; [|exact H1].
  destruct (_select_target_nodes node_metrics) as [target_nodes|e]; msimpl;
    [|exact H1].
  set (migrations := match filtered_pods with [] => _ | _ :: _ => _ end).
  assert (H2 : Spec.critical_residents (migrations s1).2
               = Spec.critical_residents self).
  { rewrite <- H1. subst migrations.
    destruct filtered_pods as [|p0 ps0]; [reflexivity|].
    destruct target_nodes as [|t0 ts0]; [reflexivity|].
    apply execute_migrations_keeps_critical.
    apply filter_pods_sound in Hf.
    eapply List.Forall_impl; [|exact Hf].
    intros pod [Hin _] Hc.
    apply unique_names_no_clash; [rewrite Hres; exact Hnd| |exact Hc].
    subst pods_to_move. destruct (simulation_mode s1); [|destruct Hin].
    apply filter_In in Hin as [Hin _].
    destruct (get (simulated_nodes s1) "aks-regular-1") as [v|] eqn:Hget;
      [|destruct Hin].
    eapply get_pods_in_table; eassumption. }
  destruct (migrations s1) as [[[]|e] s2]; msimpl; cbn [snd] in H2;
    [|exact H2].
  set (s3 := set_last_rebalance_time now s2).
  pose proof (get_node_metrics_residents s3) as Hres3.
  assert (H3 : Spec.critical_residents (get_node_metrics s3).2
               = Spec.critical_residents self).
  { unfold Spec.critical_residents in *. rewrite Hres3. exact H2. }
  destruct (get_node_metrics s3) as [[node_metrics'|e] s4]; msimpl;
    cbn [snd] in H3; exact H3.
Qed.

End ResidentFacts.

(* ------------------------------------------------------------------ *)
(** * Pod names stay unique *)
(* ------------------------------------------------------------------ *)

Section UniqueNames.
Import Main.

Let names (nodes : list (string * Node)) : list string :=
  map name (concat (map snd (Spec.residents nodes))).

Let other_than (x : string) : string -> bool := fun n => negb (String.eqb n x).

Lemma names_cons k v rest :
  names ((k, v) :: rest) = map name (pods v) ++ names rest.
Proof. unfold names. cbn. rewrite map_app. reflexivity. Qed.

Lemma names_residents nodes nodes' :
  Spec.residents nodes' = Spec.residents nodes -> names nodes' = names nodes.
Proof. unfold names. intros ->. reflexivity. Qed.

Lemma filter_name_map x ps :
  map name (List.filter (fun p => negb (String.eqb (name p) x)) ps)
  = List.filter (other_than x) (map name ps).
Proof.
  induction ps as [|p ps IH]; [reflexivity|]. cbn [List.filter map].
  unfold other_than at 1.
  destruct (negb (String.eqb (name p) x)); cbn [map]; rewrite IH; reflexivity.
Qed.

Lemma filter_shrinks {A} (f : A -> bool) (l : list A) :
  (length (List.filter f l) < length l)%nat ->
  exists a, In a l /\ f a = false.
Proof.
  induction l as [|a l IH]; cbn [List.filter length]; [lia|].
  destruct (f a) eqn:Hfa.
  - cbn [length]. intros H. destruct IH as [b [Hb Hfb]]; [lia|].
    exists b. split; [right; exact Hb | exact Hfb].
  - intros _. exists a. split; [left; reflexivity | exact Hfa].
Qed.

Lemma filter_keeps {A} (f : A -> bool) (l : list A) :
  ~ (length (List.filter f l) < length l)%nat -> List.filter f l = l.
Proof.
  induction l as [|a l IH]; cbn [List.filter length]; [reflexivity|].
  pose proof (List.filter_length_le f l) as Hle.
  destruct (f a); cbn [length]; intros H.
  - rewrite IH; [reflexivity | lia].
  - lia.
Qed.

Lemma filter_other_absent x l :
  ~ In x l -> List.filter (other_than x) l = l.
Proof.
  induction l as [|n l IH]; intros Hx; [reflexivity|]. cbn [List.filter].
  unfold other_than at 1.
  destruct (String.eqb n x) eqn:Hn.
  - apply String.eqb_eq in Hn. exfalso. apply Hx. left. exact Hn.
  - cbn [negb]. rewrite IH; [reflexivity|]. intros H. apply Hx. right. exact H.
Qed.

Lemma filter_other_not_in x l : ~ In x (List.filter (other_than x) l).
Proof.
  intros H. apply filter_In in H as [_ H]. unfold other_than in H.
  rewrite String.eqb_refl in H. discriminate H.
Qed.

Lemma NoDup_list_filter {A} (f : A -> bool) (l : list A) :
  NoDup l -> NoDup (List.filter f l).
Proof.
  induction 1 as [|a l Ha Hl IH]; cbn [List.filter]; [constructor|].
  destruct (f a); [|exact IH].
  constructor; [|exact IH].
  rewrite list_elem_of_In, filter_In. rewrite list_elem_of_In in Ha. tauto.
Qed.

(** With unique names, removing a pod takes its name, and only its name,
    out of the table. *)
Lemma remove_pod_names x nodes : forall original nodes',
  NoDup (names nodes) ->
  remove_pod x nodes = Some (original, nodes') ->
  names nodes' = List.filter (other_than x) (names nodes).
Proof.
  induction nodes as [|[k v] rest IH]; intros original nodes' Hnd H;
    cbn [remove_pod] in H; [discriminate H|].
  rewrite names_cons in Hnd |- *. rewrite List.filter_app.
  apply NoDup_app in Hnd as (Hv & Hdisj & Hrest).
  destruct (Nat.ltb _ _) eqn:Hlt.
  - injection H as <- <-. rewrite names_cons. cbn [pods set_pods].
    rewrite filter_name_map. f_equal.
    symmetry. apply filter_other_absent.
    apply Nat.ltb_lt, filter_shrinks in Hlt as [p [Hp Hfp]].
    apply negb_false_iff, String.eqb_eq in Hfp.
    intros Hx. apply (Hdisj x); rewrite list_elem_of_In; [|exact Hx].
    rewrite <- Hfp. apply in_map. exact Hp.
  - destruct (remove_pod x rest) as [[o rest']|] eqn:Hr; [|discriminate H].
    injection H as <- <-. rewrite names_cons.
    rewrite (IH o rest' Hrest eq_refl). f_equal.
    apply Nat.ltb_ge in Hlt.
    rewrite <- filter_name_map, filter_keeps by lia. reflexivity.
Qed.

Lemma update_absent {V} (d : list (string * V)) k f :
  get d k = None -> update d k f = d.
Proof.
  induction d as [|[k' v] rest IH]; cbn [get update]; [reflexivity|].
  destruct (String.eqb k' k); [discriminate|]. intros H. rewrite IH by exact H.
  reflexivity.
Qed.

Lemma update_append_names nodes t pod v :
  get nodes t = Some v ->
  Permutation (names (update nodes t (append_pod pod))) (names nodes ++ [name pod]).
Proof.
  revert v. induction nodes as [|[k' v'] rest IH]; intros v Hget;
    cbn [get update] in *; [discriminate Hget|].
  destruct (String.eqb k' t).
  - rewrite !names_cons. cbn [pods set_pods append_pod]. rewrite map_app.
    cbn [map]. rewrite <- !app_assoc. apply Permutation_app_head.
    apply Permutation_app_comm.
  - rewrite !names_cons, (IH v Hget), app_assoc. reflexivity.
Qed.

(** Appending a pod under a name the rest of the batch does not use. *)
Lemma append_names_unique nodes t pod l :
  NoDup (names nodes ++ name pod :: l) ->
  NoDup (names (update nodes t (append_pod pod)) ++ l).
Proof.
  intros Hnd. destruct (get nodes t) as [v|] eqn:Hget.
  - rewrite (update_append_names nodes t pod v Hget), <- app_assoc. exact Hnd.
  - rewrite (update_absent nodes t _ Hget).
    apply NoDup_app in Hnd as (H1 & H2 & H3). apply NoDup_cons in H3 as [_ H3].
    apply NoDup_app. split; [exact H1|]. split; [|exact H3].
    intros y Hy Hl. apply (H2 y Hy). right. exact Hl.
Qed.

Lemma update_usage_names node_name self :
  names (simulated_nodes (_update_simulated_node_usage node_name self).2)
  = names (simulated_nodes self).
Proof. apply names_residents, update_usage_residents. Qed.

Lemma migrate_pod_unique now target_nodes idx pod self :
  NoDup (names (simulated_nodes self)) ->
  NoDup (names (simulated_nodes (migrate_pod now target_nodes idx pod self).2)).
Proof.
  intros Hnd. unfold migrate_pod. msimpl.
  destruct (_calculate_pod_priority now pod); msimpl; [|exact Hnd].
  destruct (negb _); msimpl; [exact Hnd|].
  destruct (remove_pod (name pod) (simulated_nodes self))
    as [[original nodes']|] eqn:Hr; msimpl; [|exact Hnd].
  pose proof (remove_pod_names _ _ _ _ Hnd Hr) as Hn.
  set (self1 := set_nodes nodes' self).
  pose proof (update_usage_names original self1) as H2.
  assert (H1 : NoDup (names (simulated_nodes self1) ++ [name pod])).
  { cbn [simulated_nodes self1 set_nodes]. rewrite Hn.
    apply NoDup_app. split; [apply NoDup_list_filter; exact Hnd|].
    split; [|apply NoDup_singleton].
    intros y Hy Hy'. apply list_elem_of_singleton in Hy'. subst y.
    rewrite list_elem_of_In in Hy. exact (filter_other_not_in _ _ Hy). }
  destruct (_update_simulated_node_usage original self1) as [[[]|e] self2];
    msimpl; cbn [snd] in H2; rewrite <- H2 in H1.
  - destruct (get (simulated_nodes self2) _) as [target|] eqn:Hget; msimpl.
    + rewrite update_usage_names. cbn [simulated_nodes set_nodes].
      rewrite <- (app_nil_r (names _)). apply append_names_unique. exact H1.
    + apply NoDup_app in H1 as [H1 _]. exact H1.
  - apply NoDup_app in H1 as [H1 _]. exact H1.
Qed.

Lemma migrate_loop_unique now target_nodes ps : forall idx self,
  NoDup (names (simulated_nodes self)) ->
  NoDup (names (simulated_nodes (migrate_loop now target_nodes idx ps self).2)).
Proof.
  induction ps as [|pod rest IH]; intros idx self Hnd; cbn [migrate_loop];
    msimpl; [exact Hnd|].
  pose proof (migrate_pod_unique now target_nodes idx pod self Hnd) as H1.
  destruct (migrate_pod now target_nodes idx pod self) as [[[]|e] self1];
    msimpl; cbn [snd] in H1; [apply IH|]; exact H1.
Qed.

Lemma get_node_metrics_names self :
  names (simulated_nodes (get_node_metrics self).2) = names (simulated_nodes self).
Proof. apply names_residents, get_node_metrics_residents. Qed.

Lemma rebalance_cluster_unique now self :
  Spec.unique_pod_names self ->
  Spec.unique_pod_names (rebalance_cluster now self).2.
Proof.
  unfold Spec.unique_pod_names, Spec.all_pods. fold (names (simulated_nodes self)).
  intros Hnd.
  change (NoDup (names (simulated_nodes (rebalance_cluster now self).2))).
  unfold rebalance_cluster.
  destruct (Qltb _ _); [exact Hnd|].
  unfold try_except, find_pods_for_rebalance. msimpl.
  pose proof (get_node_metrics_names self) as H1. rewrite <- H1 in Hnd.
  destruct (get_node_metrics self) as [[node_metrics|e] s1]; msimpl;
    cbn [snd] in Hnd; [|exact Hnd].
  destruct (log_node_state node_metrics) as [[]|e]; msimpl; [|exact Hnd].
  destruct (_filter_pods _ _ _) as [filtered_pods|e]; msimpl; [|exact Hnd].
  destruct (_select_target_nodes node_metrics) as [target_nodes|e]; msimpl;
    [|exact Hnd].
  set (migrations := match filtered_pods with [] => _ | _ :: _ => _ end).
  assert (H2 : NoDup (names (simulated_nodes (migrations s1).2))).
  { subst migrations.
    destruct filtered_pods as [|p0 ps0]; [exact Hnd|].
    destruct target_nodes as [|t0 ts0]; [exact Hnd|].
    unfold _execute_migrations. msimpl.
    destruct (simulation_mode s1); [|exact Hnd].
    apply migrate_loop_unique. exact Hnd. }
  destruct (migrations s1) as [[[]|e] s2]; msimpl; cbn [snd] in H2;
    [|exact H2].
  set (s3 := set_last_rebalance_time now s2).
  pose proof (get_node_metrics_names s3) as H3.
  destruct (get_node_metrics s3) as [[node_metrics'|e] s4]; msimpl;
    cbn [snd] in H3; rewrite H3; exact H2.
Qed.

(** *** Interruptions *)

Lemma del_names nodes k v :
  get nodes k = Some v ->
  Permutation (names nodes) (names (del nodes k) ++ map name (pods v)).
Proof.
  induction nodes as [|[k' v'] rest IH]; cbn [get del]; [discriminate|].
  destruct (String.eqb k' k).
  - intros H. injection H as ->. rewrite names_cons. apply Permutation_app_comm.
  - intros H. rewrite !names_cons, <- app_assoc.
    apply Permutation_app_head, IH, H.
Qed.

Lemma place_unique t pod self l :
  NoDup (names (simulated_nodes self) ++ name pod :: l) ->
  NoDup (names (simulated_nodes (place t pod self).2) ++ l).
Proof.
  intros Hnd. unfold place. msimpl.
  rewrite update_usage_names. cbn [simulated_nodes set_nodes].
  apply append_names_unique. exact Hnd.
Qed.

Lemma NoDup_drop_middle (l : list string) x k :
  NoDup (l ++ x :: k) -> NoDup (l ++ k).
Proof.
  intros H. apply NoDup_app in H as (H1 & H2 & H3).
  apply NoDup_cons in H3 as [_ H3].
  apply NoDup_app. split; [exact H1|]. split; [|exact H3].
  intros y Hy Hk. apply (H2 y Hy). right. exact Hk.
Qed.

Lemma reprogram_pod_unique remaining fallback r pod self l :
  NoDup (names (simulated_nodes self) ++ name pod :: l) ->
  NoDup (names (simulated_nodes (reprogram_pod remaining fallback r pod self).2) ++ l).
Proof.
  intros Hnd. pose proof (NoDup_drop_middle _ _ _ Hnd) as Hskip.
  unfold reprogram_pod. msimpl.
  destruct (eligible_spot_nodes _ _ _) as [[|n ns]|e]; msimpl;
    [|apply place_unique; exact Hnd|exact Hskip].
  destruct (get (simulated_nodes self) fallback) as [fb|]; msimpl;
    [|exact Hskip].
  destruct (negb (is_spot fb)); msimpl; [|exact Hskip].
  destruct (has_capacity fb pod) as [[|]|e]; msimpl;
    [apply place_unique; exact Hnd|exact Hskip|exact Hskip].
Qed.

Lemma reprogram_loop_unique remaining fallback rng ps : forall i self,
  NoDup (names (simulated_nodes self) ++ map name ps) ->
  NoDup (names (simulated_nodes
                  (reprogram_loop remaining fallback rng i ps self).2)).
Proof.
  induction ps as [|pod rest IH]; intros i self Hnd; cbn [reprogram_loop map] in *;
    msimpl.
  - rewrite app_nil_r in Hnd. exact Hnd.
  - pose proof (reprogram_pod_unique remaining fallback (rng i) pod self _ Hnd)
      as H1.
    destruct (reprogram_pod remaining fallback (rng i) pod self)
      as [[[]|e] self1]; msimpl; cbn [snd] in H1.
    + apply IH. exact H1.
    + apply NoDup_app in H1 as [H1 _]. exact H1.
Qed.

Lemma interruption_unique rng node_name self :
  Spec.unique_pod_names self ->
  Spec.unique_pod_names (simulate_spot_node_interruption rng node_name self).2.
Proof.
  unfold Spec.unique_pod_names, Spec.all_pods. fold (names (simulated_nodes self)).
  intros Hnd.
  change (NoDup (names (simulated_nodes
                          (simulate_spot_node_interruption rng node_name self).2))).
  unfold simulate_spot_node_interruption. msimpl.
  destruct (get (simulated_nodes self) node_name) as [node|] eqn:Hget; msimpl;
    [|exact Hnd].
  destruct (negb (is_spot node)); msimpl; [exact Hnd|].
  apply reprogram_loop_unique. cbn [simulated_nodes set_nodes].
  rewrite <- (del_names _ _ _ Hget). exact Hnd.
Qed.

Lemma init_unique t0 : Spec.unique_pod_names (Initial.init t0).
Proof.
  unfold Spec.unique_pod_names, Spec.all_pods. fold (names (simulated_nodes (Initial.init t0))).
  unfold Initial.init. rewrite update_usage_names.
  apply (bool_decide_unpack _). vm_compute. exact I.
Qed.

(** Every state the rebalancer goes through has unique pod names. *)
Lemma reachable_unique_pod_names self :
  Spec.reachable self -> Spec.unique_pod_names self.
Proof.
  induction 1 as [t0 | now self _ IH | rng node_name self _ IH].
  - apply init_unique.
  - apply rebalance_cluster_unique. exact IH.
  - apply interruption_unique. exact IH.
Qed.

End UniqueNames.

(** C4.  A pod whose ['critical'] label is ['true'] is never part of
    what [_filter_pods] returns, [safe_evict_pod] denies its eviction,
    the migration loop leaves the whole state untouched when it meets
    it, and a rebalance cycle keeps the critical pods of every node as
    they were.  The last part holds in every state whose pod names are
    unique, hence in every state the rebalancer goes through. *)
Theorem critical_pods_never_move (pod : Main.Pod) :
  Spec.is_critical pod = true ->
  (forall cap now ps out,
     Main._filter_pods cap now ps = Ok out -> ~ In pod out)
  /\ Main.safe_evict_pod (Main.name pod) (Main.namespace pod) (Main.labels pod)
     = false
  /\ (forall now target_nodes idx self,
        (Main.migrate_pod now target_nodes idx pod self).2 = self)
  /\ (forall now self,
        Spec.unique_pod_names self ->
        Spec.critical_residents (Main.rebalance_cluster now self).2
        = Spec.critical_residents self)
  /\ (forall now self,
        Spec.reachable self ->
        Spec.critical_residents (Main.rebalance_cluster now self).2
        = Spec.critical_residents self).
Proof.
  intros Hc.
  split.
  { intros cap now ps out Hf Hin.
    apply filter_pods_sound in Hf. rewrite List.Forall_forall in Hf.
    destruct (Hf pod Hin) as [_ Hn]. congruence. }
  split.
  { unfold Main.safe_evict_pod. unfold Spec.is_critical in Hc. rewrite Hc.
    reflexivity. }
  split.
  { intros now target_nodes idx self.
    apply migrate_pod_critical. exact Hc. }
  split.
  { intros now self Hnd. apply rebalance_cluster_keeps_critical. exact Hnd. }
  intros now self Hr.
  apply rebalance_cluster_keeps_critical, reachable_unique_pod_names, Hr.
Qed.

Lemma critical_pods_never_move_witness :
  Spec.is_critical app_3 = true
  /\ Spec.reachable fresh
  /\ Spec.unique_pod_names fresh
  /\ Spec.critical_residents (Main.rebalance_cluster 1000001 fresh).2
     = Spec.critical_residents fresh.
Proof.
  assert (Hc : Spec.is_critical app_3 = true) by (vm_compute; reflexivity).
  assert (Hr : Spec.reachable fresh) by apply Spec.reachable_init.
  split; [exact Hc|]. split; [exact Hr|].
  split; [apply reachable_unique_pod_names; exact Hr|].
  exact (proj2 (proj2 (proj2 (proj2 (critical_pods_never_move app_3 Hc))))
           1000001 fresh Hr).
Defined.

(** Why names must be unique: pods are taken off a node by name alone,
    so in a table where a critical pod shares its name with a movable
    one the cycle drops both from the node and re-creates only the
    movable one. *)
Remark name_clash_drops_critical_pod :
  Spec.critical_residents name_clash
  = [("aks-spot-1"%string, []); ("aks-regular-1"%string, [db_critical])]
  /\ Spec.critical_residents (Main.rebalance_cluster 100 name_clash).2
     = [("aks-spot-1"%string, []); ("aks-regular-1"%string, [])].
Proof.
  split; vm_compute; reflexivity.
Qed.

(* ------------------------------------------------------------------ *)
(** * Usage counters *)
(* ------------------------------------------------------------------ *)

Section UsageFacts.
Import Main.

Lemma get_update {V} (d : list (string * V)) k k' f :
  get (update d k f) k' = if String.eqb k k' then option_map f (get d k) else get d k'.
Proof.
  induction d as [|[k0 v] rest IH]; cbn [get update].
  - destruct (String.eqb k k'); reflexivity.
  - destruct (String.eqb k0 k) eqn:H0.
    + apply String.eqb_eq in H0. subst k0. cbn [get].
      destruct (String.eqb k k'); reflexivity.
    + cbn [get]. destruct (String.eqb k0 k') eqn:H1.
      * apply String.eqb_eq in H1. subst k0.
        destruct (String.eqb k k') eqn:H2; [|reflexivity].
        apply String.eqb_eq in H2. subst k'.
        rewrite String.eqb_refl in H0. discriminate H0.
      * exact IH.
Qed.



End UsageFacts.
(* ------------------------------------------------------------------ *)
(** * Pod priority and selection *)
(* ------------------------------------------------------------------ *)

Section PriorityFacts.
Import Main.

Lemma min_le_1 x : Py.min x 1.0 <= 1.
Proof.
  unfold Py.min. destruct (Qltb 1.0 x) eqn:H.
  - discriminate.
  - apply Qltb_ge in H. lra.
Qed.

Lemma min_nonneg x : 0 <= x -> 0 <= Py.min x 1.0.
Proof.
  intros Hx. unfold Py.min. destruct (Qltb 1.0 x); [discriminate | exact Hx].
Qed.

(** The size bonus lies between 0 and 1 for non-negative requests. *)
Lemma size_bonus_bounds c m :
  0 <= c -> 0 <= m ->
  0 <= ((1 - Py.min (c / 2.0) 1.0) + (1 - Py.min (m / 4.0) 1.0)) * 0.5 <= 1.
Proof.
  intros Hc Hm.
  assert (Hc2 : 0 <= c / 2.0) by (apply Qle_shift_div_l; lra).
  assert (Hm4 : 0 <= m / 4.0) by (apply Qle_shift_div_l; lra).
  pose proof (min_le_1 (c / 2.0)). pose proof (min_le_1 (m / 4.0)).
  pose proof (min_nonneg _ Hc2). pose proof (min_nonneg _ Hm4).
  split; lra.
Qed.

Lemma priority_parts now pod c m :
  Spec.declared_cpu pod = Ok c -> Spec.declared_memory pod = Ok m ->
  exists c',
    c' == c
    /\ _calculate_pod_priority now pod
       = Ok ((let priority := 0 in
              let priority :=
                if bool_decide (default "false"%string
                                  (labels pod !! "critical"%string) = "false"%string)
                then priority + 5 else priority in
              if Qltb 3600 (now - creation_timestamp pod)
              then priority + 1 else priority)
             + ((1 - Py.min (c' / 2.0) 1.0) + (1 - Py.min (m / 4.0) 1.0)) * 0.5).
Proof.
  unfold Spec.declared_cpu, Spec.declared_memory, _calculate_pod_priority.
  destruct (float (replace_m (requests_cpu pod))) as [q|e]; cbn; [|discriminate].
  intros Hc Hm. injection Hc as <-. rewrite Hm. cbn.
  eexists. split; [|reflexivity].
  destruct (contains_m (requests_cpu pod)); [field | reflexivity].
Qed.

(** X2.  For a pod with non-negative requests the priority lies between
    0 and 7.  It is at least 5 when the ['critical'] label is absent or
    ['false'], and at most 2 otherwise, so such a pod always ranks above
    a pod labelled otherwise, whatever their ages and sizes. *)
Theorem pod_priority_bounds (now : Q) (pod : Main.Pod) (c m : Q) :
  Spec.declared_cpu pod = Ok c -> Spec.declared_memory pod = Ok m ->
  0 <= c -> 0 <= m ->
  exists p,
    _calculate_pod_priority now pod = Ok p
    /\ 0 <= p <= 7
    /\ (default "false"%string (labels pod !! "critical"%string) = "false"%string ->
        5 <= p)
    /\ (default "false"%string (labels pod !! "critical"%string) <> "false"%string ->
        p <= 2).
Proof.
  intros Hc Hm Hc0 Hm0.
  destruct (priority_parts now pod c m Hc Hm) as (c' & Hc' & ->).
  eexists. split; [reflexivity|].
  assert (Hc0' : 0 <= c') by (rewrite Hc'; exact Hc0).
  pose proof (size_bonus_bounds c' m Hc0' Hm0) as [Hlo Hhi].
  cbv zeta.
  destruct (bool_decide _) eqn:Hlab;
    [apply bool_decide_eq_true in Hlab | apply bool_decide_eq_false in Hlab];
    destruct (Qltb 3600 _);
    (split; [split; lra|]); split; intros H; try contradiction; lra.
Qed.

(** The ranked list behind [_filter_pods]: the pods of the input that
    are not critical, each with its priority, highest first. *)
Lemma prioritize_complete now ps : forall l,
  prioritize now ps = Ok l ->
  map fst l = List.filter (fun p => negb (Spec.is_critical p)) ps
  /\ Forall (fun pq => _calculate_pod_priority now pq.1 = Ok pq.2) l.
Proof.
  induction ps as [|pod rest IH]; intros l H; cbn [prioritize] in H.
  - injection H as <-. split; [reflexivity | constructor].
  - cbn [List.filter]. unfold Spec.is_critical at 1.
    destruct (bool_decide (labels pod !! "critical"%string = Some "true"%string)).
    + cbn [negb]. apply IH. exact H.
    + destruct (_calculate_pod_priority now pod) as [score|] eqn:Hs;
        [|discriminate H].
      cbn in H. destruct (prioritize now rest) as [tl|]; [|discriminate H].
      cbn in H. injection H as <-.
      destruct (IH tl eq_refl) as [Hm Hf].
      cbn [negb map fst]. rewrite Hm. split; [reflexivity|].
      constructor; [exact Hs | exact Hf].
Qed.

Lemma prioritize_total now ps :
  Forall (fun p => Spec.is_critical p = false -> Table.pod_parses p = true) ps ->
  exists l, prioritize now ps = Ok l.
Proof.
  induction ps as [|pod rest IH]; intros H; cbn [prioritize].
  - eexists; reflexivity.
  - inversion H as [|? ? Hp Hrest]; subst.
    destruct (IH Hrest) as [tl Htl]. unfold Spec.is_critical in Hp.
    destruct (bool_decide (labels pod !! "critical"%string = Some "true"%string)).
    + exists tl. exact Htl.
    + specialize (Hp eq_refl). unfold Table.pod_parses in Hp.
      apply andb_prop in Hp as [Hc Hm].
      unfold _calculate_pod_priority.
      destruct (float (replace_m (requests_cpu pod))); [|discriminate Hc].
      destruct (float (replace_Gi (requests_memory pod))); [|discriminate Hm].
      cbn. rewrite Htl. cbn. eexists; reflexivity.
Qed.

(** X3.  [_filter_pods] returns the first [max_pods_per_cycle] entries
    of a ranking of the pods of its input that are not critical: the
    ranking holds each of them once, lists them by descending priority,
    and keeps the input order among equal priorities.  So the result
    never has more than [max_pods_per_cycle] pods, and it returns
    normally whenever the requests of the non-critical pods are
    numbers. *)
Theorem filter_pods_takes_top_priorities (cap : nat) (now : Q)
    (ps : list Main.Pod) :
  (forall out,
     _filter_pods cap now ps = Ok out ->
     exists ranked : list (Pod * Q),
       out = map fst (firstn cap ranked)
       /\ Permutation (map fst ranked)
            (List.filter (fun p => negb (Spec.is_critical p)) ps)
       /\ Forall (fun pq => _calculate_pod_priority now pq.1 = Ok pq.2) ranked
       /\ StronglySorted (fun a b => b.2 <= a.2) ranked
       /\ (forall v, map fst (List.filter (fun a => Qeq_bool a.2 v) ranked)
                     = List.filter
                         (fun p => match _calculate_pod_priority now p with
                                   | Ok s => Qeq_bool s v
                                   | Raise _ => false
                                   end)
                         (List.filter (fun p => negb (Spec.is_critical p)) ps))
       /\ (length out <= cap)%nat)
  /\ (Forall (fun p => Spec.is_critical p = false -> Table.pod_parses p = true) ps ->
      exists out, _filter_pods cap now ps = Ok out).
Proof.
  split.
  - intros out H.
    assert (Hp : exists l, prioritize now ps = Ok l
                           /\ out = map fst (firstn cap (sorted_reverse snd l))).
    { unfold _filter_pods in H. destruct ps as [|p0 ps0].
      - injection H as <-. exists []. split; [reflexivity|].
        destruct cap; reflexivity.
      - destruct (prioritize now (p0 :: ps0)) as [l|]; [|discriminate H].
        cbn in H. injection H as <-. exists l. split; reflexivity. }
    destruct Hp as (l & Hl & ->).
    destruct (prioritize_complete now ps l Hl) as [Hmap Hall].
    exists (sorted_reverse snd l).
    split; [reflexivity|].
    split; [rewrite <- Hmap; apply Permutation_map, sorted_reverse_perm|].
    split.
    { eapply Permutation_Forall; [symmetry; apply sorted_reverse_perm|].
      exact Hall. }
    split; [apply (sorted_reverse_sorted snd)|].
    split.
    { intros v. rewrite (sorted_reverse_stable snd), <- Hmap.
      clear H Hl Hmap. induction Hall as [|[p s] tl Hs _ IH]; [reflexivity|].
      cbn [List.filter map fst snd] in *. rewrite Hs.
      destruct (Qeq_bool s v); cbn [map fst]; rewrite IH; reflexivity. }
    rewrite length_map, length_firstn. lia.
  - intros Hwf. unfold _filter_pods. destruct ps as [|p0 ps0].
    + eexists; reflexivity.
    + destruct (prioritize_total now (p0 :: ps0) Hwf) as [l ->].
      cbn. eexists; reflexivity.
Qed.

End PriorityFacts.

(* ------------------------------------------------------------------ *)
(** * Migrations *)
(* ------------------------------------------------------------------ *)

Section MigrationFacts.
Import Main.

Let pods_of (nodes : list (string * Node)) : list Pod :=
  concat (map snd (Spec.residents nodes)).

Let names_of (nodes : list (string * Node)) : list string :=
  map name (pods_of nodes).

Let not_named (x : string) : Pod -> bool :=
  fun p => negb (String.eqb (name p) x).

Lemma pods_of_cons k v rest : pods_of ((k, v) :: rest) = pods v ++ pods_of rest.
Proof. reflexivity. Qed.

Lemma keeps_refl x n : Table.keeps x n n.
Proof. split; [reflexivity | auto]. Qed.

Lemma keeps_trans x n1 n2 n3 :
  Table.keeps x n1 n2 -> Table.keeps x n2 n3 -> Table.keeps x n1 n3.
Proof.
  intros [Hi1 Hp1] [Hi2 Hp2]. split; [congruence|].
  intros q Hq Hin. apply Hp2, Hp1; assumption.
Qed.

Lemma table_keeps_refl x nodes : Table.table_keeps x nodes nodes.
Proof.
  induction nodes as [|e rest IH]; constructor;
    [split; [reflexivity | apply keeps_refl] | exact IH].
Qed.

Lemma table_keeps_trans x n1 : forall n2 n3,
  Table.table_keeps x n1 n2 -> Table.table_keeps x n2 n3 ->
  Table.table_keeps x n1 n3.
Proof.
  induction n1 as [|e1 r1 IH]; intros n2 n3 H12 H23.
  - inversion H12; subst. inversion H23; subst. constructor.
  - inversion H12 as [|? e2 ? r2 [Hk1 Hn1] Hr1]; subst.
    inversion H23 as [|? e3 ? r3 [Hk2 Hn2] Hr2]; subst.
    constructor.
    + split; [congruence | eapply keeps_trans; eassumption].
    + eapply IH; eassumption.
Qed.

Lemma table_keeps_update x nodes k f :
  (forall n, Table.keeps x n (f n)) ->
  Table.table_keeps x nodes (update nodes k f).
Proof.
  intros Hf. induction nodes as [|[k' v] rest IH]; cbn [update]; [constructor|].
  destruct (String.eqb k' k); constructor.
  - split; [reflexivity | apply Hf].
  - apply table_keeps_refl.
  - split; [reflexivity | apply keeps_refl].
  - exact IH.
Qed.

Lemma table_keeps_remove x nodes : forall original nodes',
  remove_pod x nodes = Some (original, nodes') ->
  Table.table_keeps x nodes nodes'.
Proof.
  induction nodes as [|[k v] rest IH]; intros original nodes' H;
    cbn [remove_pod] in H; [discriminate H|].
  destruct (Nat.ltb _ _).
  - injection H as <- <-. constructor; [|apply table_keeps_refl].
    split; [reflexivity|]. split; [reflexivity|].
    intros q Hq Hin. cbn [pods set_pods snd]. apply filter_In.
    split; [exact Hin|]. apply negb_true_iff, String.eqb_neq. exact Hq.
  - destruct (remove_pod x rest) as [[o rest']|]; [|discriminate H].
    injection H as <- <-. constructor; [|eapply IH; reflexivity].
    split; [reflexivity | apply keeps_refl].
Qed.

Lemma table_keeps_usage x node_name self :
  Table.table_keeps x (simulated_nodes self)
    (simulated_nodes (_update_simulated_node_usage node_name self).2).
Proof.
  unfold _update_simulated_node_usage.
  destruct (get (simulated_nodes self) node_name) as [node|];
    [|apply table_keeps_refl].
  destruct (usage_loop (pods node) 0.0 0.0) as [[cpu mem] [e|]];
    cbn [snd simulated_nodes set_nodes];
    apply table_keeps_update; intros n; split; (reflexivity || auto).
Qed.

Lemma keeps_append x pod n : Table.keeps x n (append_pod pod n).
Proof.
  split; [reflexivity|]. intros q _ Hin. cbn [pods append_pod set_pods].
  apply in_or_app. left. exact Hin.
Qed.

(** Whatever its outcome, the loop body for a pod named [x] keeps the
    node names, the identity of every node and all pods not named
    [x]. *)
Lemma migrate_pod_keeps now target_nodes idx pod self :
  Table.table_keeps (name pod) (simulated_nodes self)
    (simulated_nodes (migrate_pod now target_nodes idx pod self).2)
  /\ Table.settings (migrate_pod now target_nodes idx pod self).2
     = Table.settings self.
Proof.
  unfold migrate_pod. msimpl.
  destruct (_calculate_pod_priority now pod); msimpl;
    [|split; [apply table_keeps_refl | reflexivity]].
  destruct (negb _); msimpl; [split; [apply table_keeps_refl | reflexivity]|].
  destruct (remove_pod (name pod) (simulated_nodes self))
    as [[original nodes']|] eqn:Hr; msimpl;
    [|split; [apply table_keeps_refl | reflexivity]].
  pose proof (table_keeps_remove _ _ _ _ Hr) as H1.
  set (self1 := set_nodes nodes' self).
  pose proof (table_keeps_usage (name pod) original self1) as H2.
  assert (Hs2 : Table.settings (_update_simulated_node_usage original self1).2
                = Table.settings self).
  { unfold _update_simulated_node_usage.
    destruct (get (simulated_nodes self1) original); [|reflexivity].
    destruct (usage_loop _ _ _) as [[? ?] [?|]]; reflexivity. }
  destruct (_update_simulated_node_usage original self1) as [[[]|e] self2];
    msimpl; cbn [snd] in H2, Hs2;
    [|split; [eapply table_keeps_trans; eassumption | exact Hs2]].
  destruct (get (simulated_nodes self2) _) as [target|]; msimpl;
    [|split; [eapply table_keeps_trans; eassumption | exact Hs2]].
  set (self3 := set_nodes _ self2).
  pose proof (table_keeps_usage (name pod) (nth (idx mod length target_nodes) target_nodes (""%string, 0)).1 self3) as H4.
  split.
  - eapply table_keeps_trans; [eapply table_keeps_trans; [exact H1 | exact H2]|].
    eapply table_keeps_trans; [|exact H4].
    apply table_keeps_update. intros n. apply keeps_append.
  - unfold _update_simulated_node_usage.
    destruct (get (simulated_nodes self3) _); [|exact Hs2].
    destruct (usage_loop _ _ _) as [[? ?] [?|]]; exact Hs2.
Qed.

Lemma table_keeps_get x nodes nodes' t :
  Table.table_keeps x nodes nodes' ->
  match get nodes t with
  | Some n => exists n', get nodes' t = Some n' /\ Table.keeps x n n'
  | None => get nodes' t = None
  end.
Proof.
  induction 1 as [|[k v] [k' v'] r r' [Hk Hn] _ IH]; cbn [get]; [reflexivity|].
  cbn [fst snd] in Hk, Hn. subst k'.
  destruct (String.eqb k t); [|exact IH].
  exists v'. split; [reflexivity | exact Hn].
Qed.

Lemma residents_get nodes nodes' t :
  Spec.residents nodes' = Spec.residents nodes ->
  match get nodes t with
  | Some n => exists n', get nodes' t = Some n' /\ pods n' = pods n
  | None => get nodes' t = None
  end.
Proof.
  revert nodes'. induction nodes as [|[k v] r IH]; intros [|[k' v'] r'] H;
    cbn [Spec.residents map] in H; try discriminate H; cbn [get];
    [reflexivity|].
  cbn [fst snd] in H. injection H as -> Hp Hr.
  destruct (String.eqb k t); [|apply IH; exact Hr].
  exists v'. split; [reflexivity | exact Hp].
Qed.

(** In a list with unique names, a pod is the only one of its name. *)
Lemma perm_pick (l : list Pod) pod :
  NoDup (map name l) -> In pod l ->
  Permutation l (pod :: List.filter (not_named (name pod)) l).
Proof.
  induction l as [|p l IH]; intros Hnd Hin; [destruct Hin|].
  cbn [map] in Hnd. apply NoDup_cons in Hnd as [Hp Hnd].
  rewrite list_elem_of_In in Hp. cbn [List.filter]. unfold not_named at 1.
  destruct Hin as [-> | Hin].
  - rewrite String.eqb_refl. cbn [negb]. apply perm_skip.
    rewrite List.forallb_filter_id; [reflexivity|].
    apply forallb_forall. intros q Hq. apply negb_true_iff, String.eqb_neq.
    intros Heq. apply Hp. rewrite <- Heq. apply in_map. exact Hq.
  - destruct (String.eqb (name p) (name pod)) eqn:Hn.
    + apply String.eqb_eq in Hn. exfalso. apply Hp. rewrite Hn.
      apply in_map. exact Hin.
    + cbn [negb]. rewrite perm_swap. apply perm_skip. apply IH; assumption.
Qed.

Lemma remove_pod_pods x nodes : forall original nodes',
  NoDup (names_of nodes) ->
  remove_pod x nodes = Some (original, nodes') ->
  pods_of nodes' = List.filter (not_named x) (pods_of nodes).
Proof.
  induction nodes as [|[k v] rest IH]; intros original nodes' Hnd H;
    cbn [remove_pod] in H; [discriminate H|].
  unfold names_of in Hnd. rewrite pods_of_cons, map_app in Hnd.
  rewrite pods_of_cons, List.filter_app.
  apply NoDup_app in Hnd as (Hv & Hdisj & Hrest).
  destruct (Nat.ltb _ _) eqn:Hlt.
  - injection H as <- <-. rewrite pods_of_cons. cbn [pods set_pods snd]. f_equal.
    symmetry. apply List.forallb_filter_id, forallb_forall. intros q Hq.
    apply negb_true_iff, String.eqb_neq. intros Heq.
    apply Nat.ltb_lt, filter_shrinks in Hlt as [p [Hp Hfp]].
    apply negb_false_iff, String.eqb_eq in Hfp.
    apply (Hdisj x); rewrite list_elem_of_In.
    + rewrite <- Hfp. apply in_map. exact Hp.
    + rewrite <- Heq. apply in_map. exact Hq.
  - destruct (remove_pod x rest) as [[o rest']|] eqn:Hr; [|discriminate H].
    injection H as <- <-. rewrite pods_of_cons.
    rewrite (IH o rest' Hrest eq_refl). f_equal.
    apply Nat.ltb_ge in Hlt. unfold not_named.
    rewrite filter_keeps by lia. reflexivity.
Qed.

Lemma remove_pod_found x nodes :
  In x (names_of nodes) -> exists original nodes',
    remove_pod x nodes = Some (original, nodes').
Proof.
  induction nodes as [|[k v] rest IH]; intros Hin; [destruct Hin|].
  unfold names_of in Hin. rewrite pods_of_cons, map_app in Hin.
  cbn [remove_pod]. destruct (Nat.ltb _ _) eqn:Hlt; [eexists; eexists; reflexivity|].
  apply in_app_iff in Hin as [Hin | Hin].
  - exfalso. apply Nat.ltb_ge in Hlt.
    apply in_map_iff in Hin as [p [Hname Hp]].
    assert (Hf : In p (List.filter (fun p => negb (String.eqb (name p) x)) (pods v))).
    { rewrite filter_keeps by lia. exact Hp. }
    apply filter_In in Hf as [_ Hf]. rewrite Hname, String.eqb_refl in Hf.
    discriminate Hf.
  - destruct (IH Hin) as (o & rest' & ->). eexists; eexists; reflexivity.
Qed.

Lemma remove_pod_absent x nodes :
  ~ In x (names_of nodes) -> remove_pod x nodes = None.
Proof.
  induction nodes as [|[k v] rest IH]; intros Hx; [reflexivity|].
  unfold names_of in Hx. rewrite pods_of_cons, map_app, in_app_iff in Hx.
  cbn [remove_pod]. destruct (Nat.ltb _ _) eqn:Hlt.
  - exfalso. apply Nat.ltb_lt, filter_shrinks in Hlt as [p [Hp Hfp]].
    apply negb_false_iff, String.eqb_eq in Hfp. apply Hx. left.
    rewrite <- Hfp. apply in_map. exact Hp.
  - rewrite IH; [reflexivity|]. tauto.
Qed.

Lemma append_pods nodes t pod v :
  get nodes t = Some v ->
  Permutation (pods_of (update nodes t (append_pod pod))) (pods_of nodes ++ [pod]).
Proof.
  revert v. induction nodes as [|[k' v'] rest IH]; intros v Hget;
    cbn [get update] in *; [discriminate Hget|].
  destruct (String.eqb k' t).
  - rewrite !pods_of_cons. cbn [pods set_pods append_pod snd].
    rewrite <- !app_assoc. apply Permutation_app_head, Permutation_app_comm.
  - rewrite !pods_of_cons, (IH v Hget), app_assoc. reflexivity.
Qed.

Lemma pods_of_residents nodes nodes' :
  Spec.residents nodes' = Spec.residents nodes -> pods_of nodes' = pods_of nodes.
Proof. unfold pods_of. intros ->. reflexivity. Qed.

(** A successful iteration on a movable pod of the table: the pod now
    sits, last, on the target of its turn, and the table holds the same
    pods as before. *)
Lemma migrate_pod_moves now target_nodes idx pod self self' :
  NoDup (names_of (simulated_nodes self)) ->
  In pod (pods_of (simulated_nodes self)) ->
  Spec.is_critical pod = false ->
  get (simulated_nodes self)
      (nth (idx mod length target_nodes) target_nodes (""%string, 0)).1 <> None ->
  migrate_pod now target_nodes idx pod self = (Ok tt, self') ->
  Permutation (pods_of (simulated_nodes self')) (pods_of (simulated_nodes self))
  /\ Table.resides pod
       (nth (idx mod length target_nodes) target_nodes (""%string, 0)).1 self'.
Proof.
  intros Hnd Hin Hc Ht. set (t := (nth _ target_nodes _).1) in *.
  pose proof (migrate_pod_keeps now target_nodes idx pod self) as [Hk _].
  unfold migrate_pod. fold t. msimpl.
  destruct (_calculate_pod_priority now pod); msimpl; [|discriminate].
  unfold safe_evict_pod. unfold Spec.is_critical in Hc. rewrite Hc. cbn [negb].
  destruct (remove_pod_found (name pod) (simulated_nodes self))
    as (original & nodes1 & Hr); [apply in_map; exact Hin|].
  rewrite Hr. msimpl.
  pose proof (remove_pod_pods _ _ _ _ Hnd Hr) as Hp1.
  pose proof (table_keeps_remove _ _ _ _ Hr) as Hk1.
  set (self1 := set_nodes nodes1 self).
  pose proof (update_usage_residents original self1) as Hres2.
  destruct (_update_simulated_node_usage original self1) as [[[]|e] self2];
    msimpl; [|discriminate].
  cbn [snd simulated_nodes self1 set_nodes] in Hres2.
  assert (Hget2 : exists target, get (simulated_nodes self2) t = Some target).
  { pose proof (table_keeps_get (name pod) _ _ t Hk1) as H1.
    pose proof (residents_get nodes1 (simulated_nodes self2) t Hres2) as H2.
    destruct (get (simulated_nodes self) t); [|contradiction].
    destruct H1 as (n1 & Hg1 & _). rewrite Hg1 in H2.
    destruct H2 as (n2 & Hg2 & _). exists n2. exact Hg2. }
  destruct Hget2 as [target Hget2]. rewrite Hget2. msimpl.
  set (self3 := set_nodes _ self2).
  pose proof (update_usage_residents t self3) as Hres4.
  destruct (_update_simulated_node_usage t self3) as [[[]|e] self4]; [|discriminate].
  intros H. injection H as <-. cbn [snd] in Hres4.
  split.
  - rewrite (pods_of_residents _ _ Hres4). cbn [simulated_nodes self3 set_nodes].
    rewrite (append_pods _ _ _ _ Hget2), (pods_of_residents _ _ Hres2), Hp1.
    rewrite (perm_pick _ pod Hnd Hin) at 2.
    rewrite <- Permutation_cons_append. reflexivity.
  - pose proof (residents_get (simulated_nodes self3) (simulated_nodes self4) t Hres4)
      as H4.
    cbn [simulated_nodes self3 set_nodes] in H4.
    rewrite get_update, String.eqb_refl, Hget2 in H4. cbn [option_map] in H4.
    destruct H4 as (n4 & Hg4 & Hp4). exists n4. split; [exact Hg4|].
    rewrite Hp4. cbn [pods append_pod set_pods]. apply in_or_app. right. left.
    reflexivity.
Qed.

Lemma table_keeps_keys x nodes nodes' :
  Table.table_keeps x nodes nodes' -> map fst nodes' = map fst nodes.
Proof.
  induction 1 as [|e e' r r' [Hk _] _ IH]; [reflexivity|].
  cbn [map]. rewrite Hk, IH. reflexivity.
Qed.

Lemma migrate_loop_keys now target_nodes ps : forall idx self,
  map fst (simulated_nodes (migrate_loop now target_nodes idx ps self).2)
  = map fst (simulated_nodes self).
Proof.
  induction ps as [|pod rest IH]; intros idx self; cbn [migrate_loop]; msimpl;
    [reflexivity|].
  pose proof (migrate_pod_keeps now target_nodes idx pod self) as [Hk _].
  apply table_keeps_keys in Hk.
  destruct (migrate_pod now target_nodes idx pod self) as [[[]|e] self1];
    msimpl; cbn [snd] in Hk; [rewrite IH|]; exact Hk.
Qed.

Lemma execute_migrations_keys now ps target_nodes self :
  map fst (simulated_nodes (_execute_migrations now ps target_nodes self).2)
  = map fst (simulated_nodes self).
Proof.
  unfold _execute_migrations. destruct target_nodes; [reflexivity|]. msimpl.
  destruct (simulation_mode self); [apply migrate_loop_keys | reflexivity].
Qed.

Lemma resides_kept x pod t self self' :
  Table.table_keeps x (simulated_nodes self) (simulated_nodes self') ->
  name pod <> x -> Table.resides pod t self -> Table.resides pod t self'.
Proof.
  intros Hk Hx (n & Hg & Hin).
  pose proof (table_keeps_get x _ _ t Hk) as H. rewrite Hg in H.
  destruct H as (n' & Hg' & _ & Hp). exists n'. split; [exact Hg' | auto].
Qed.

Lemma targets_kept x nodes nodes' (target_nodes : list (string * Q)) :
  Table.table_keeps x nodes nodes' ->
  Forall (fun t => get nodes t.1 <> None) target_nodes ->
  Forall (fun t => get nodes' t.1 <> None) target_nodes.
Proof.
  intros Hk. apply List.Forall_impl. intros t Ht.
  pose proof (table_keeps_get x _ _ t.1 Hk) as H.
  destruct (get nodes t.1); [|contradiction].
  destruct H as (n' & -> & _). discriminate.
Qed.

Lemma turn_target (target_nodes : list (string * Q)) idx
    (nodes : list (string * Node)) :
  target_nodes <> [] ->
  Forall (fun t => get nodes t.1 <> None) target_nodes ->
  get nodes (nth (idx mod length target_nodes) target_nodes (""%string, 0)).1
  <> None.
Proof.
  intros Hne Hall. rewrite List.Forall_forall in Hall. apply Hall, nth_In.
  apply Nat.mod_upper_bound. destruct target_nodes; [contradiction | discriminate].
Qed.

Lemma migrate_loop_conserves now target_nodes ps : forall idx self self',
  target_nodes <> [] ->
  NoDup (names_of (simulated_nodes self)) ->
  Forall (fun pod => In pod (pods_of (simulated_nodes self))) ps ->
  Forall (fun t => get (simulated_nodes self) t.1 <> None) target_nodes ->
  migrate_loop now target_nodes idx ps self = (Ok tt, self') ->
  Permutation (pods_of (simulated_nodes self')) (pods_of (simulated_nodes self)).
Proof.
  induction ps as [|pod rest IH]; intros idx self self' Hne Hnd Hin Ht;
    cbn [migrate_loop]; msimpl.
  - intros H. injection H as <-. reflexivity.
  - inversion Hin as [|? ? Hpod Hrest]; subst.
    pose proof (migrate_pod_keeps now target_nodes idx pod self) as [Hk _].
    assert (Hstep : forall self1,
      migrate_pod now target_nodes idx pod self = (Ok tt, self1) ->
      Permutation (pods_of (simulated_nodes self1)) (pods_of (simulated_nodes self))).
    { intros self1 H1. destruct (Spec.is_critical pod) eqn:Hc.
      - pose proof (migrate_pod_critical now target_nodes idx pod self Hc) as H.
        rewrite H1 in H. cbn [snd] in H. subst self1. reflexivity.
      - apply (migrate_pod_moves now target_nodes idx pod self self1 Hnd Hpod Hc);
          [apply turn_target; assumption | exact H1]. }
    destruct (migrate_pod now target_nodes idx pod self) as [[[]|e] self1];
      msimpl; [|discriminate].
    specialize (Hstep self1 eq_refl). cbn [snd] in Hk.
    intros H. rewrite <- Hstep. apply (IH (S idx) self1 self' Hne); [| | |exact H].
    + unfold names_of. rewrite Hstep. exact Hnd.
    + eapply List.Forall_impl; [|exact Hrest]. intros q Hq. cbn beta in Hq |- *.
      eapply Permutation_in; [symmetry; exact Hstep | exact Hq].
    + eapply targets_kept; eassumption.
Qed.

(** X4.  A successful migration batch whose pods are pods of the table
    and whose targets are nodes of the table neither loses nor
    duplicates a pod, provided pod names are unique: the table holds
    the same pods afterwards, under the same node names, and names are
    still unique. *)
Theorem execute_migrations_conserves_pods (now : Q) (ps : list Main.Pod)
    (target_nodes : list (string * Q)) (self self' : Main.ClusterRebalancer) :
  Spec.unique_pod_names self ->
  Forall (fun pod => In pod (Spec.all_pods self)) ps ->
  Forall (fun t => get (simulated_nodes self) t.1 <> None) target_nodes ->
  _execute_migrations now ps target_nodes self = (Ok tt, self') ->
  Permutation (Spec.all_pods self') (Spec.all_pods self)
  /\ Spec.unique_pod_names self'
  /\ map fst (simulated_nodes self') = map fst (simulated_nodes self).
Proof.
  intros Hnd Hin Ht Hrun.
  assert (Hperm : Permutation (Spec.all_pods self') (Spec.all_pods self)).
  { unfold _execute_migrations in Hrun.
    destruct target_nodes as [|t0 ts]; [injection Hrun as <-; reflexivity|].
    revert Hrun. msimpl. destruct (simulation_mode self);
      [|intros H; injection H as <-; reflexivity].
    apply migrate_loop_conserves; try assumption. discriminate. }
  split; [exact Hperm|]. split.
  - unfold Spec.unique_pod_names. rewrite Hperm. exact Hnd.
  - pose proof (execute_migrations_keys now ps target_nodes self) as Hk.
    rewrite Hrun in Hk. exact Hk.
Qed.

Lemma migrate_loop_keeps_others now target_nodes q t ps : forall idx self,
  Forall (fun pod => name q <> name pod) ps ->
  Table.resides q t self ->
  Table.resides q t (migrate_loop now target_nodes idx ps self).2.
Proof.
  induction ps as [|pod rest IH]; intros idx self Hall Hq; cbn [migrate_loop];
    msimpl; [exact Hq|].
  inversion Hall as [|? ? Hpod Hrest]; subst.
  pose proof (migrate_pod_keeps now target_nodes idx pod self) as [Hk _].
  pose proof (resides_kept _ q t _ _ Hk Hpod Hq) as H1.
  destruct (migrate_pod now target_nodes idx pod self) as [[[]|e] self1];
    msimpl; cbn [snd] in H1; [apply IH; assumption | exact H1].
Qed.

Lemma migrate_loop_places now target_nodes ps : forall idx self self',
  target_nodes <> [] ->
  NoDup (names_of (simulated_nodes self)) ->
  Forall (fun pod => In pod (pods_of (simulated_nodes self))) ps ->
  Forall (fun pod => Spec.is_critical pod = false) ps ->
  NoDup (map name ps) ->
  Forall (fun t => get (simulated_nodes self) t.1 <> None) target_nodes ->
  migrate_loop now target_nodes idx ps self = (Ok tt, self') ->
  forall k pod,
    nth_error ps k = Some pod ->
    Table.resides pod
      (nth ((idx + k) mod length target_nodes) target_nodes (""%string, 0)).1 self'.
Proof.
  induction ps as [|pod rest IH]; intros idx self self' Hne Hnd Hin Hnc Hdis Ht Hrun
    k q Hk; [destruct k; discriminate Hk|].
  inversion Hin as [|? ? Hpod Hrest]; subst.
  inversion Hnc as [|? ? Hc Hncrest]; subst.
  cbn [map] in Hdis. apply NoDup_cons in Hdis as [Hfresh Hdis].
  rewrite list_elem_of_In in Hfresh.
  cbn [migrate_loop] in Hrun. revert Hrun. msimpl.
  pose proof (migrate_pod_keeps now target_nodes idx pod self) as [Hkeep _].
  destruct (migrate_pod now target_nodes idx pod self) as [[[]|e] self1] eqn:Hstep;
    msimpl; [|discriminate].
  cbn [snd] in Hkeep. intros Hrun.
  destruct (migrate_pod_moves now target_nodes idx pod self self1 Hnd Hpod Hc
              (turn_target _ _ _ Hne Ht) Hstep) as [Hperm Hres].
  destruct k as [|k]; cbn [nth_error] in Hk.
  - injection Hk as <-. rewrite Nat.add_0_r.
    replace self' with (migrate_loop now target_nodes (S idx) rest self1).2
      by (rewrite Hrun; reflexivity).
    apply migrate_loop_keeps_others; [|exact Hres].
    apply List.Forall_forall. intros p Hp Heq. apply Hfresh. rewrite Heq.
    apply in_map. exact Hp.
  - replace (idx + S k)%nat with (S idx + k)%nat by lia.
    apply (IH (S idx) self1 self' Hne); try assumption.
    + unfold names_of. rewrite Hperm. exact Hnd.
    + eapply List.Forall_impl; [|exact Hrest]. intros p Hp. cbn beta in Hp |- *.
      eapply Permutation_in; [symmetry; exact Hperm | exact Hp].
    + eapply targets_kept; eassumption.
Qed.

(** X5.  Targets are taken in turn.  In a successful batch of distinct,
    non-critical pods of the table (names unique, targets in the
    table), the pod at position [k] of the batch ends on the target at
    position [k mod len(target_nodes)]. *)
Theorem execute_migrations_round_robin (now : Q) (ps : list Main.Pod)
    (target_nodes : list (string * Q)) (self self' : Main.ClusterRebalancer) :
  simulation_mode self = true ->
  Spec.unique_pod_names self ->
  Forall (fun pod => In pod (Spec.all_pods self)) ps ->
  Forall (fun pod => Spec.is_critical pod = false) ps ->
  NoDup (map name ps) ->
  Forall (fun t => get (simulated_nodes self) t.1 <> None) target_nodes ->
  _execute_migrations now ps target_nodes self = (Ok tt, self') ->
  forall k pod t,
    nth_error ps k = Some pod ->
    nth_error target_nodes (k mod length target_nodes) = Some t ->
    Table.resides pod t.1 self'.
Proof.
  intros Hsim Hnd Hin Hnc Hdis Ht Hrun k pod t Hk Hturn.
  unfold _execute_migrations in Hrun.
  destruct target_nodes as [|t0 ts] eqn:Htn;
    [apply nth_error_In in Hturn; destruct Hturn|].
  rewrite <- Htn in *. revert Hrun. msimpl. rewrite Hsim. intros Hrun.
  assert (Hne : target_nodes <> []) by (rewrite Htn; discriminate).
  pose proof (migrate_loop_places now target_nodes ps 0 self self' Hne Hnd Hin Hnc
                Hdis Ht Hrun k pod Hk) as H.
  cbn [Nat.add] in H.
  rewrite (nth_error_nth _ _ _ Hturn) in H. exact H.
Qed.

(** X6.  [_execute_migrations] does nothing when the target list is
    empty or the rebalancer is not in simulation mode, and it leaves the
    state as it is when every pod of the batch is critical or borne by
    no node. *)
Theorem execute_migrations_skips (now : Q) (ps : list Main.Pod)
    (target_nodes : list (string * Q)) (self : Main.ClusterRebalancer) :
  (target_nodes = [] \/ simulation_mode self = false ->
   _execute_migrations now ps target_nodes self = (Ok tt, self))
  /\ (Forall (fun pod => Spec.is_critical pod = true
                         \/ ~ In (name pod) (map name (Spec.all_pods self))) ps ->
      (_execute_migrations now ps target_nodes self).2 = self).
Proof.
  split.
  - unfold _execute_migrations. intros [-> | Hsim]; [reflexivity|].
    destruct target_nodes; [reflexivity|]. msimpl. rewrite Hsim. reflexivity.
  - intros Hall. unfold _execute_migrations.
    destruct target_nodes as [|t0 ts]; [reflexivity|]. msimpl.
    destruct (simulation_mode self); [|reflexivity].
    generalize 0%nat. revert Hall. generalize (t0 :: ts). intros tn.
    induction 1 as [|pod rest Hpod _ IH]; intros idx; cbn [migrate_loop]; msimpl;
      [reflexivity|].
    assert (Hstep : (migrate_pod now tn idx pod self).2 = self).
    { destruct Hpod as [Hc | Habs]; [apply migrate_pod_critical; exact Hc|].
      unfold migrate_pod. msimpl.
      destruct (_calculate_pod_priority now pod); msimpl; [|reflexivity].
      destruct (negb _); msimpl; [reflexivity|].
      rewrite (remove_pod_absent _ _ Habs). reflexivity. }
    destruct (migrate_pod now tn idx pod self) as [[[]|e] self1]; msimpl;
      cbn [snd] in Hstep; subst self1; [apply IH | reflexivity].
Qed.

End MigrationFacts.

(* ------------------------------------------------------------------ *)
(** * Cycles on a well-formed table *)
(* ------------------------------------------------------------------ *)

Section CycleFacts.
Import Main.

Let node_wf (n : Node) : bool :=
  Table.capacity_parses n && forallb Table.pod_parses (pods n).

Let table_wf (nodes : list (string * Node)) : bool :=
  forallb (fun e => node_wf e.2) nodes.

Lemma usage_loop_ok ps : forall cpu mem,
  forallb Table.pod_parses ps = true ->
  exists cpu' mem', usage_loop ps cpu mem = (cpu', mem', None).
Proof.
  induction ps as [|pod rest IH]; intros cpu mem H; cbn [usage_loop forallb] in *.
  - eexists; eexists; reflexivity.
  - apply andb_prop in H as [Hp Hrest]. unfold Table.pod_parses in Hp.
    apply andb_prop in Hp as [Hc Hm].
    destruct (float (replace_m (requests_cpu pod))); [|discriminate Hc].
    destruct (float (replace_Gi (requests_memory pod))); [|discriminate Hm].
    apply IH. exact Hrest.
Qed.

Lemma table_wf_update nodes k f :
  (forall n, node_wf n = true -> node_wf (f n) = true) ->
  table_wf nodes = true -> table_wf (update nodes k f) = true.
Proof.
  intros Hf. induction nodes as [|[k' v] rest IH]; cbn [update]; [auto|].
  unfold table_wf. cbn [forallb snd]. intros H. apply andb_prop in H as [Hv Hrest].
  destruct (String.eqb k' k); cbn [forallb snd]; apply andb_true_intro.
  - split; [apply Hf; exact Hv | exact Hrest].
  - split; [exact Hv | apply IH; exact Hrest].
Qed.

Lemma table_wf_get nodes k n :
  table_wf nodes = true -> get nodes k = Some n -> node_wf n = true.
Proof.
  induction nodes as [|[k' v] rest IH]; cbn [get]; [discriminate|].
  unfold table_wf. cbn [forallb snd]. intros H. apply andb_prop in H as [Hv Hrest].
  destruct (String.eqb k' k); [intros Hg; injection Hg as <-; exact Hv|].
  apply IH. exact Hrest.
Qed.

(** On a well-formed table the usage update returns normally and
    changes the two counters of that node only. *)
Lemma update_usage_ok node_name self :
  Table.well_formed self = true ->
  exists self',
    _update_simulated_node_usage node_name self = (Ok tt, self')
    /\ Table.well_formed self' = true
    /\ Table.settings self' = Table.settings self.
Proof.
  intros Hwf. unfold _update_simulated_node_usage.
  destruct (get (simulated_nodes self) node_name) as [node|] eqn:Hget;
    [|exists self; auto].
  pose proof (table_wf_get _ _ _ Hwf Hget) as Hn.
  apply andb_prop in Hn as [_ Hp].
  destruct (usage_loop_ok (pods node) 0.0 0.0 Hp) as (cpu & mem & ->).
  eexists. split; [reflexivity|]. split; [|reflexivity].
  apply table_wf_update; [|exact Hwf]. intros n Hn. exact Hn.
Qed.

Lemma update_all_ok names : forall self,
  Table.well_formed self = true ->
  exists self',
    update_all names self = (Ok tt, self')
    /\ Table.well_formed self' = true
    /\ Table.settings self' = Table.settings self.
Proof.
  induction names as [|n rest IH]; intros self Hwf; cbn [update_all]; msimpl.
  - exists self. auto.
  - destruct (update_usage_ok n self Hwf) as (s1 & -> & Hwf1 & Hs1). msimpl.
    destruct (IH s1 Hwf1) as (s2 & -> & Hwf2 & Hs2).
    exists s2. split; [reflexivity|]. split; [exact Hwf2 | congruence].
Qed.

Lemma get_node_metrics_ok self :
  Table.well_formed self = true ->
  exists self',
    get_node_metrics self
    = (Ok (if simulation_mode self
           then map (fun '(name, info) => (name, metrics_of info))
                    (simulated_nodes self')
           else []), self')
    /\ Table.well_formed self' = true
    /\ Table.settings self' = Table.settings self
    /\ Spec.residents (simulated_nodes self') = Spec.residents (simulated_nodes self).
Proof.
  intros Hwf. pose proof (get_node_metrics_residents self) as Hres.
  revert Hres. unfold get_node_metrics. msimpl.
  destruct (simulation_mode self); [|intros _; exists self; auto].
  destruct (update_all_ok (map fst (simulated_nodes self)) self Hwf)
    as (s1 & -> & Hwf1 & Hs1).
  msimpl. intros Hres. exists s1. auto.
Qed.

Lemma log_node_state_ok nodes :
  table_wf nodes = true ->
  log_node_state (map (fun '(name, info) => (name, metrics_of info)) nodes) = Ok tt.
Proof.
  induction nodes as [|[k v] rest IH]; [reflexivity|].
  unfold table_wf. cbn [forallb snd map log_node_state]. intros H.
  apply andb_prop in H as [Hv Hrest]. apply andb_prop in Hv as [Hcap _].
  unfold Table.capacity_parses in Hcap. apply andb_prop in Hcap as [Hc Hm].
  cbn [metrics_of m_allocatable_cpu m_allocatable_memory].
  destruct (float (allocatable_cpu v)); [|discriminate Hc].
  destruct (float (replace_Gi (allocatable_memory v))); [|discriminate Hm].
  cbn. apply IH. exact Hrest.
Qed.

Lemma select_target_nodes_ok nodes :
  table_wf nodes = true ->
  exists target_nodes,
    _select_target_nodes (map (fun '(name, info) => (name, metrics_of info)) nodes)
    = Ok target_nodes
    /\ Forall (fun t => get nodes t.1 <> None) target_nodes.
Proof.
  intros Hwf.
  assert (H : exists scored,
    score_nodes (map (fun '(name, info) => (name, metrics_of info)) nodes)
    = Ok scored
    /\ Forall (fun t => get nodes t.1 <> None) scored).
  { induction nodes as [|[k v] rest IH]; [exists []; split; [reflexivity | constructor]|].
    unfold table_wf in Hwf. cbn [forallb snd] in Hwf.
    apply andb_prop in Hwf as [Hv Hrest]. apply andb_prop in Hv as [Hcap _].
    unfold Table.capacity_parses in Hcap. apply andb_prop in Hcap as [Hc Hm].
    destruct (IH Hrest) as (tl & Htl & Hall).
    assert (Hall' : Forall (fun t => get ((k, v) :: rest) t.1 <> None) tl).
    { eapply List.Forall_impl; [|exact Hall]. intros t Ht. cbn [get].
      destruct (String.eqb k t.1); [discriminate | exact Ht]. }
    cbn [map score_nodes]. unfold calculate_node_score.
    cbn [metrics_of m_is_spot m_allocatable_cpu m_allocatable_memory].
    destruct (is_spot v); [|exists tl; split; [exact Htl | exact Hall']].
    destruct (float (allocatable_cpu v)); [|discriminate Hc].
    destruct (float (replace_Gi (allocatable_memory v))); [|discriminate Hm].
    cbn. rewrite Htl. cbn. eexists. split; [reflexivity|].
    constructor; [|exact Hall'].
    cbn [fst get]. rewrite String.eqb_refl. discriminate. }
  destruct H as (scored & Hs & Hall). unfold _select_target_nodes. rewrite Hs. cbn.
  eexists. split; [reflexivity|].
  eapply Permutation_Forall; [symmetry; apply sorted_reverse_perm | exact Hall].
Qed.

Lemma table_wf_remove x nodes : forall original nodes',
  table_wf nodes = true ->
  remove_pod x nodes = Some (original, nodes') ->
  table_wf nodes' = true.
Proof.
  induction nodes as [|[k v] rest IH]; intros original nodes' Hwf H;
    cbn [remove_pod] in H; [discriminate H|].
  unfold table_wf in Hwf. cbn [forallb snd] in Hwf.
  apply andb_prop in Hwf as [Hv Hrest].
  destruct (Nat.ltb _ _).
  - injection H as <- <-. unfold table_wf. cbn [forallb snd].
    apply andb_true_intro. split; [|exact Hrest].
    apply andb_prop in Hv as [Hcap Hp]. apply andb_true_intro.
    split; [exact Hcap|]. cbn [pods set_pods].
    apply forallb_forall. intros q Hq. apply filter_In in Hq as [Hq _].
    rewrite forallb_forall in Hp. apply Hp. exact Hq.
  - destruct (remove_pod x rest) as [[o rest']|]; [|discriminate H].
    injection H as <- <-. unfold table_wf. cbn [forallb snd].
    apply andb_true_intro. split; [exact Hv | eapply IH; [exact Hrest | reflexivity]].
Qed.

Lemma migrate_pod_ok now target_nodes idx pod self :
  Table.well_formed self = true -> Table.pod_parses pod = true ->
  exists self',
    migrate_pod now target_nodes idx pod self = (Ok tt, self')
    /\ Table.well_formed self' = true.
Proof.
  intros Hwf Hpod. unfold migrate_pod. msimpl.
  assert (Hprio : exists p, _calculate_pod_priority now pod = Ok p).
  { unfold _calculate_pod_priority. unfold Table.pod_parses in Hpod.
    apply andb_prop in Hpod as [Hc Hm].
    destruct (float (replace_m (requests_cpu pod))); [|discriminate Hc].
    destruct (float (replace_Gi (requests_memory pod))); [|discriminate Hm].
    cbn. eexists; reflexivity. }
  destruct Hprio as [p ->]. msimpl.
  destruct (negb _); msimpl; [exists self; auto|].
  destruct (remove_pod (name pod) (simulated_nodes self))
    as [[original nodes']|] eqn:Hr; msimpl; [|exists self; auto].
  pose proof (table_wf_remove _ _ _ _ Hwf Hr) as Hwf1.
  destruct (update_usage_ok original (set_nodes nodes' self) Hwf1)
    as (s2 & -> & Hwf2 & _). msimpl.
  destruct (get (simulated_nodes s2) _) as [target|]; msimpl; [|exists s2; auto].
  set (s3 := set_nodes _ s2).
  assert (Hwf3 : Table.well_formed s3 = true).
  { apply table_wf_update; [|exact Hwf2]. intros n Hn.
    apply andb_prop in Hn as [Hcap Hp]. apply andb_true_intro.
    split; [exact Hcap|]. cbn [pods append_pod set_pods].
    rewrite forallb_app. cbn [forallb]. rewrite Hp, Hpod. reflexivity. }
  destruct (update_usage_ok (nth (idx mod length target_nodes) target_nodes
                               (""%string, 0)).1 s3 Hwf3) as (s4 & -> & Hwf4 & _).
  exists s4. auto.
Qed.

Lemma migrate_loop_ok now target_nodes ps : forall idx self,
  Table.well_formed self = true ->
  Forall (fun pod => Table.pod_parses pod = true) ps ->
  exists self',
    migrate_loop now target_nodes idx ps self = (Ok tt, self')
    /\ Table.well_formed self' = true.
Proof.
  induction ps as [|pod rest IH]; intros idx self Hwf Hall; cbn [migrate_loop];
    msimpl; [exists self; auto|].
  inversion Hall as [|? ? Hpod Hrest]; subst.
  destruct (migrate_pod_ok now target_nodes idx pod self Hwf Hpod)
    as (s1 & -> & Hwf1). msimpl. apply IH; assumption.
Qed.

Lemma migrate_loop_settings now target_nodes ps : forall idx self,
  Table.settings (migrate_loop now target_nodes idx ps self).2 = Table.settings self.
Proof.
  induction ps as [|pod rest IH]; intros idx self; cbn [migrate_loop]; msimpl;
    [reflexivity|].
  pose proof (migrate_pod_keeps now target_nodes idx pod self) as [_ Hs].
  destruct (migrate_pod now target_nodes idx pod self) as [[[]|e] self1]; msimpl;
    cbn [snd] in Hs; [rewrite IH|]; exact Hs.
Qed.

Lemma table_pods_parse (nodes : list (string * Node)) pod :
  table_wf nodes = true ->
  In pod (concat (map snd (Spec.residents nodes))) ->
  Table.pod_parses pod = true.
Proof.
  induction nodes as [|[k v] rest IH]; [intros _ []|].
  unfold table_wf. cbn [forallb snd Spec.residents map concat fst]. intros H Hin.
  apply andb_prop in H as [Hv Hrest]. apply andb_prop in Hv as [_ Hp].
  apply in_app_iff in Hin as [Hin | Hin].
  - rewrite forallb_forall in Hp. apply Hp. exact Hin.
  - apply IH; assumption.
Qed.

Lemma filter_pods_ok cap now ps :
  Forall (fun p => Table.pod_parses p = true) ps ->
  exists out,
    _filter_pods cap now ps = Ok out
    /\ Forall (fun p => In p ps /\ Spec.is_critical p = false) out.
Proof.
  intros Hall.
  assert (H : exists out, _filter_pods cap now ps = Ok out).
  { unfold _filter_pods. destruct ps as [|p0 ps0]; [eexists; reflexivity|].
    destruct (prioritize_total now (p0 :: ps0)) as [l ->];
      [|cbn; eexists; reflexivity].
    eapply List.Forall_impl; [|exact Hall]. auto. }
  destruct H as [out Hout]. exists out. split; [exact Hout|].
  eapply filter_pods_sound. exact Hout.
Qed.

Lemma candidates_in_table self pod :
  In pod (if simulation_mode self
          then List.filter
                 (fun pod => bool_decide (labels pod !! "critical"%string
                                          = Some "false"%string))
                 (from_option pods [] (get (simulated_nodes self) "aks-regular-1"))
          else []) ->
  In pod (Spec.all_pods self).
Proof.
  destruct (simulation_mode self); [|intros []].
  intros Hin. apply filter_In in Hin as [Hin _].
  destruct (get (simulated_nodes self) "aks-regular-1") as [v|] eqn:Hget;
    [|destruct Hin].
  eapply get_pods_in_table; eassumption.
Qed.

Lemma filter_pods_length cap now ps out :
  _filter_pods cap now ps = Ok out -> (length out <= cap)%nat.
Proof.
  unfold _filter_pods. destruct ps as [|p0 ps0].
  - intros H. injection H as <-. apply Nat.le_0_l.
  - destruct (prioritize now (p0 :: ps0)) as [l|]; [|discriminate].
    cbv [mbind result_bind Py.bind mret result_ret]. intros H. injection H as <-.
    rewrite length_map. apply firstn_le_length.
Qed.

Lemma resides_residents pod t self self' :
  Spec.residents (simulated_nodes self') = Spec.residents (simulated_nodes self) ->
  Table.resides pod t self -> Table.resides pod t self'.
Proof.
  intros Hres (n & Hg & Hin).
  pose proof (residents_get _ _ t Hres) as H. rewrite Hg in H.
  destruct H as (n' & Hg' & Hp). exists n'. rewrite Hp. auto.
Qed.

Lemma candidate_resides self pod :
  In pod (if simulation_mode self
          then List.filter
                 (fun pod => bool_decide (labels pod !! "critical"%string
                                          = Some "false"%string))
                 (from_option pods [] (get (simulated_nodes self) "aks-regular-1"))
          else []) ->
  Table.resides pod "aks-regular-1" self.
Proof.
  destruct (simulation_mode self); [|intros []].
  intros Hin. apply filter_In in Hin as [Hin _].
  destruct (get (simulated_nodes self) "aks-regular-1") as [v|] eqn:Hget;
    [|destruct Hin].
  exists v. auto.
Qed.

(** A cycle that is due on a well-formed table, step by step. *)
Lemma cycle_runs now self :
  Table.well_formed self = true ->
  Qltb (now - last_rebalance_time self) (REBALANCE_INTERVAL_SECONDS self) = false ->
  exists s',
    rebalance_cluster now self = (Ok tt, s')
    /\ Table.settings s'
       = (REBALANCE_INTERVAL_SECONDS self, now, max_pods_per_cycle self,
          simulation_mode self)
    /\ Table.well_formed s' = true
    /\ map fst (simulated_nodes s') = map fst (simulated_nodes self)
    /\ (Spec.unique_pod_names self ->
        Permutation (Spec.all_pods s') (Spec.all_pods self))
    /\ exists batch,
         (length batch <= max_pods_per_cycle self)%nat
         /\ Forall (fun p => Spec.is_critical p = false
                             /\ Table.resides p "aks-regular-1" self) batch
         /\ forall q t,
              Forall (fun pod => name q <> name pod) batch ->
              Table.resides q t self -> Table.resides q t s'.
Proof.
  intros Hwf Hdue. unfold rebalance_cluster. rewrite Hdue.
  unfold try_except, find_pods_for_rebalance. msimpl.
  destruct (get_node_metrics_ok self Hwf) as (s1 & Hg & Hwf1 & Hs1 & Hres1).
  rewrite Hg. msimpl.
  assert (Hsim1 : simulation_mode s1 = simulation_mode self)
    by (unfold Table.settings in Hs1; congruence).
  assert (Hkeys1 : map fst (simulated_nodes s1) = map fst (simulated_nodes self)).
  { transitivity (map fst (Spec.residents (simulated_nodes s1)));
      [|rewrite Hres1]; unfold Spec.residents; rewrite map_map; reflexivity. }
  assert (Hpods1 : Spec.all_pods s1 = Spec.all_pods self)
    by (unfold Spec.all_pods; rewrite Hres1; reflexivity).
  set (metrics := if simulation_mode self then _ else _).
  assert (Hlog : log_node_state metrics = Ok tt).
  { subst metrics. destruct (simulation_mode self); [|reflexivity].
    apply log_node_state_ok. exact Hwf1. }
  rewrite Hlog. msimpl.
  set (pods_to_move := if simulation_mode s1 then _ else _).
  assert (Hcand : Forall (fun p => In p (Spec.all_pods s1)) pods_to_move).
  { apply List.Forall_forall. intros p Hp. apply candidates_in_table. exact Hp. }
  destruct (filter_pods_ok (max_pods_per_cycle s1) now pods_to_move)
    as (filtered_pods & Hfp & Hfil).
  { eapply List.Forall_impl; [|exact Hcand]. intros p Hp.
    eapply table_pods_parse; [exact Hwf1 | exact Hp]. }
  pose proof (filter_pods_length _ _ _ _ Hfp) as Hlen.
  rewrite Hfp. msimpl.
  assert (Hsel : exists target_nodes,
    _select_target_nodes metrics = Ok target_nodes
    /\ Forall (fun t => get (simulated_nodes s1) t.1 <> None) target_nodes).
  { subst metrics. destruct (simulation_mode self);
      [apply select_target_nodes_ok; exact Hwf1|].
    exists []. split; [reflexivity | constructor]. }
  destruct Hsel as (target_nodes & -> & Htargets). msimpl.
  set (migrations := match filtered_pods with [] => _ | _ :: _ => _ end).
  assert (Hbatch : Forall (fun p => In p (Spec.all_pods s1)) filtered_pods).
  { rewrite List.Forall_forall in Hfil, Hcand |- *. intros p Hp.
    apply Hcand. apply (Hfil p Hp). }
  assert (Hmig : exists s2,
    migrations s1 = (Ok tt, s2)
    /\ Table.well_formed s2 = true
    /\ Table.settings s2 = Table.settings s1
    /\ map fst (simulated_nodes s2) = map fst (simulated_nodes s1)
    /\ (Spec.unique_pod_names s1 ->
        Permutation (Spec.all_pods s2) (Spec.all_pods s1))
    /\ (forall q t,
          Forall (fun pod => name q <> name pod) filtered_pods ->
          Table.resides q t s1 -> Table.resides q t s2)).
  { subst migrations.
    destruct filtered_pods as [|p0 ps0];
      [exists s1; repeat split; auto|].
    destruct target_nodes as [|t0 ts0];
      [exists s1; repeat split; auto|].
    unfold _execute_migrations. msimpl.
    destruct (simulation_mode s1); [|exists s1; repeat split; auto].
    destruct (migrate_loop_ok now (t0 :: ts0) (p0 :: ps0) 0 s1 Hwf1)
      as (s2 & Hrun & Hwf2).
    { eapply List.Forall_impl; [|exact Hbatch]. intros p Hp.
      eapply table_pods_parse; [exact Hwf1 | exact Hp]. }
    exists s2. split; [exact Hrun|]. split; [exact Hwf2|].
    pose proof (migrate_loop_settings now (t0 :: ts0) (p0 :: ps0) 0 s1) as Hs.
    pose proof (migrate_loop_keys now (t0 :: ts0) (p0 :: ps0) 0 s1) as Hk.
    rewrite Hrun in Hs, Hk. split; [exact Hs|]. split; [exact Hk|].
    split.
    - intros Hnd.
      apply (migrate_loop_conserves now (t0 :: ts0) (p0 :: ps0) 0 s1 s2);
        [discriminate | exact Hnd | exact Hbatch | exact Htargets | exact Hrun].
    - intros q t Hall Hq.
      pose proof (migrate_loop_keeps_others now (t0 :: ts0) q t (p0 :: ps0) 0 s1
                    Hall Hq) as H.
      rewrite Hrun in H. exact H. }
  destruct Hmig as (s2 & -> & Hwf2 & Hs2 & Hkeys2 & Hperm2 & Hstay2). msimpl.
  set (s3 := set_last_rebalance_time now s2).
  assert (Hwf3 : Table.well_formed s3 = true) by exact Hwf2.
  destruct (get_node_metrics_ok s3 Hwf3) as (s4 & Hg4 & Hwf4 & Hs4 & Hres4).
  rewrite Hg4. msimpl.
  assert (Hlog4 : log_node_state
                    (if simulation_mode s3
                     then map (fun '(name, info) => (name, metrics_of info))
                              (simulated_nodes s4)
                     else []) = Ok tt).
  { destruct (simulation_mode s3); [|reflexivity].
    apply log_node_state_ok. exact Hwf4. }
  exists s4. split; [reflexivity|].
  split.
  { rewrite Hs4. unfold Table.settings in *.
    cbn [s3 set_last_rebalance_time REBALANCE_INTERVAL_SECONDS
         last_rebalance_time max_pods_per_cycle simulation_mode].
    congruence. }
  split; [exact Hwf4|].
  split.
  { transitivity (map fst (Spec.residents (simulated_nodes s4)));
      [unfold Spec.residents; rewrite map_map; reflexivity|].
    rewrite Hres4. cbn [s3 simulated_nodes set_last_rebalance_time].
    unfold Spec.residents. rewrite map_map. cbn [fst].
    change (map fst (simulated_nodes s2) = map fst (simulated_nodes self)).
    congruence. }
  split.
  { intros Hnd.
    assert (Hall4 : Spec.all_pods s4 = Spec.all_pods s2)
      by (unfold Spec.all_pods; rewrite Hres4; reflexivity).
    rewrite Hall4, <- Hpods1. apply Hperm2.
    unfold Spec.unique_pod_names. rewrite Hpods1. exact Hnd. }
  exists filtered_pods. split.
  { unfold Table.settings in Hs1. injection Hs1 as _ _ Hcap _.
    rewrite <- Hcap. exact Hlen. }
  split.
  { rewrite List.Forall_forall in Hfil |- *. intros p Hp.
    destruct (Hfil p Hp) as [Hin Hc]. split; [exact Hc|].
    apply candidate_resides in Hin.
    apply (resides_residents p _ s1 self); [symmetry; exact Hres1 | exact Hin]. }
  intros q t Hall Hq.
  apply (resides_residents q t s3 s4 Hres4).
  change (Table.resides q t s2). apply Hstay2; [exact Hall|].
  apply (resides_residents q t self s1 Hres1). exact Hq.
Qed.

(** X7.  The interval gate and the completion of a cycle.  A call made
    less than [REBALANCE_INTERVAL_SECONDS] after the recorded time
    changes nothing.  A call that is due, on a table whose quantities
    are all numbers, runs to its end: it records [now] as the time of
    the last cycle, keeps the node names and the well-formedness of the
    table, and any further call less than the interval later changes
    nothing. *)
Theorem rebalance_cycle_completes (now : Q) (self : Main.ClusterRebalancer) :
  (now - last_rebalance_time self < REBALANCE_INTERVAL_SECONDS self ->
   rebalance_cluster now self = (Ok tt, self))
  /\ (Table.well_formed self = true ->
      ~ now - last_rebalance_time self < REBALANCE_INTERVAL_SECONDS self ->
      exists s',
        rebalance_cluster now self = (Ok tt, s')
        /\ last_rebalance_time s' = now
        /\ Table.well_formed s' = true
        /\ map fst (simulated_nodes s') = map fst (simulated_nodes self)
        /\ forall now',
             now' - now < REBALANCE_INTERVAL_SECONDS self ->
             rebalance_cluster now' s' = (Ok tt, s')).
Proof.
  split.
  - intros H. apply Qltb_lt in H. unfold rebalance_cluster. rewrite H. reflexivity.
  - intros Hwf Hdue.
    assert (Hgate : Qltb (now - last_rebalance_time self)
                         (REBALANCE_INTERVAL_SECONDS self) = false).
    { destruct (Qltb _ _) eqn:H; [|reflexivity]. apply Qltb_lt in H. contradiction. }
    destruct (cycle_runs now self Hwf Hgate) as (s' & Hrun & Hset & Hwf' & Hkeys & _).
    exists s'. split; [exact Hrun|].
    unfold Table.settings in Hset. injection Hset as Hint Hlast _ _.
    split; [exact Hlast|]. split; [exact Hwf'|]. split; [exact Hkeys|].
    intros now' Hnow'. unfold rebalance_cluster. rewrite Hint, Hlast.
    apply Qltb_lt in Hnow'. rewrite Hnow'. reflexivity.
Qed.

(** X8.  A rebalance cycle on a well-formed table with unique pod names
    neither loses nor duplicates a pod: the table holds the same pods
    afterwards, and their names are still unique. *)
Theorem rebalance_cycle_conserves_pods (now : Q) (self : Main.ClusterRebalancer) :
  Table.well_formed self = true ->
  Spec.unique_pod_names self ->
  Permutation (Spec.all_pods (rebalance_cluster now self).2) (Spec.all_pods self)
  /\ Spec.unique_pod_names (rebalance_cluster now self).2.
Proof.
  intros Hwf Hnd.
  assert (Hperm : Permutation (Spec.all_pods (rebalance_cluster now self).2)
                              (Spec.all_pods self)).
  { destruct (Qltb (now - last_rebalance_time self)
                   (REBALANCE_INTERVAL_SECONDS self)) eqn:Hgate.
    - unfold rebalance_cluster. rewrite Hgate. reflexivity.
    - destruct (cycle_runs now self Hwf Hgate) as (s' & -> & _ & _ & _ & Hperm & _).
      apply Hperm. exact Hnd. }
  split; [exact Hperm|].
  unfold Spec.unique_pod_names. rewrite Hperm. exact Hnd.
Qed.

(** X15.  A rebalance cycle displaces few pods.  On a well-formed
    table there is a batch of at most [max_pods_per_cycle] pods, none of
    them critical and all of them on [aks-regular-1] before the call,
    such that every pod bearing another name is, after the call, on the
    node it was on before. *)
Theorem rebalance_cycle_displaces_a_bounded_batch (now : Q)
    (self : Main.ClusterRebalancer) :
  Table.well_formed self = true ->
  exists batch,
    (length batch <= max_pods_per_cycle self)%nat
    /\ Forall (fun p => Spec.is_critical p = false
                        /\ Table.resides p "aks-regular-1" self) batch
    /\ forall q t,
         Forall (fun pod => name q <> name pod) batch ->
         Table.resides q t self ->
         Table.resides q t (rebalance_cluster now self).2.
Proof.
  intros Hwf.
  destruct (Qltb (now - last_rebalance_time self)
                 (REBALANCE_INTERVAL_SECONDS self)) eqn:Hgate.
  - exists []. split; [apply Nat.le_0_l|]. split; [constructor|].
    intros q t _ Hq. unfold rebalance_cluster. rewrite Hgate. exact Hq.
  - destruct (cycle_runs now self Hwf Hgate)
      as (s' & -> & _ & _ & _ & _ & batch & Hlen & Hbatch & Hstay).
    exists batch. split; [exact Hlen|]. split; [exact Hbatch | exact Hstay].
Qed.

End CycleFacts.

(* ------------------------------------------------------------------ *)
(** * Node interruptions *)
(* ------------------------------------------------------------------ *)

Section InterruptionFacts.
Import Main.

Let pods_of (nodes : list (string * Node)) : list Pod :=
  concat (map snd (Spec.residents nodes)).

Lemma grows_refl orphans n : Table.grows orphans n n.
Proof.
  split; [reflexivity|]. exists []. split; [rewrite app_nil_r; reflexivity|].
  intros q [].
Qed.

Lemma grows_trans orphans n1 n2 n3 :
  Table.grows orphans n1 n2 -> Table.grows orphans n2 n3 ->
  Table.grows orphans n1 n3.
Proof.
  intros [Hi1 (e1 & Hp1 & He1)] [Hi2 (e2 & Hp2 & He2)]. split; [congruence|].
  exists (e1 ++ e2). rewrite Hp2, Hp1, app_assoc. split; [reflexivity|].
  apply incl_app; assumption.
Qed.

Lemma table_grows_refl orphans nodes : Table.table_grows orphans nodes nodes.
Proof.
  induction nodes as [|e rest IH]; constructor;
    [split; [reflexivity | apply grows_refl] | exact IH].
Qed.

Lemma table_grows_trans orphans n1 : forall n2 n3,
  Table.table_grows orphans n1 n2 -> Table.table_grows orphans n2 n3 ->
  Table.table_grows orphans n1 n3.
Proof.
  induction n1 as [|e1 r1 IH]; intros n2 n3 H12 H23.
  - inversion H12; subst. inversion H23; subst. constructor.
  - inversion H12 as [|? e2 ? r2 [Hk1 Hn1] Hr1]; subst.
    inversion H23 as [|? e3 ? r3 [Hk2 Hn2] Hr2]; subst.
    constructor.
    + split; [congruence | eapply grows_trans; eassumption].
    + eapply IH; eassumption.
Qed.

Lemma table_grows_update orphans nodes k f :
  (forall n, Table.grows orphans n (f n)) ->
  Table.table_grows orphans nodes (update nodes k f).
Proof.
  intros Hf. induction nodes as [|[k' v] rest IH]; cbn [update]; [constructor|].
  destruct (String.eqb k' k); constructor.
  - split; [reflexivity | apply Hf].
  - apply table_grows_refl.
  - split; [reflexivity | apply grows_refl].
  - exact IH.
Qed.

Lemma table_grows_usage orphans node_name self :
  Table.table_grows orphans (simulated_nodes self)
    (simulated_nodes (_update_simulated_node_usage node_name self).2)
  /\ Table.settings (_update_simulated_node_usage node_name self).2
     = Table.settings self.
Proof.
  unfold _update_simulated_node_usage.
  destruct (get (simulated_nodes self) node_name) as [node|];
    [|split; [apply table_grows_refl | reflexivity]].
  destruct (usage_loop (pods node) 0.0 0.0) as [[cpu mem] [e|]];
    cbn [snd simulated_nodes set_nodes]; (split; [|reflexivity]);
    apply table_grows_update; intros n;
    (split; [reflexivity|]; exists []; split;
     [cbn [pods set_usage]; rewrite app_nil_r; reflexivity | intros q []]).
Qed.

Lemma table_grows_place orphans t pod self :
  In pod orphans ->
  Table.table_grows orphans (simulated_nodes self)
    (simulated_nodes (place t pod self).2)
  /\ Table.settings (place t pod self).2 = Table.settings self.
Proof.
  intros Hin. unfold place. msimpl.
  set (s1 := set_nodes _ self).
  destruct (table_grows_usage orphans t s1) as [Hg Hs].
  split; [|exact Hs].
  eapply table_grows_trans; [|exact Hg].
  cbn [s1 simulated_nodes set_nodes]. apply table_grows_update. intros n.
  split; [reflexivity|]. exists [pod]. split; [reflexivity|].
  intros q [<- | []]. exact Hin.
Qed.

Lemma table_grows_reprogram_pod orphans remaining fallback r pod self :
  In pod orphans ->
  Table.table_grows orphans (simulated_nodes self)
    (simulated_nodes (reprogram_pod remaining fallback r pod self).2)
  /\ Table.settings (reprogram_pod remaining fallback r pod self).2
     = Table.settings self.
Proof.
  intros Hin. unfold reprogram_pod. msimpl.
  destruct (eligible_spot_nodes _ _ _) as [[|n ns]|e]; msimpl;
    [|apply table_grows_place; exact Hin
     |split; [apply table_grows_refl | reflexivity]].
  destruct (get (simulated_nodes self) fallback) as [fb|]; msimpl;
    [|split; [apply table_grows_refl | reflexivity]].
  destruct (negb (is_spot fb)); msimpl;
    [|split; [apply table_grows_refl | reflexivity]].
  destruct (has_capacity fb pod) as [[|]|e]; msimpl;
    [apply table_grows_place; exact Hin
    |split; [apply table_grows_refl | reflexivity]
    |split; [apply table_grows_refl | reflexivity]].
Qed.

Lemma table_grows_reprogram_loop orphans remaining fallback rng ps :
  forall i self,
    incl ps orphans ->
    Table.table_grows orphans (simulated_nodes self)
      (simulated_nodes (reprogram_loop remaining fallback rng i ps self).2)
    /\ Table.settings (reprogram_loop remaining fallback rng i ps self).2
       = Table.settings self.
Proof.
  induction ps as [|pod rest IH]; intros i self Hincl; cbn [reprogram_loop]; msimpl;
    [split; [apply table_grows_refl | reflexivity]|].
  destruct (table_grows_reprogram_pod orphans remaining fallback (rng i) pod self)
    as [Hg Hs]; [apply Hincl; left; reflexivity|].
  destruct (reprogram_pod remaining fallback (rng i) pod self) as [[[]|e] self1];
    msimpl; cbn [snd] in Hg, Hs; [|split; assumption].
  destruct (IH (S i) self1) as [Hg' Hs'];
    [intros q Hq; apply Hincl; right; exact Hq|].
  split; [eapply table_grows_trans; eassumption | congruence].
Qed.

Lemma get_del {V} (d : list (string * V)) k k' :
  k' <> k -> get (del d k) k' = get d k'.
Proof.
  intros Hk. induction d as [|[k0 v] rest IH]; cbn [get del]; [reflexivity|].
  destruct (String.eqb k0 k) eqn:H0.
  - apply String.eqb_eq in H0. subst k0.
    destruct (String.eqb k k') eqn:H1; [|reflexivity].
    apply String.eqb_eq in H1. congruence.
  - cbn [get]. rewrite IH. reflexivity.
Qed.

Lemma table_grows_get orphans nodes nodes' t :
  Table.table_grows orphans nodes nodes' ->
  match get nodes t with
  | Some n => exists n', get nodes' t = Some n' /\ Table.grows orphans n n'
  | None => get nodes' t = None
  end.
Proof.
  induction 1 as [|[k v] [k' v'] r r' [Hk Hn] _ IH]; cbn [get]; [reflexivity|].
  cbn [fst snd] in Hk, Hn. subst k'.
  destruct (String.eqb k t); [|exact IH].
  exists v'. split; [reflexivity | exact Hn].
Qed.

Lemma interruption_grows_table rng node_name self :
  match get (simulated_nodes self) node_name with
  | None => simulate_spot_node_interruption rng node_name self = (Ok tt, self)
  | Some node =>
      if is_spot node then
        Table.table_grows (pods node) (del (simulated_nodes self) node_name)
          (simulated_nodes (simulate_spot_node_interruption rng node_name self).2)
      else simulate_spot_node_interruption rng node_name self = (Ok tt, self)
  end.
Proof.
  unfold simulate_spot_node_interruption. msimpl.
  destruct (get (simulated_nodes self) node_name) as [node|] eqn:Hget; msimpl;
    [|reflexivity].
  destruct (is_spot node) eqn:Hspot; msimpl; [|reflexivity]. cbn [negb].
  set (s1 := set_nodes _ self).
  apply (table_grows_reprogram_loop (pods node)
              (map fst (List.filter (fun '(_, n_info) => is_spot n_info)
                                    (simulated_nodes s1)))
              "aks-regular-1" rng (pods node) 0 s1 (incl_refl _)).
Qed.

(** X9.  [simulate_spot_node_interruption] changes nothing when the
    name is unknown or names a node that is not a Spot node.  Otherwise
    the node is taken out of the table and every other node stays, under
    its name and in its place, with its Spot flag and capacity, and with
    its pods followed only by pods of the interrupted node; in
    particular a node that is not a Spot node is never removed. *)
Theorem interruption_frame (rng : nat -> nat) (node_name : string)
    (self : Main.ClusterRebalancer) :
  let r := simulate_spot_node_interruption rng node_name self in
  match get (simulated_nodes self) node_name with
  | None => r = (Ok tt, self)
  | Some node =>
      if is_spot node then
        Table.table_grows (pods node) (del (simulated_nodes self) node_name)
          (simulated_nodes r.2)
        /\ Table.settings r.2 = Table.settings self
        /\ forall k n,
             get (simulated_nodes self) k = Some n -> is_spot n = false ->
             exists n', get (simulated_nodes r.2) k = Some n'
                        /\ Table.grows (pods node) n n'
      else r = (Ok tt, self)
  end.
Proof.
  cbv zeta. unfold simulate_spot_node_interruption. msimpl.
  destruct (get (simulated_nodes self) node_name) as [node|] eqn:Hget; msimpl;
    [|reflexivity].
  destruct (is_spot node) eqn:Hspot; msimpl; [|reflexivity]. cbn [negb].
  set (s1 := set_nodes _ self).
  destruct (table_grows_reprogram_loop (pods node)
              (map fst (List.filter (fun '(_, n_info) => is_spot n_info)
                                    (simulated_nodes s1)))
              "aks-regular-1" rng (pods node) 0 s1 (incl_refl _)) as [Hg Hs].
  split; [exact Hg|]. split; [exact Hs|].
  intros k n Hk Hn.
  assert (Hne : k <> node_name) by (intros ->; congruence).
  pose proof (table_grows_get _ _ _ k Hg) as H.
  cbn [s1 simulated_nodes set_nodes] in H. rewrite (get_del _ _ _ Hne), Hk in H.
  exact H.
Qed.

Lemma has_capacity_ok n pod :
  Table.capacity_parses n = true -> Table.pod_parses pod = true ->
  exists b, has_capacity n pod = Ok b.
Proof.
  unfold Table.capacity_parses, Table.pod_parses, has_capacity. intros Hn Hp.
  apply andb_prop in Hn as [Hc Hm]. apply andb_prop in Hp as [Hpc Hpm].
  destruct (float (replace_m (requests_cpu pod))) as [c|]; [|discriminate].
  destruct (float (replace_Gi (requests_memory pod))) as [m|]; [|discriminate].
  destruct (float (allocatable_cpu n)) as [ca|]; [|discriminate].
  destruct (float (replace_Gi (allocatable_memory n))) as [ma|]; [|discriminate].
  cbv [mbind result_bind Py.bind mret result_ret].
  destruct (Qle_bool _ _); eexists; reflexivity.
Qed.

Lemma eligible_spec nodes pod rem : forall l,
  eligible_spot_nodes nodes pod rem = Ok l ->
  l = List.filter (Table.passes nodes pod) rem.
Proof.
  induction rem as [|n rest IH]; intros l; cbn [eligible_spot_nodes List.filter].
  - intros H; injection H as <-; reflexivity.
  - unfold Table.passes at 1. destruct (get nodes n) as [nd|]; [|discriminate].
    cbv [mbind result_bind Py.bind mret result_ret].
    destruct (has_capacity nd pod) as [b|e]; [|discriminate].
    destruct (eligible_spot_nodes nodes pod rest) as [l'|e]; [|discriminate].
    intros H; injection H as <-. rewrite (IH l' eq_refl). destruct b; reflexivity.
Qed.

Lemma choice_in r seq : seq <> [] -> In (choice r seq) seq.
Proof.
  intros H. unfold choice. apply nth_In. apply Nat.mod_upper_bound.
  destruct seq; [congruence | discriminate].
Qed.

Lemma passes_get nodes pod t :
  Table.passes nodes pod t = true ->
  exists v, get nodes t = Some v /\ has_capacity v pod = Ok true.
Proof.
  unfold Table.passes. destruct (get nodes t) as [v|]; [|discriminate].
  destruct (has_capacity v pod) as [[|]|] eqn:Hc; try discriminate.
  intros _. exists v. split; [reflexivity | exact Hc].
Qed.



Lemma reprogram_pod_places remaining fallback r pod self :
  (reprogram_pod remaining fallback r pod self).2 = self
  \/ exists t v, get (simulated_nodes self) t = Some v
       /\ (reprogram_pod remaining fallback r pod self).2 = (place t pod self).2.
Proof.
  unfold reprogram_pod. msimpl.
  destruct (eligible_spot_nodes (simulated_nodes self) pod remaining)
    as [l|e] eqn:He; msimpl; [|left; reflexivity].
  apply eligible_spec in He.
  destruct l as [|n ns].
  - destruct (get (simulated_nodes self) fallback) as [fb|] eqn:Hfb; msimpl;
      [|left; reflexivity].
    destruct (negb (is_spot fb)); msimpl; [|left; reflexivity].
    destruct (has_capacity fb pod) as [[|]|e]; msimpl;
      [right; exists fallback, fb; split; [exact Hfb | reflexivity]
      |left; reflexivity | left; reflexivity].
  - right.
    assert (Hin : In (choice r (n :: ns)) (n :: ns)) by (apply choice_in; discriminate).
    rewrite He in Hin at 2. apply filter_In in Hin as [_ Hp].
    apply passes_get in Hp as (v & Hv & _).
    exists (choice r (n :: ns)), v. split; [exact Hv | reflexivity].
Qed.

Lemma place_pods t pod self v :
  get (simulated_nodes self) t = Some v ->
  Permutation (pods_of (simulated_nodes (place t pod self).2))
              (pods_of (simulated_nodes self) ++ [pod]).
Proof.
  intros Hget. unfold place. msimpl. unfold pods_of.
  rewrite update_usage_residents. cbn [simulated_nodes set_nodes].
  eapply append_pods; exact Hget.
Qed.

Lemma reprogram_loop_conserves remaining fallback rng ps : forall i self,
  exists lost,
    Permutation
      (pods_of (simulated_nodes (reprogram_loop remaining fallback rng i ps self).2)
       ++ lost)
      (pods_of (simulated_nodes self) ++ ps)
    /\ incl lost ps.
Proof.
  induction ps as [|pod rest IH]; intros i self; cbn [reprogram_loop]; msimpl.
  - exists []. split; [reflexivity | intros q []].
  - assert (Hstep : exists d,
      Permutation
        (pods_of (simulated_nodes (reprogram_pod remaining fallback (rng i) pod self).2)
         ++ d)
        (pods_of (simulated_nodes self) ++ [pod])
      /\ incl d [pod]).
    { destruct (reprogram_pod_places remaining fallback (rng i) pod self)
        as [-> | (t & v & Hget & ->)].
      - exists [pod]. split; [reflexivity | apply incl_refl].
      - exists []. rewrite app_nil_r. split; [|intros q []].
        eapply place_pods; exact Hget. }
    destruct Hstep as (d & Hd & Hincl).
    destruct (reprogram_pod remaining fallback (rng i) pod self) as [[[]|e] self1];
      msimpl; cbn [snd] in Hd.
    + destruct (IH (S i) self1) as (lost & Hl & Hlincl).
      exists (d ++ lost). split.
      * rewrite (Permutation_app_comm d lost), app_assoc, Hl.
        rewrite <- app_assoc, (Permutation_app_comm rest d), app_assoc, Hd.
        rewrite <- app_assoc. reflexivity.
      * apply incl_app.
        -- intros q Hq. apply Hincl in Hq as [<- | []]. left. reflexivity.
        -- intros q Hq. right. apply Hlincl. exact Hq.
    + exists (d ++ rest). split.
      * rewrite app_assoc, Hd, <- app_assoc. reflexivity.
      * apply incl_app.
        -- intros q Hq. apply Hincl in Hq as [<- | []]. left. reflexivity.
        -- intros q Hq. right. exact Hq.
Qed.

Lemma del_pods nodes k v :
  get nodes k = Some v ->
  Permutation (pods_of nodes) (pods_of (del nodes k) ++ pods v).
Proof.
  induction nodes as [|[k' v'] rest IH]; cbn [get del]; [discriminate|].
  destruct (String.eqb k' k).
  - intros H; injection H as ->. unfold pods_of. cbn [Spec.residents map snd concat].
    apply Permutation_app_comm.
  - intros H. unfold pods_of in *. cbn [Spec.residents map snd concat].
    fold (Spec.residents rest). fold (Spec.residents (del rest k)).
    rewrite (IH H), app_assoc. reflexivity.
Qed.

(** X11.  An interruption never duplicates a pod and never loses a pod
    of a surviving node: the pods of the table afterwards, together
    with some pods of the interrupted node that found no place, are
    the pods of the table before. *)
Theorem interruption_conserves_pods (rng : nat -> nat) (node_name : string)
    (self : Main.ClusterRebalancer) :
  exists lost,
    Permutation
      (Spec.all_pods (simulate_spot_node_interruption rng node_name self).2 ++ lost)
      (Spec.all_pods self)
    /\ incl lost (from_option pods [] (get (simulated_nodes self) node_name)).
Proof.
  unfold Spec.all_pods, simulate_spot_node_interruption. msimpl.
  destruct (get (simulated_nodes self) node_name) as [node|] eqn:Hget; msimpl;
    [|exists []; rewrite app_nil_r; split; [reflexivity | intros q []]].
  destruct (negb (is_spot node)); msimpl;
    [exists []; rewrite app_nil_r; split; [reflexivity | intros q []]|].
  set (s1 := set_nodes _ self).
  destruct (reprogram_loop_conserves
              (map fst (List.filter (fun '(_, n_info) => is_spot n_info)
                                    (simulated_nodes s1)))
              "aks-regular-1" rng (pods node) 0 s1) as (lost & Hl & Hincl).
  exists lost. split; [|exact Hincl].
  unfold pods_of in Hl. rewrite Hl. cbn [s1 simulated_nodes set_nodes].
  symmetry. apply (del_pods _ _ _ Hget).
Qed.

End InterruptionFacts.


(* ------------------------------------------------------------------ *)
(** * What holds in every state of a running rebalancer *)
(* ------------------------------------------------------------------ *)

Section ReachableFacts.
Import Main.

Let summary (nodes : list (string * Node)) : list (string * bool * list Pod) :=
  map (fun e => (e.1, is_spot e.2, List.filter Spec.is_critical (pods e.2))) nodes.

Lemma table_keeps_idents x nodes nodes' :
  Table.table_keeps x nodes nodes' -> Table.idents nodes' = Table.idents nodes.
Proof.
  induction 1 as [|[k v] [k' v'] r r' [Hk [Hi _]] _ IH]; [reflexivity|].
  cbn [fst snd] in Hk, Hi. unfold Table.idents in *. cbn [map fst snd].
  rewrite Hk, Hi, IH. reflexivity.
Qed.

Lemma table_grows_idents orphans nodes nodes' :
  Table.table_grows orphans nodes nodes' ->
  Table.idents nodes' = Table.idents nodes.
Proof.
  induction 1 as [|[k v] [k' v'] r r' [Hk [Hi _]] _ IH]; [reflexivity|].
  cbn [fst snd] in Hk, Hi. unfold Table.idents in *. cbn [map fst snd].
  rewrite Hk, Hi, IH. reflexivity.
Qed.

Lemma update_all_idents names : forall self,
  Table.idents (simulated_nodes (update_all names self).2)
  = Table.idents (simulated_nodes self).
Proof.
  induction names as [|n rest IH]; intros self; cbn [update_all]; msimpl;
    [reflexivity|].
  pose proof (table_keeps_idents _ _ _ (table_keeps_usage ""%string n self)) as Hn.
  destruct (_update_simulated_node_usage n self) as [[[]|e] self']; msimpl;
    cbn [snd] in Hn; [rewrite IH|]; exact Hn.
Qed.

Lemma get_node_metrics_idents self :
  Table.idents (simulated_nodes (get_node_metrics self).2)
  = Table.idents (simulated_nodes self).
Proof.
  unfold get_node_metrics. msimpl.
  destruct (simulation_mode self); [|reflexivity].
  pose proof (update_all_idents (map fst (simulated_nodes self)) self) as H.
  destruct (update_all (map fst (simulated_nodes self)) self) as [[[]|e] self'];
    msimpl; exact H.
Qed.

Lemma migrate_loop_idents now target_nodes ps : forall idx self,
  Table.idents (simulated_nodes (migrate_loop now target_nodes idx ps self).2)
  = Table.idents (simulated_nodes self).
Proof.
  induction ps as [|pod rest IH]; intros idx self; cbn [migrate_loop]; msimpl;
    [reflexivity|].
  pose proof (migrate_pod_keeps now target_nodes idx pod self) as [Hk _].
  apply table_keeps_idents in Hk.
  destruct (migrate_pod now target_nodes idx pod self) as [[[]|e] self1];
    msimpl; cbn [snd] in Hk; [rewrite IH|]; exact Hk.
Qed.

Lemma update_all_settings names : forall self,
  Table.settings (update_all names self).2 = Table.settings self.
Proof.
  induction names as [|n rest IH]; intros self; cbn [update_all]; msimpl;
    [reflexivity|].
  pose proof (proj2 (table_grows_usage [] n self)) as Hn.
  destruct (_update_simulated_node_usage n self) as [[[]|e] s1]; msimpl;
    cbn [snd] in Hn; [rewrite IH|]; exact Hn.
Qed.

Lemma get_node_metrics_settings self :
  Table.settings (get_node_metrics self).2 = Table.settings self.
Proof.
  unfold get_node_metrics. msimpl.
  destruct (simulation_mode self); [|reflexivity].
  pose proof (update_all_settings (map fst (simulated_nodes self)) self) as H.
  destruct (update_all (map fst (simulated_nodes self)) self) as [[[]|e] self'];
    msimpl; exact H.
Qed.

(** X12.  Whatever its outcome, a call of [rebalance_cluster] leaves
    the nodes of the table as they are: their names, their order, their
    Spot flags and their capacities; it also leaves the interval, the
    batch size and the simulation flag. *)
Theorem rebalance_cluster_keeps_nodes (now : Q) (self : Main.ClusterRebalancer) :
  let self' := (rebalance_cluster now self).2 in
  Table.idents (simulated_nodes self') = Table.idents (simulated_nodes self)
  /\ REBALANCE_INTERVAL_SECONDS self' = REBALANCE_INTERVAL_SECONDS self
  /\ max_pods_per_cycle self' = max_pods_per_cycle self
  /\ simulation_mode self' = simulation_mode self.
Proof.
  cbv zeta.
  assert (Hfold : forall s' : ClusterRebalancer,
    Table.idents (simulated_nodes s') = Table.idents (simulated_nodes self) ->
    REBALANCE_INTERVAL_SECONDS s' = REBALANCE_INTERVAL_SECONDS self ->
    max_pods_per_cycle s' = max_pods_per_cycle self ->
    simulation_mode s' = simulation_mode self ->
    Table.idents (simulated_nodes s') = Table.idents (simulated_nodes self)
    /\ REBALANCE_INTERVAL_SECONDS s' = REBALANCE_INTERVAL_SECONDS self
    /\ max_pods_per_cycle s' = max_pods_per_cycle self
    /\ simulation_mode s' = simulation_mode self) by (intros; repeat split; assumption).
  unfold rebalance_cluster.
  destruct (Qltb _ _); [repeat split|].
  unfold try_except, find_pods_for_rebalance. msimpl.
  pose proof (get_node_metrics_idents self) as H1.
  pose proof (get_node_metrics_settings self) as Hs1.
  unfold Table.settings in Hs1. injection Hs1 as Ha1 _ Hb1 Hc1.
  destruct (get_node_metrics self) as [[node_metrics|e] s1]; msimpl;
    cbn [snd] in H1, Ha1, Hb1, Hc1; [|apply Hfold; assumption].
  destruct (log_node_state node_metrics) as [[]|e]; msimpl;
    [|apply Hfold; assumption].
  destruct (_filter_pods _ _ _) as [filtered_pods|e]; msimpl;
    [|apply Hfold; assumption].
  destruct (_select_target_nodes node_metrics) as [target_nodes|e]; msimpl;
    [|apply Hfold; assumption].
  set (migrations := match filtered_pods with [] => _ | _ :: _ => _ end).
  assert (H2 : Table.idents (simulated_nodes (migrations s1).2)
               = Table.idents (simulated_nodes s1)
               /\ Table.settings (migrations s1).2 = Table.settings s1).
  { subst migrations.
    destruct filtered_pods as [|p0 ps0]; [split; reflexivity|].
    destruct target_nodes as [|t0 ts0]; [split; reflexivity|].
    unfold _execute_migrations. msimpl.
    destruct (simulation_mode s1); [|split; reflexivity].
    split; [apply migrate_loop_idents | apply migrate_loop_settings]. }
  destruct H2 as [H2 Hs2]. unfold Table.settings in Hs2.
  injection Hs2 as Ha2 _ Hc2 Hd2.
  destruct (migrations s1) as [[[]|e] s2]; msimpl;
    cbn [snd] in H2, Ha2, Hc2, Hd2;
    [|apply Hfold; congruence].
  set (s3 := set_last_rebalance_time now s2).
  pose proof (get_node_metrics_idents s3) as H3.
  pose proof (get_node_metrics_settings s3) as Hs3.
  unfold Table.settings in Hs3. injection Hs3 as Ha3 _ Hb3 Hc3.
  destruct (get_node_metrics s3) as [[node_metrics'|e] s4]; msimpl;
    cbn [snd] in H3, Ha3, Hb3, Hc3;
    cbn [s3 simulated_nodes REBALANCE_INTERVAL_SECONDS max_pods_per_cycle
         simulation_mode set_last_rebalance_time] in H3, Ha3, Hb3, Hc3;
    apply Hfold; congruence.
Qed.

Lemma rebalance_cluster_idents now self :
  Table.idents (simulated_nodes (rebalance_cluster now self).2)
  = Table.idents (simulated_nodes self).
Proof.
  unfold rebalance_cluster.
  destruct (Qltb _ _); [reflexivity|].
  unfold try_except, find_pods_for_rebalance. msimpl.
  pose proof (get_node_metrics_idents self) as H1.
  destruct (get_node_metrics self) as [[node_metrics|e] s1]; msimpl;
    cbn [snd] in H1; [|exact H1].
  destruct (log_node_state node_metrics) as [[]|e]; msimpl; [|exact H1].
  destruct (_filter_pods _ _ _) as [filtered_pods|e]; msimpl; [|exact H1].
  destruct (_select_target_nodes node_metrics) as [target_nodes|e]; msimpl;
    [|exact H1].
  set (migrations := match filtered_pods with [] => _ | _ :: _ => _ end).
  assert (H2 : Table.idents (simulated_nodes (migrations s1).2)
               = Table.idents (simulated_nodes s1)).
  { subst migrations.
    destruct filtered_pods as [|p0 ps0]; [reflexivity|].
    destruct target_nodes as [|t0 ts0]; [reflexivity|].
    unfold _execute_migrations. msimpl.
    destruct (simulation_mode s1); [|reflexivity].
    apply migrate_loop_idents. }
  destruct (migrations s1) as [[[]|e] s2]; msimpl; cbn [snd] in H2;
    [|congruence].
  set (s3 := set_last_rebalance_time now s2).
  pose proof (get_node_metrics_idents s3) as H3.
  destruct (get_node_metrics s3) as [[node_metrics'|e] s4]; msimpl;
    cbn [snd] in H3; cbn [s3 simulated_nodes set_last_rebalance_time] in H3;
    congruence.
Qed.

Lemma place_ok t pod self :
  Table.well_formed self = true -> Table.pod_parses pod = true ->
  exists s', place t pod self = (Ok tt, s') /\ Table.well_formed s' = true.
Proof.
  intros Hwf Hp. unfold place. msimpl.
  set (s1 := set_nodes _ self).
  assert (Hwf1 : Table.well_formed s1 = true).
  { unfold Table.well_formed. cbn [s1 simulated_nodes set_nodes].
    apply table_wf_update; [|exact Hwf].
    intros n Hn. apply andb_prop in Hn as [Hc Hps]. apply andb_true_intro.
    split; [exact Hc|]. cbn [pods append_pod set_pods].
    rewrite forallb_app, Hps. cbn [forallb]. rewrite Hp. reflexivity. }
  destruct (update_usage_ok t s1 Hwf1) as (s' & Hrun & Hwf' & _).
  exists s'. split; assumption.
Qed.

Lemma eligible_ok nodes pod rem :
  forallb (fun e => Table.capacity_parses e.2
                    && forallb Table.pod_parses (pods e.2)) nodes = true ->
  Table.pod_parses pod = true ->
  Forall (fun n => get nodes n <> None) rem ->
  exists l, eligible_spot_nodes nodes pod rem = Ok l.
Proof.
  intros Hwf Hp. induction 1 as [|n rest Hn _ IH]; cbn [eligible_spot_nodes];
    [eexists; reflexivity|].
  destruct (get nodes n) as [nd|] eqn:Hg; [|congruence].
  pose proof (table_wf_get _ _ _ Hwf Hg) as Hnd. apply andb_prop in Hnd as [Hc _].
  destruct (has_capacity_ok nd pod Hc Hp) as [b ->]. destruct IH as [l ->].
  cbv [mbind result_bind Py.bind mret result_ret]. eexists; reflexivity.
Qed.

Lemma reprogram_pod_ok remaining fallback r pod self :
  Table.well_formed self = true -> Table.pod_parses pod = true ->
  Forall (fun n => get (simulated_nodes self) n <> None) remaining ->
  exists s',
    reprogram_pod remaining fallback r pod self = (Ok tt, s')
    /\ Table.well_formed s' = true.
Proof.
  intros Hwf Hp Hrem. unfold reprogram_pod. msimpl.
  destruct (eligible_ok _ _ _ Hwf Hp Hrem) as [l ->]. msimpl.
  destruct l as [|n ns]; [|apply place_ok; assumption].
  destruct (get (simulated_nodes self) fallback) as [f|] eqn:Hf; msimpl;
    [|exists self; auto].
  destruct (negb (is_spot f)); msimpl; [|exists self; auto].
  pose proof (table_wf_get _ _ _ Hwf Hf) as Hn. apply andb_prop in Hn as [Hc _].
  destruct (has_capacity_ok f pod Hc Hp) as [b ->]. msimpl.
  destruct b; [apply place_ok; assumption | exists self; auto].
Qed.

Lemma reprogram_loop_ok remaining fallback rng ps : forall i self,
  Table.well_formed self = true -> forallb Table.pod_parses ps = true ->
  Forall (fun n => get (simulated_nodes self) n <> None) remaining ->
  exists s',
    reprogram_loop remaining fallback rng i ps self = (Ok tt, s')
    /\ Table.well_formed s' = true.
Proof.
  induction ps as [|pod rest IH]; intros i self Hwf Hps Hrem;
    cbn [reprogram_loop]; msimpl; [exists self; auto|].
  cbn [forallb] in Hps. apply andb_prop in Hps as [Hp Hrest].
  pose proof (table_grows_reprogram_pod [pod] remaining fallback (rng i) pod self
                (or_introl eq_refl)) as [Hg _].
  destruct (reprogram_pod_ok remaining fallback (rng i) pod self Hwf Hp Hrem)
    as (s1 & Hrun & Hwf1).
  rewrite Hrun in Hg |- *. msimpl. cbn [snd] in Hg.
  apply IH; [exact Hwf1 | exact Hrest|].
  eapply List.Forall_impl; [|exact Hrem]. intros n Hn.
  pose proof (table_grows_get _ _ _ n Hg) as H. cbv beta in Hn.
  destruct (get (simulated_nodes self) n); [|contradiction].
  destruct H as (n' & -> & _). discriminate.
Qed.

Lemma forallb_del {V} (P : string * V -> bool) nodes k :
  forallb P nodes = true -> forallb P (del nodes k) = true.
Proof.
  induction nodes as [|[k' v] rest IH]; cbn [del forallb]; [auto|].
  intros H. apply andb_prop in H as [Hv Hrest].
  destruct (String.eqb k' k); [exact Hrest|].
  cbn [forallb]. rewrite Hv. apply IH. exact Hrest.
Qed.

Lemma in_get {V} (nodes : list (string * V)) k v :
  In (k, v) nodes -> get nodes k <> None.
Proof.
  induction nodes as [|[k' v'] rest IH]; cbn [get]; [intros []|].
  intros [H | H].
  - injection H as -> ->. rewrite String.eqb_refl. discriminate.
  - destruct (String.eqb k' k); [discriminate | apply IH; exact H].
Qed.

Lemma get_in {V} (nodes : list (string * V)) k v :
  get nodes k = Some v -> In (k, v) nodes.
Proof.
  induction nodes as [|[k' v'] rest IH]; cbn [get]; [discriminate|].
  destruct (String.eqb k' k) eqn:Hk.
  - apply String.eqb_eq in Hk. intros H; injection H as ->. left. congruence.
  - intros H. right. apply IH. exact H.
Qed.

Lemma in_del {V} (nodes : list (string * V)) k e :
  In e (del nodes k) -> In e nodes.
Proof.
  induction nodes as [|[k' v'] rest IH]; cbn [del]; [intros []|].
  destruct (String.eqb k' k); [intros H; right; exact H|].
  intros [H | H]; [left; exact H | right; apply IH; exact H].
Qed.

Lemma interruption_ok rng node_name self :
  Table.well_formed self = true ->
  exists s',
    simulate_spot_node_interruption rng node_name self = (Ok tt, s')
    /\ Table.well_formed s' = true.
Proof.
  intros Hwf. unfold simulate_spot_node_interruption. msimpl.
  destruct (get (simulated_nodes self) node_name) as [node|] eqn:Hget; msimpl;
    [|exists self; auto].
  destruct (negb (is_spot node)); msimpl; [exists self; auto|].
  set (s1 := set_nodes _ self).
  pose proof (table_wf_get _ _ _ Hwf Hget) as Hn. apply andb_prop in Hn as [_ Hps].
  apply reprogram_loop_ok.
  - unfold Table.well_formed. cbn [s1 simulated_nodes set_nodes].
    apply forallb_del. exact Hwf.
  - exact Hps.
  - apply List.Forall_forall. intros n Hn.
    apply in_map_iff in Hn as ([k v] & <- & Hin).
    apply filter_In in Hin as [Hin _]. eapply in_get. exact Hin.
Qed.

Lemma rebalance_cluster_ok now self :
  Table.well_formed self = true ->
  exists s',
    rebalance_cluster now self = (Ok tt, s') /\ Table.well_formed s' = true.
Proof.
  intros Hwf.
  destruct (Qltb (now - last_rebalance_time self) (REBALANCE_INTERVAL_SECONDS self))
    eqn:Hg.
  - exists self. unfold rebalance_cluster. rewrite Hg. auto.
  - destruct (cycle_runs now self Hwf Hg) as (s' & H & _ & Hwf' & _).
    exists s'. auto.
Qed.

Lemma init_well_formed t0 : Table.well_formed (Initial.init t0) = true.
Proof. vm_compute. reflexivity. Qed.

Lemma reachable_well_formed self :
  Spec.reachable self -> Table.well_formed self = true.
Proof.
  induction 1 as [t0 | now self _ IH | rng node_name self _ IH].
  - apply init_well_formed.
  - destruct (rebalance_cluster_ok now self IH) as (s' & -> & H). exact H.
  - destruct (interruption_ok rng node_name self IH) as (s' & -> & H). exact H.
Qed.

(** X13.  A rebalancer built by the constructor and driven by rebalance
    cycles and node interruptions only never raises: in every state it
    goes through, each quantity of the table is a number, and both
    methods return normally whatever the time, the node name and the
    random draws. *)
Theorem reachable_runs_without_exception (self : Main.ClusterRebalancer) :
  Spec.reachable self ->
  Table.well_formed self = true
  /\ (forall now, (rebalance_cluster now self).1 = Ok tt)
  /\ (forall rng node_name,
        (simulate_spot_node_interruption rng node_name self).1 = Ok tt).
Proof.
  intros Hr. pose proof (reachable_well_formed self Hr) as Hwf.
  split; [exact Hwf|]. split.
  - intros now. destruct (rebalance_cluster_ok now self Hwf) as (s' & -> & _).
    reflexivity.
  - intros rng node_name.
    destruct (interruption_ok rng node_name self Hwf) as (s' & -> & _).
    reflexivity.
Qed.

Lemma reachable_runs_without_exception_witness :
  Spec.reachable after_interruption
  /\ Table.well_formed after_interruption = true
  /\ (forall now, (rebalance_cluster now after_interruption).1 = Ok tt)
  /\ (forall rng node_name,
        (simulate_spot_node_interruption rng node_name after_interruption).1
        = Ok tt).
Proof.
  assert (Hr : Spec.reachable after_interruption)
    by (apply Spec.reachable_interruption, Spec.reachable_rebalance,
          Spec.reachable_init).
  split; [exact Hr | exact (reachable_runs_without_exception after_interruption Hr)].
Defined.

Lemma summary_eq nodes : forall nodes',
  Table.idents nodes' = Table.idents nodes ->
  Spec.critical_in (Spec.residents nodes') = Spec.critical_in (Spec.residents nodes) ->
  summary nodes' = summary nodes.
Proof.
  unfold Table.idents, Spec.critical_in, Spec.residents, summary.
  induction nodes as [|[k v] rest IH]; intros [|[k' v'] rest']; cbn [map fst snd];
    try discriminate; [reflexivity|].
  intros H1 H2. injection H1 as Hk Hs _ _ Hr1. injection H2 as _ Hf Hr2.
  rewrite Hk, Hs, Hf, (IH rest' Hr1 Hr2). reflexivity.
Qed.

Lemma summary_in a : forall b k n,
  summary a = summary b -> In (k, n) a ->
  exists n0, In (k, n0) b /\ is_spot n0 = is_spot n
             /\ List.filter Spec.is_critical (pods n0)
                = List.filter Spec.is_critical (pods n).
Proof.
  unfold summary.
  induction a as [|[ka va] ra IH]; intros [|[kb vb] rb] k n; cbn [map fst snd];
    try discriminate; [intros _ []|].
  intros H Hin. injection H as Hk Hs Hf Hr.
  destruct Hin as [Hin | Hin].
  - injection Hin as <- <-. exists vb. subst kb. split; [left; reflexivity|]. auto.
  - destruct (IH rb k n Hr Hin) as (n0 & Hn0 & Hrest).
    exists n0. split; [right; exact Hn0 | exact Hrest].
Qed.

Lemma summary_get a : forall b k n,
  summary a = summary b -> get b k = Some n ->
  exists n', get a k = Some n' /\ is_spot n' = is_spot n
             /\ List.filter Spec.is_critical (pods n')
                = List.filter Spec.is_critical (pods n).
Proof.
  unfold summary.
  induction a as [|[ka va] ra IH]; intros [|[kb vb] rb] k n; cbn [map fst snd get];
    try discriminate.
  intros H. injection H as Hk Hs Hf Hr. subst kb.
  destruct (String.eqb ka k).
  - intros Hg; injection Hg as <-. exists va. auto.
  - apply IH. exact Hr.
Qed.

Lemma summary_grows orphans a b :
  List.filter Spec.is_critical orphans = [] ->
  Table.table_grows orphans a b -> summary b = summary a.
Proof.
  intros Ho.
  induction 1 as [|[k v] [k' v'] r r' [Hk [Hi (extra & Hp & Hincl)]] _ IH];
    [reflexivity|].
  cbn [fst snd] in Hk, Hi, Hp. unfold summary in *. cbn [map fst snd].
  unfold Table.identity_of in Hi. injection Hi as Hs _ _.
  rewrite Hk, Hs, IH, Hp, List.filter_app.
  assert (He : List.filter Spec.is_critical extra = []).
  { destruct (List.filter Spec.is_critical extra) as [|q qs] eqn:Hq; [reflexivity|].
    assert (Hin : In q (List.filter Spec.is_critical extra))
      by (rewrite Hq; left; reflexivity).
    apply filter_In in Hin as [Hin Hc].
    assert (Hin' : In q (List.filter Spec.is_critical orphans))
      by (apply filter_In; split; [apply Hincl; exact Hin | exact Hc]).
    rewrite Ho in Hin'. destruct Hin'. }
  rewrite He, app_nil_r. reflexivity.
Qed.

Lemma init_critical t0 :
  (forall k n, In (k, n) (simulated_nodes (Initial.init t0)) -> is_spot n = true ->
               List.filter Spec.is_critical (pods n) = [])
  /\ exists n,
       get (simulated_nodes (Initial.init t0)) "aks-regular-1" = Some n
       /\ is_spot n = false
       /\ map name (List.filter Spec.is_critical (pods n))
          = ["app-3"; "app-6"; "app-9"]%string.
Proof.
  unfold Initial.init.
  match goal with
  | |- context [_update_simulated_node_usage _ ?s] => set (raw := s)
  end.
  assert (Hsum : summary (simulated_nodes
                            (_update_simulated_node_usage "aks-regular-1" raw).2)
                 = summary (simulated_nodes raw)).
  { apply summary_eq.
    - exact (table_keeps_idents _ _ _
               (table_keeps_usage ""%string "aks-regular-1"%string raw)).
    - unfold Spec.critical_in. rewrite update_usage_residents. reflexivity. }
  split.
  - intros k n Hin Hs.
    destruct (summary_in _ _ k n Hsum Hin) as (n0 & Hin0 & Hs0 & <-).
    rewrite <- Hs0 in Hs. clear - Hin0 Hs.
    destruct Hin0 as [Hin | [Hin | [Hin | []]]]; injection Hin as <- <-;
      solve [reflexivity | discriminate Hs].
  - assert (Hg : get (simulated_nodes raw) "aks-regular-1"
                 = Some (mkNode false "8" "32Gi" 0.0 0.0 (Initial.initial_pods t0)))
      by reflexivity.
    destruct (summary_get _ _ "aks-regular-1"%string _ Hsum Hg)
      as (n' & Hg' & Hs' & Hc').
    exists n'. split; [exact Hg'|]. split; [exact Hs'|]. rewrite Hc'.
    cbn [pods]. vm_compute. reflexivity.
Qed.

(** X14.  Where the critical pods are, in every state a rebalancer
    built by the constructor goes through: no Spot node holds a
    critical pod, and the node [aks-regular-1] is in the table, is not
    a Spot node, and holds the critical pods app-3, app-6 and app-9. *)
Theorem reachable_critical_pods_on_regular_node (self : Main.ClusterRebalancer) :
  Spec.reachable self ->
  (forall k n, In (k, n) (simulated_nodes self) -> is_spot n = true ->
               List.filter Spec.is_critical (pods n) = [])
  /\ exists n,
       get (simulated_nodes self) "aks-regular-1" = Some n
       /\ is_spot n = false
       /\ map name (List.filter Spec.is_critical (pods n))
          = ["app-3"; "app-6"; "app-9"]%string.
Proof.
  induction 1 as [t0 | now self Hr [IHa IHb] | rng node_name self Hr [IHa IHb]].
  - apply init_critical.
  - assert (Hsum : summary (simulated_nodes (rebalance_cluster now self).2)
                   = summary (simulated_nodes self)).
    { apply summary_eq; [apply rebalance_cluster_idents|].
      apply rebalance_cluster_keeps_critical, reachable_unique_pod_names, Hr. }
    split.
    + intros k n Hin Hs.
      destruct (summary_in _ _ k n Hsum Hin) as (n0 & Hin0 & Hs0 & <-).
      apply (IHa k n0 Hin0). congruence.
    + destruct IHb as (n & Hg & Hs & Hc).
      destruct (summary_get _ _ "aks-regular-1"%string n Hsum Hg)
        as (n' & Hg' & Hs' & Hc').
      exists n'. split; [exact Hg'|]. split; [congruence|]. rewrite Hc'. exact Hc.
  - pose proof (interruption_grows_table rng node_name self) as Hframe.
    destruct (get (simulated_nodes self) node_name) as [node|] eqn:Hget;
      [|rewrite Hframe; split; assumption].
    destruct (is_spot node) eqn:Hspot; [|rewrite Hframe; split; assumption].
    assert (Ho : List.filter Spec.is_critical (pods node) = [])
      by (apply (IHa node_name node); [apply get_in; exact Hget | exact Hspot]).
    pose proof (summary_grows _ _ _ Ho Hframe) as Hsum.
    split.
    + intros k n Hin Hs.
      destruct (summary_in _ _ k n Hsum Hin) as (n0 & Hin0 & Hs0 & <-).
      apply (IHa k n0); [eapply in_del; exact Hin0 | congruence].
    + destruct IHb as (n & Hg & Hs & Hc).
      assert (Hne : "aks-regular-1"%string <> node_name)
        by (intros <-; congruence).
      rewrite <- (get_del _ node_name _ Hne) in Hg.
      destruct (summary_get _ _ "aks-regular-1"%string n Hsum Hg)
        as (n' & Hg' & Hs' & Hc').
      exists n'. split; [exact Hg'|]. split; [congruence|]. rewrite Hc'. exact Hc.
Qed.

Lemma reachable_critical_pods_on_regular_node_witness :
  Spec.reachable after_interruption
  /\ (forall k n, In (k, n) (simulated_nodes after_interruption) ->
                  is_spot n = true ->
                  List.filter Spec.is_critical (pods n) = [])
  /\ exists n,
       get (simulated_nodes after_interruption) "aks-regular-1" = Some n
       /\ is_spot n = false
       /\ map name (List.filter Spec.is_critical (pods n))
          = ["app-3"; "app-6"; "app-9"]%string.
Proof.
  assert (Hr : Spec.reachable after_interruption)
    by (apply Spec.reachable_interruption, Spec.reachable_rebalance,
          Spec.reachable_init).
  split; [exact Hr|].
  exact (reachable_critical_pods_on_regular_node after_interruption Hr).
Defined.

End ReachableFacts.

(* ------------------------------------------------------------------ *)
(** * More on the scaling metrics and the scaling decision *)
(* ------------------------------------------------------------------ *)

Section ScalingBounds.
Import ScalingMetrics.
Variable pow_0_7 : Z -> Q.





Lemma within_15 x avg : negb (Qltb 15 (Qabs (x - avg))) = true ->
  -15 <= x - avg <= 15.
Proof.
  rewrite negb_true_iff. intros H. apply Qltb_ge in H.
  apply Qabs_Qle_condition in H. lra.
Qed.

(** X17.  [_metrics_are_stable] answers yes only for a history of at
    least three samples in which any two samples are at most 30 points
    apart, in CPU and in memory. *)
Theorem metrics_are_stable_spread (self : ScalingMetrics.t) :
  _metrics_are_stable self = true ->
  (3 <= length (metric_history self))%nat
  /\ forall m1 m2,
       In m1 (metric_history self) -> In m2 (metric_history self) ->
       Qabs (cpu m1 - cpu m2) <= 30 /\ Qabs (memory m1 - memory m2) <= 30.
Proof.
  unfold _metrics_are_stable.
  destruct (Nat.ltb (length (metric_history self)) 3) eqn:Hlen; [discriminate|].
  apply Nat.ltb_ge in Hlen. cbv zeta. intros H. split; [exact Hlen|].
  rewrite forallb_forall in H. intros m1 m2 H1 H2.
  pose proof (H m1 H1) as Hm1. pose proof (H m2 H2) as Hm2.
  rewrite negb_orb in Hm1, Hm2.
  apply andb_prop in Hm1 as [Hc1 Hr1]. apply andb_prop in Hm2 as [Hc2 Hr2].
  apply within_15 in Hc1, Hr1, Hc2, Hr2.
  split; apply Qabs_Qle_condition; lra.
Qed.

Lemma filter_none {A} (f : A -> bool) l :
  Forall (fun x => f x = false) l -> List.filter f l = [].
Proof.
  induction 1 as [|x l Hx _ IH]; cbn [List.filter]; [reflexivity|].
  rewrite Hx. exact IH.
Qed.

Lemma update_metrics_snoc now c m p r self :
  (0 < Config.STABILIZATION_WINDOW (config self))%Z ->
  exists older,
    metric_history (update_metrics pow_0_7 now c m p r self)
    = older ++ [mkSample now c m
                  (response_time_gauge (update_metrics pow_0_7 now c m p r self))].
Proof.
  intros Hw. unfold update_metrics. cbn [metric_history response_time_gauge].
  rewrite List.filter_app. cbn [List.filter timestamp].
  assert (Hkeep : Qltb (now - inject_Z (Config.STABILIZATION_WINDOW (config self)))
                       now = true).
  { apply Qltb_lt. rewrite Zlt_Qlt in Hw. change (inject_Z 0) with 0 in Hw. lra. }
  rewrite Hkeep. eexists. reflexivity.
Qed.


(** X19.  [auto_scale_node_pool] changes the count by one and stays
    inside the configured bounds: a scale-up asks for one more than the
    current count and never more than [MAX_REPLICAS]; a scale-down asks
    for one less and never less than [MIN_REPLICAS], and is taken only
    below 70% of both resource thresholds.  The configuration is never
    written. *)
Theorem scaling_decision_steps_by_one (now cpu_usage memory_usage pods_reading : Q)
    (self : AKS.AKSManager) :
  let cfg := AKS.config self in
  let current_pods := AKS.int pods_reading in
  let r := AKS.scaling_decision pow_0_7 now cpu_usage memory_usage pods_reading self in
  AKS.config r.2 = cfg
  /\ match r.1 with
     | AKS.ScaleUp new_count =>
         new_count = (current_pods + 1)%Z
         /\ (new_count <= Config.MAX_REPLICAS cfg)%Z
     | AKS.ScaleDown new_count =>
         new_count = (current_pods - 1)%Z
         /\ (Config.MIN_REPLICAS cfg <= new_count)%Z
         /\ cpu_usage < inject_Z (Config.CPU_SCALING_THRESHOLD cfg) * 0.7
         /\ memory_usage < inject_Z (Config.MEMORY_SCALING_THRESHOLD cfg) * 0.7
     | AKS.NoOp => True
     end.
Proof.
  cbv zeta. unfold AKS.scaling_decision.
  destruct (should_scale_up now _) as [up metrics].
  destruct (up && _)%bool eqn:Hup.
  - cbn [fst snd AKS.config]. split; [reflexivity|].
    apply andb_prop in Hup as [_ Hlt]. apply Z.ltb_lt in Hlt. split; lia.
  - destruct (_ && _ && _)%bool eqn:Hdown; cbn [fst snd AKS.config];
      (split; [reflexivity|]); [|exact I].
    apply andb_prop in Hdown as [Hd Hmem]. apply andb_prop in Hd as [Hmin Hcpu].
    apply Z.ltb_lt in Hmin. apply Qltb_lt in Hcpu, Hmem.
    split; [lia|]. split; [lia|]. split; assumption.
Qed.

End ScalingBounds.



Lemma metrics_are_stable_spread_witness :
  (3 <= length (ScalingMetrics.metric_history Samples.steady))%nat
  /\ forall m1 m2,
       In m1 (ScalingMetrics.metric_history Samples.steady) ->
       In m2 (ScalingMetrics.metric_history Samples.steady) ->
       Qabs (ScalingMetrics.cpu m1 - ScalingMetrics.cpu m2) <= 30
       /\ Qabs (ScalingMetrics.memory m1 - ScalingMetrics.memory m2) <= 30.
Proof.
  apply (metrics_are_stable_spread Samples.steady). vm_compute. reflexivity.
Defined.

(* ------------------------------------------------------------------ *)
(** * src/utils.py: the node score and the eviction loop *)
(* ------------------------------------------------------------------ *)

Section UtilsFacts.



Let is_read (e : Utils.effect) : bool :=
  match e with Utils.ReadPod _ _ => true | _ => false end.
Let is_evict (e : Utils.effect) : bool :=
  match e with Utils.Evict _ _ => true | _ => false end.
Let is_sleep (e : Utils.effect) : bool :=
  match e with Utils.Sleep _ => true | _ => false end.

(** X21.  The retry loop of [utils.safe_evict_pod] never asks for the
    eviction of a pod that the cluster reports as critical: it answers
    no and sends read requests only. *)
Theorem evict_loop_spares_critical_pods (api : Utils.CoreV1Api)
    (pod_name namespace : string) (attempts : list nat) :
  (forall attempt pod_labels,
     Utils.read_namespaced_pod api attempt pod_name namespace
     = Utils.Returned pod_labels ->
     default "false"%string (pod_labels !! "critical"%string) = "true"%string) ->
  (Utils.evict_loop api pod_name namespace attempts).1 = false
  /\ Forall (fun e => is_evict e = false)
            (Utils.evict_loop api pod_name namespace attempts).2.
Proof.
  intros Hcrit. induction attempts as [|attempt rest [IHr IHe]];
    cbn [Utils.evict_loop]; [split; [reflexivity | constructor]|].
  destruct (Utils.read_namespaced_pod api attempt pod_name namespace)
    as [pod_labels|status] eqn:Hread.
  - rewrite (bool_decide_eq_true_2 _ (Hcrit attempt pod_labels Hread)).
    split; [reflexivity | repeat constructor].
  - destruct (Utils.evict_loop api pod_name namespace rest) as [r effs].
    cbn [fst snd] in IHr, IHe.
    destruct (Z.eqb status 429); cbn [fst snd];
      [split; [exact IHr | repeat constructor; exact IHe]
      |split; [reflexivity | repeat constructor]].
Qed.

Lemma evict_loop_spares_critical_pods_witness :
  (Utils.evict_loop Inputs.guarded_cluster "db" "default" [0; 1; 2]%nat).1 = false
  /\ Forall (fun e => match e with Utils.Evict _ _ => true | _ => false end = false)
       (Utils.evict_loop Inputs.guarded_cluster "db" "default" [0; 1; 2]%nat).2.
Proof.
  apply (evict_loop_spares_critical_pods Inputs.guarded_cluster).
  intros attempt pod_labels H. injection H as <-. vm_compute. reflexivity.
Defined.

(** X22.  The retry loop is bounded by its attempts: it reads the pod
    at most once per attempt and asks for an eviction at most once per
    read, it pauses at most once per attempt, and it answers yes only
    when its last request is an eviction. *)
Theorem evict_loop_requests_bounded (api : Utils.CoreV1Api)
    (pod_name namespace : string) (attempts : list nat) :
  let r := Utils.evict_loop api pod_name namespace attempts in
  (length (List.filter is_evict r.2) <= length (List.filter is_read r.2))%nat
  /\ (length (List.filter is_read r.2) <= length attempts)%nat
  /\ (length (List.filter is_sleep r.2) <= length attempts)%nat
  /\ (r.1 = true ->
      exists before,
        r.2 = before ++ [Utils.ReadPod pod_name namespace;
                         Utils.Evict pod_name namespace]).
Proof.
  cbv zeta. induction attempts as [|attempt rest IH]; cbn [Utils.evict_loop].
  - cbn. repeat split; try lia; try discriminate.
  - destruct (Utils.evict_loop api pod_name namespace rest) as [r effs].
    cbn [fst snd] in IH. destruct IH as (IH1 & IH2 & IH3 & IH4).
    assert (Hretry : forall pre,
      Forall (fun e => is_sleep e = false) pre ->
      (length (List.filter is_evict pre) <= length (List.filter is_read pre))%nat ->
      (length (List.filter is_read pre) <= 1)%nat ->
      forall status,
      let res := (let '(r0, effs0) :=
                    if Z.eqb status 429 then (r, Utils.Sleep attempt :: effs)
                    else (false, []) in (r0, pre ++ effs0)) in
      (length (List.filter is_evict res.2) <= length (List.filter is_read res.2))%nat
      /\ (length (List.filter is_read res.2) <= S (length rest))%nat
      /\ (length (List.filter is_sleep res.2) <= S (length rest))%nat
      /\ (res.1 = true ->
          exists before,
            res.2 = before ++ [Utils.ReadPod pod_name namespace;
                               Utils.Evict pod_name namespace])).
    { intros pre Hpre He Hr status. cbv zeta.
      assert (Hs : List.filter is_sleep pre = [])
        by (apply filter_none; exact Hpre).
      destruct (Z.eqb status 429); cbn [fst snd].
      - rewrite !List.filter_app, !length_app, Hs. cbn [List.filter is_evict is_read is_sleep length].
        split; [lia|]. split; [lia|]. split; [lia|].
        intros Hr1. destruct (IH4 Hr1) as [before ->].
        exists (pre ++ Utils.Sleep attempt :: before).
        rewrite <- app_assoc. reflexivity.
      - rewrite app_nil_r, Hs. cbn [length].
        split; [lia|]. split; [lia|]. split; [lia|]. discriminate. }
    destruct (Utils.read_namespaced_pod api attempt pod_name namespace)
      as [pod_labels|status].
    + destruct (bool_decide _).
      * cbn. repeat split; try lia; try discriminate.
      * destruct (Utils.create_namespaced_pod_eviction api attempt pod_name namespace)
          as [[]|status].
        -- cbn. repeat split; try lia. exists []. reflexivity.
        -- apply (Hretry [Utils.ReadPod pod_name namespace;
                          Utils.Evict pod_name namespace]);
             [repeat constructor | cbn; lia | cbn; lia].
    + apply (Hretry [Utils.ReadPod pod_name namespace]);
        [repeat constructor | cbn; lia | cbn; lia].
Qed.

End UtilsFacts.

(* ------------------------------------------------------------------ *)
(** * src/hpa_scheduler.py *)
(* ------------------------------------------------------------------ *)

Section HPAFacts.
Import HPAScheduler.

Ltac by_cases_on_fields :=
  repeat match goal with
         | |- context [(?a ?= ?b)%Z] => destruct (Z.compare_spec a b)
         end;
  try lia.

Lemma leb_on_the_hour h now :
  HPAScheduler.valid now -> leb (mkTime h 0 0 0) now = (h <=? hour now)%Z.
Proof.
  intros (Hh & Hm & Hs & Hu). unfold leb, compare.
  cbn [hour minute second microsecond].
  destruct (Z.leb_spec h (hour now)); by_cases_on_fields; reflexivity.
Qed.

Lemma ltb_on_the_hour h now :
  HPAScheduler.valid now -> ltb now (mkTime h 0 0 0) = (hour now <? h)%Z.
Proof.
  intros (Hh & Hm & Hs & Hu). unfold ltb, compare.
  cbn [hour minute second microsecond].
  destruct (Z.ltb_spec (hour now) h); by_cases_on_fields; reflexivity.
Qed.

Lemma default_window now self :
  config self = Config.default -> HPAScheduler.valid now ->
  get_current_time_window now self
  = Ok (Some
          (if (hour now <? 6)%Z
           then ("night"%string, Config.mkTimeWindow "00:00" "06:00" 1 3)
           else if (hour now <? 12)%Z
           then ("morning"%string, Config.mkTimeWindow "06:00" "12:00" 2 5)
           else if (hour now <? 18)%Z
           then ("afternoon"%string, Config.mkTimeWindow "12:00" "18:00" 3 8)
           else ("evening"%string, Config.mkTimeWindow "18:00" "00:00" 2 6))).
Proof.
  intros Hcfg Hnow. unfold get_current_time_window. rewrite Hcfg.
  cbn [Config.TIME_WINDOWS Config.default find_window Config.start Config.end_].
  replace (strptime "00:00") with (Ok (mkTime 0 0 0 0)) by (vm_compute; reflexivity).
  replace (strptime "06:00") with (Ok (mkTime 6 0 0 0)) by (vm_compute; reflexivity).
  replace (strptime "12:00") with (Ok (mkTime 12 0 0 0)) by (vm_compute; reflexivity).
  replace (strptime "18:00") with (Ok (mkTime 18 0 0 0)) by (vm_compute; reflexivity).
  repeat match goal with
         | |- context [String.ltb ?a ?b] =>
             let v := eval vm_compute in (String.ltb a b) in
             replace (String.ltb a b) with v by (vm_compute; reflexivity)
         end.
  cbv [mbind result_bind Py.bind mret result_ret].
  rewrite !(leb_on_the_hour _ now Hnow), !(ltb_on_the_hour _ now Hnow).
  destruct Hnow as (Hh & _).
  destruct (Z.ltb_spec (hour now) 6), (Z.ltb_spec (hour now) 12),
    (Z.ltb_spec (hour now) 18); try lia;
    repeat match goal with
           | |- context [(?a <=? ?b)%Z] => destruct (Z.leb_spec a b); try lia
           | |- context [(?a <? ?b)%Z] => destruct (Z.ltb_spec a b); try lia
           end;
    reflexivity.
Qed.

(** X23.  With the default configuration the four time windows cover
    the day without overlap: for every time of day
    [get_current_time_window] returns a window, the one of the
    six-hour band the hour falls in, the evening window being the one
    that wraps around midnight. *)
Theorem default_windows_cover_the_day (now : HPAScheduler.time)
    (self : HPAScheduler.t) :
  config self = Config.default -> HPAScheduler.valid now ->
  get_current_time_window now self
  = Ok (Some
          (if (hour now <? 6)%Z
           then ("night"%string, Config.mkTimeWindow "00:00" "06:00" 1 3)
           else if (hour now <? 12)%Z
           then ("morning"%string, Config.mkTimeWindow "06:00" "12:00" 2 5)
           else if (hour now <? 18)%Z
           then ("afternoon"%string, Config.mkTimeWindow "12:00" "18:00" 3 8)
           else ("evening"%string, Config.mkTimeWindow "18:00" "00:00" 2 6))).
Proof. exact (default_window now self). Qed.

Lemma valid_half_past_noon : HPAScheduler.valid Inputs.half_past_noon.
Proof. unfold HPAScheduler.valid. cbn. lia. Qed.

Lemma valid_five_to_six : HPAScheduler.valid Inputs.five_to_six.
Proof. unfold HPAScheduler.valid. cbn. lia. Qed.

Lemma default_windows_cover_the_day_witness :
  get_current_time_window Inputs.half_past_noon Inputs.scheduler
  = Ok (Some ("afternoon"%string, Config.mkTimeWindow "12:00" "18:00" 3 8)).
Proof.
  exact (default_windows_cover_the_day Inputs.half_past_noon Inputs.scheduler
           eq_refl valid_half_past_noon).
Defined.

(** X24.  [adjust_hpa] acts once per window.  When a call succeeds, the
    window found is recorded, the cluster was patched exactly once with
    the replica bounds of that window unless the environment is
    [local], and a further call at a time of the same window returns
    [False], sends nothing and changes nothing. *)
Theorem adjust_hpa_once_per_window (api api' : HPAScheduler.CustomObjectsApi)
    (environment environment' : option string) (now now' : HPAScheduler.time)
    (namespace hpa_name : string) (self : HPAScheduler.t)
    (window_name : string) (window window' : Config.TimeWindow) :
  get_current_time_window now self = Ok (Some (window_name, window)) ->
  get_current_time_window now' self = Ok (Some (window_name, window')) ->
  let r := adjust_hpa api environment now namespace hpa_name self in
  r.1.1 = Ok true ->
  current_window r.1.2 = Some window_name
  /\ r.2 = (if bool_decide (environment = Some "local"%string) then []
            else [PatchHPA namespace hpa_name (Some (Config.min_replicas window))
                           (Config.max_replicas window)])
  /\ adjust_hpa api' environment' now' namespace hpa_name r.1.2
     = (Ok false, r.1.2, []).
Proof.
  intros Hw Hw'. cbv zeta.
  assert (Hagain : forall s,
    config s = config self -> current_window s = Some window_name ->
    String.eqb window_name "" = false ->
    adjust_hpa api' environment' now' namespace hpa_name s = (Ok false, s, [])).
  { intros s Hc Hcur Hname. unfold adjust_hpa, get_current_time_window in *.
    rewrite Hc, Hw', Hname, Hcur.
    rewrite bool_decide_eq_true_2 by reflexivity. reflexivity. }
  remember (adjust_hpa api environment now namespace hpa_name self) as r eqn:Hr.
  unfold adjust_hpa in Hr. rewrite Hw in Hr.
  destruct (String.eqb window_name "") eqn:Hname; [subst r; discriminate|].
  destruct (bool_decide (Some window_name = current_window self));
    [subst r; discriminate|].
  destruct (bool_decide (environment = Some "local"%string)).
  - subst r. cbn [fst snd]. intros _. split; [reflexivity|]. split; [reflexivity|].
    apply Hagain; reflexivity.
  - destruct (patch_namespaced_custom_object api namespace hpa_name _ _);
      subst r; cbn [fst snd]; [|discriminate].
    intros _. split; [reflexivity|]. split; [reflexivity|].
    apply Hagain; reflexivity.
Qed.

Lemma adjust_hpa_once_per_window_witness :
  let r := adjust_hpa Inputs.busy_cluster None Inputs.half_past_noon
             "default" "my-app-hpa" Inputs.scheduler in
  current_window r.1.2 = Some "afternoon"%string
  /\ r.2 = [PatchHPA "default" "my-app-hpa" (Some 3%Z) 8%Z]
  /\ adjust_hpa Inputs.busy_cluster None Inputs.five_to_six
       "default" "my-app-hpa" r.1.2
     = (Ok false, r.1.2, []).
Proof.
  exact (adjust_hpa_once_per_window Inputs.busy_cluster Inputs.busy_cluster
           None None Inputs.half_past_noon Inputs.five_to_six
           "default" "my-app-hpa" Inputs.scheduler "afternoon"
           (Config.mkTimeWindow "12:00" "18:00" 3 8)
           (Config.mkTimeWindow "12:00" "18:00" 3 8)
           (default_window Inputs.half_past_noon Inputs.scheduler eq_refl
              valid_half_past_noon)
           (default_window Inputs.five_to_six Inputs.scheduler eq_refl
              valid_five_to_six)
           eq_refl).
Defined.

(** X25.  [check_rollback_conditions] is rate limited and never touches
    the configuration or the recorded window.  A call that sends
    nothing changes nothing.  A call that sends a request records its
    time, whatever happens afterwards, and any call made less than
    [ROLLBACK_CHECK_INTERVAL] later returns [False] and sends nothing.
    The answer is [True] only after the metrics were listed and the HPA
    was patched with the largest [max_replicas] of the windows. *)
Theorem rollback_check_is_rate_limited (api : HPAScheduler.CustomObjectsApi)
    (now : Q) (namespace hpa_name : string) (self : HPAScheduler.t) :
  let r := check_rollback_conditions api now namespace hpa_name self in
  config r.1.2 = config self
  /\ current_window r.1.2 = current_window self
  /\ (r.2 = [] -> r = (false, self, []))
  /\ (r.2 <> [] ->
      last_rollback_check r.1.2 = now
      /\ forall api' now' namespace' hpa_name',
           now' - now < inject_Z (Config.ROLLBACK_CHECK_INTERVAL (config self)) ->
           check_rollback_conditions api' now' namespace' hpa_name' r.1.2
           = (false, r.1.2, []))
  /\ (r.1.1 = true ->
      exists max_replicas,
        max_of (map (fun w => Config.max_replicas w.2)
                    (Config.TIME_WINDOWS (config self))) = Ok max_replicas
        /\ r.2 = [ListPodMetrics namespace;
                  PatchHPA namespace hpa_name None max_replicas]).
Proof.
  cbv zeta.
  assert (Hnext : forall api' now' namespace' hpa_name',
    now' - now < inject_Z (Config.ROLLBACK_CHECK_INTERVAL (config self)) ->
    check_rollback_conditions api' now' namespace' hpa_name'
      (set_last_rollback_check now self)
    = (false, set_last_rollback_check now self, [])).
  { intros api' now' namespace' hpa_name' Hlt.
    unfold check_rollback_conditions.
    cbn [config last_rollback_check set_last_rollback_check].
    destruct (negb _); [reflexivity|].
    apply Qltb_lt in Hlt. rewrite Hlt. reflexivity. }
  unfold check_rollback_conditions.
  destruct (negb (Config.ROLLBACK_ENABLED (config self)));
    [cbn [fst snd]; repeat split; try congruence; discriminate|].
  destruct (Qltb _ _);
    [cbn [fst snd]; repeat split; try congruence; discriminate|].
  destruct (list_namespaced_custom_object api namespace) as [items|status];
    [|cbn [fst snd]; repeat split; try discriminate; auto].
  destruct (sum_pods items 0 0) as [[total_cpu count]|e];
    [|cbn [fst snd]; repeat split; try discriminate; auto].
  destruct (Qltb _ _);
    [|cbn [fst snd]; repeat split; try discriminate; auto].
  destruct (max_of _) as [max_replicas|e];
    [|cbn [fst snd]; repeat split; try discriminate; auto].
  destruct (patch_namespaced_custom_object api namespace hpa_name None max_replicas);
    cbn [fst snd]; repeat split; try discriminate; auto.
  exists max_replicas. split; reflexivity.
Qed.

Lemma rollback_check_is_rate_limited_witness :
  let r := check_rollback_conditions Inputs.busy_cluster 1000
             "default" "my-app-hpa" Inputs.scheduler in
  r.1.1 = true
  /\ last_rollback_check r.1.2 = 1000
  /\ check_rollback_conditions Inputs.busy_cluster 1200
       "default" "my-app-hpa" r.1.2 = (false, r.1.2, [])
  /\ r.2 = [ListPodMetrics "default"; PatchHPA "default" "my-app-hpa" None 8%Z].
Proof.
  cbv zeta.
  pose proof (rollback_check_is_rate_limited Inputs.busy_cluster 1000
                "default" "my-app-hpa" Inputs.scheduler) as H.
  cbv zeta in H. destruct H as (_ & _ & _ & Hsent & Htrue).
  assert (Hr : (check_rollback_conditions Inputs.busy_cluster 1000
                  "default" "my-app-hpa" Inputs.scheduler).1.1 = true)
    by (vm_compute; reflexivity).
  destruct (Htrue Hr) as (m & Hm & Hs).
  assert (Hm8 : m = 8%Z) by (vm_compute in Hm; congruence).
  subst m.
  assert (Hne : (check_rollback_conditions Inputs.busy_cluster 1000
                   "default" "my-app-hpa" Inputs.scheduler).2 <> [])
    by (rewrite Hs; discriminate).
  destruct (Hsent Hne) as (Hlast & Hnext).
  split; [exact Hr|]. split; [exact Hlast|]. split; [|exact Hs].
  apply Hnext. vm_compute. reflexivity.
Defined.

End HPAFacts.

(* ------------------------------------------------------------------ *)
(** * src/simulador_escalado.py *)
(* ------------------------------------------------------------------ *)

Section SimuladorFacts.
Import Simulador.
Variable pow_0_7 : Z -> Q.

Let in_range (d : decision) : Prop :=
  match d with
  | Escalar pods | Reducir pods => (1 <= pods <= 10)%Z
  end.

Let is_scale_up (d : decision) : Prop :=
  match d with
  | Escalar _ => True
  | Reducir _ => False
  end.

Lemma iteration_in_range r self :
  (0 < Config.STABILIZATION_WINDOW
         (ScalingMetrics.config (scaling_metrics self)))%Z ->
  (1 <= current_pods self <= 10)%Z ->
  exists self' logged,
    iteration pow_0_7 r self = Some (self', logged)
    /\ ScalingMetrics.config (scaling_metrics self')
       = ScalingMetrics.config (scaling_metrics self)
    /\ (1 <= current_pods self' <= 10)%Z
    /\ Forall in_range logged
    /\ (length logged <= 1)%nat.
Proof.
  intros Hw Hp. unfold iteration.
  destruct (update_metrics_snoc pow_0_7 (update_time r) (cpu r) (mem r)
              (current_pods self) None (scaling_metrics self) Hw) as [older Hh].
  rewrite Hh, last_snoc.
  pose proof (should_scale_up_config (decision_time r)
                (ScalingMetrics.update_metrics pow_0_7 (update_time r) (cpu r)
                   (mem r) (current_pods self) None (scaling_metrics self))) as Hc.
  destruct (ScalingMetrics.should_scale_up _ _) as [up metrics].
  cbn [snd] in Hc.
  destruct (up && _)%bool eqn:Hup.
  - apply andb_prop in Hup as [_ Hlt]. apply Z.ltb_lt in Hlt.
    eexists _, _. split; [reflexivity|]. cbn [scaling_metrics current_pods length].
    split; [exact Hc|]. split; [lia|]. split; [|lia].
    constructor; [cbn; lia | constructor].
  - destruct (_ && _ && _)%bool eqn:Hdown.
    + apply andb_prop in Hdown as [_ Hgt]. apply Z.ltb_lt in Hgt.
      eexists _, _. split; [reflexivity|]. cbn [scaling_metrics current_pods length].
      split; [exact Hc|]. split; [lia|]. split; [|lia].
      constructor; [cbn; lia | constructor].
    + eexists _, _. split; [reflexivity|]. cbn [scaling_metrics current_pods length].
      split; [exact Hc|]. split; [lia|]. split; [constructor | lia].
Qed.

(** X26.  With a positive stabilization window a simulation started
    with 1 to 10 pods runs to its end, keeps the pod count between 1
    and 10 throughout, and logs at most one decision per iteration. *)
Theorem simular_carga_keeps_pods_in_range (readings : list Simulador.reading)
    (self : Simulador.t) :
  (0 < Config.STABILIZATION_WINDOW
         (ScalingMetrics.config (scaling_metrics self)))%Z ->
  (1 <= current_pods self <= 10)%Z ->
  exists self' logged,
    simular_carga pow_0_7 readings self = Some (self', logged)
    /\ (1 <= current_pods self' <= 10)%Z
    /\ Forall in_range logged
    /\ (length logged <= length readings)%nat.
Proof.
  revert self. induction readings as [|r rest IH]; intros self Hw Hp;
    cbn [simular_carga].
  - exists self, []. split; [reflexivity|]. split; [exact Hp|].
    split; [constructor | reflexivity].
  - destruct (iteration_in_range r self Hw Hp)
      as (self1 & logged1 & -> & Hc1 & Hp1 & Hl1 & Hn1).
    rewrite <- Hc1 in Hw.
    destruct (IH self1 Hw Hp1) as (self' & logged' & -> & Hp' & Hl' & Hn').
    exists self', (logged1 ++ logged'). split; [reflexivity|].
    split; [exact Hp'|]. split; [apply Forall_app; split; assumption|].
    rewrite length_app. cbn [length]. lia.
Qed.

Lemma phase_high i :
  (10 <= i)%nat -> 50 <= (Simulador.phase i).1.1.
Proof.
  intros Hi. unfold phase.
  destruct (Nat.ltb_spec i 10); [lia|].
  destruct (Nat.leb 10 i && Nat.ltb i 20); cbn [fst]; lra.
Qed.

(** X27.  From the eleventh iteration on the simulation never scales
    down: when the readings respect the bounds of their phases, the
    pod count does not decrease and every logged decision is a
    scale-up. *)
Theorem simular_carga_never_scales_down_under_load (i : nat)
    (readings : list Simulador.reading) (self self' : Simulador.t)
    (logged : list Simulador.decision) :
  (10 <= i)%nat ->
  in_phase i readings ->
  simular_carga pow_0_7 readings self = Some (self', logged) ->
  (current_pods self <= current_pods self')%Z
  /\ Forall is_scale_up logged.
Proof.
  revert i self self' logged.
  induction readings as [|r rest IH]; intros i self self' logged Hi Hph;
    cbn [simular_carga].
  - intros H. injection H as <- <-. split; [lia | constructor].
  - cbn [in_phase] in Hph. pose proof (phase_high i Hi) as Hlo.
    destruct (phase i) as [[cpu_lo cpu_hi] [mem_lo mem_hi]].
    cbn [fst] in Hlo. destruct Hph as [[[Hcpu _] _] Hrest].
    assert (Hnot : Qltb (cpu r) 50 = false) by (apply Qltb_ge; lra).
    destruct (iteration pow_0_7 r self) as [[self1 logged1]|] eqn:Hit;
      [|discriminate].
    assert (Hstep : (current_pods self <= current_pods self1)%Z
                    /\ Forall is_scale_up logged1).
    { unfold iteration in Hit.
      destruct (last _); [|discriminate].
      destruct (ScalingMetrics.should_scale_up _ _) as [up metrics].
      rewrite Hnot in Hit. cbn [andb] in Hit.
      destruct (up && _)%bool; injection Hit as <- <-; cbn [current_pods];
        (split; [lia|]); repeat constructor. }
    destruct Hstep as [Hp1 Hl1].
    destruct (simular_carga pow_0_7 rest self1) as [[self2 logged2]|] eqn:Hrun;
      [|discriminate].
    intros H. injection H as <- <-.
    destruct (IH (S i) self1 self2 logged2 (Nat.le_le_succ_r _ _ Hi) Hrest Hrun)
      as [Hp2 Hl2].
    split; [lia | apply Forall_app; split; assumption].
Qed.

End SimuladorFacts.

Lemma simular_carga_keeps_pods_in_range_witness :
  exists self' logged,
    Simulador.simular_carga Spec.pow_0_7 Inputs.high_load Inputs.simulator
    = Some (self', logged)
    /\ (1 <= Simulador.current_pods self' <= 10)%Z
    /\ Forall (fun d => match d with
                        | Simulador.Escalar pods | Simulador.Reducir pods =>
                            (1 <= pods <= 10)%Z
                        end) logged
    /\ (length logged <= length Inputs.high_load)%nat.
Proof.
  apply (simular_carga_keeps_pods_in_range Spec.pow_0_7 Inputs.high_load
           Inputs.simulator); cbn; lia.
Defined.

Lemma simular_carga_never_scales_down_under_load_witness :
  exists self' logged,
    Simulador.simular_carga Spec.pow_0_7 Inputs.high_load Inputs.simulator
    = Some (self', logged)
    /\ (Simulador.current_pods Inputs.simulator <= Simulador.current_pods self')%Z
    /\ Forall (fun d => match d with
                        | Simulador.Escalar _ => True
                        | Simulador.Reducir _ => False
                        end) logged.
Proof.
  eexists _, _. split; [vm_compute; reflexivity|].
  eapply (simular_carga_never_scales_down_under_load Spec.pow_0_7 20
            Inputs.high_load Inputs.simulator).
  - lia.
  - cbn. repeat split; lra.
  - vm_compute. reflexivity.
Defined.

(* ------------------------------------------------------------------ *)
(** * The rebalancer on the constructor's table *)
(* ------------------------------------------------------------------ *)

Section OnTheInitialTable.
Import Main.

Lemma init_all_pods t0 : Spec.all_pods (Initial.init t0) = Initial.initial_pods t0.
Proof.
  unfold Spec.all_pods, Initial.init. rewrite update_usage_residents.
  cbn [simulated_nodes Spec.residents map fst snd pods concat app].
  apply app_nil_r.
Qed.

Lemma fresh_well_formed : Table.well_formed fresh = true.
Proof. apply init_well_formed. Qed.

Lemma fresh_unique : Spec.unique_pod_names fresh.
Proof. apply init_unique. Qed.

Lemma batch_in_table : Forall (fun pod => In pod (Spec.all_pods fresh)) Inputs.batch.
Proof.
  unfold fresh. rewrite init_all_pods.
  unfold Inputs.batch, Initial.initial_pods, app_1, app_2, app_4.
  constructor; [left; reflexivity|].
  constructor; [right; left; reflexivity|].
  constructor; [do 3 right; left; reflexivity|].
  constructor.
Qed.

Lemma both_spot_nodes_in_table :
  Forall (fun t => get (simulated_nodes fresh) t.1 <> None) Inputs.both_spot_nodes.
Proof.
  repeat (constructor; [vm_compute; discriminate|]). constructor.
Qed.

Lemma batch_runs :
  _execute_migrations 1000001 Inputs.batch Inputs.both_spot_nodes fresh
  = (Ok tt, Inputs.after_batch).
Proof. vm_compute. reflexivity. Qed.

Lemma pod_priority_bounds_witness :
  exists p,
    _calculate_pod_priority 1000001 app_2 = Ok p
    /\ 0 <= p <= 7
    /\ (default "false"%string (labels app_2 !! "critical"%string) = "false"%string ->
        5 <= p)
    /\ (default "false"%string (labels app_2 !! "critical"%string) <> "false"%string ->
        p <= 2).
Proof.
  apply (pod_priority_bounds 1000001 app_2 0.4 1.5);
    [vm_compute; reflexivity | vm_compute; reflexivity | lra | lra].
Defined.

Lemma filter_pods_takes_top_priorities_witness :
  exists out, _filter_pods 10 1000001 movable = Ok out.
Proof.
  apply (proj2 (filter_pods_takes_top_priorities 10 1000001 movable)).
  repeat (constructor; [intros _; vm_compute; reflexivity|]). constructor.
Defined.

Lemma rebalance_cycle_completes_witness :
  exists s',
    rebalance_cluster 1000001 fresh = (Ok tt, s')
    /\ last_rebalance_time s' = 1000001
    /\ Table.well_formed s' = true
    /\ map fst (simulated_nodes s') = map fst (simulated_nodes fresh)
    /\ forall now',
         now' - 1000001 < REBALANCE_INTERVAL_SECONDS fresh ->
         rebalance_cluster now' s' = (Ok tt, s').
Proof.
  apply (proj2 (rebalance_cycle_completes 1000001 fresh)).
  - exact fresh_well_formed.
  - intros H. vm_compute in H. discriminate H.
Defined.

Lemma execute_migrations_conserves_pods_witness :
  Permutation (Spec.all_pods Inputs.after_batch) (Spec.all_pods fresh)
  /\ Spec.unique_pod_names Inputs.after_batch
  /\ map fst (simulated_nodes Inputs.after_batch) = map fst (simulated_nodes fresh).
Proof.
  exact (execute_migrations_conserves_pods 1000001 Inputs.batch
           Inputs.both_spot_nodes fresh Inputs.after_batch
           fresh_unique batch_in_table both_spot_nodes_in_table batch_runs).
Defined.

Lemma execute_migrations_round_robin_witness :
  Table.resides app_4 "aks-spot-1" Inputs.after_batch.
Proof.
  refine (execute_migrations_round_robin 1000001 Inputs.batch
            Inputs.both_spot_nodes fresh Inputs.after_batch
            eq_refl fresh_unique batch_in_table _ _ both_spot_nodes_in_table
            batch_runs 2 app_4 ("aks-spot-1"%string, 1.5) eq_refl eq_refl).
  - repeat (constructor; [vm_compute; reflexivity|]). constructor.
  - apply (bool_decide_unpack _). vm_compute. exact I.
Defined.

Lemma rebalance_cycle_conserves_pods_witness :
  Permutation (Spec.all_pods (rebalance_cluster 1000001 fresh).2)
              (Spec.all_pods fresh)
  /\ Spec.unique_pod_names (rebalance_cluster 1000001 fresh).2.
Proof.
  exact (rebalance_cycle_conserves_pods 1000001 fresh fresh_well_formed fresh_unique).
Defined.

Lemma rebalance_cycle_displaces_a_bounded_batch_witness :
  exists batch,
    (length batch <= max_pods_per_cycle fresh)%nat
    /\ Forall (fun p => Spec.is_critical p = false
                        /\ Table.resides p "aks-regular-1" fresh) batch
    /\ forall q t,
         Forall (fun pod => name q <> name pod) batch ->
         Table.resides q t fresh ->
         Table.resides q t (rebalance_cluster 1000001 fresh).2.
Proof.
  exact (rebalance_cycle_displaces_a_bounded_batch 1000001 fresh fresh_well_formed).
Defined.

End OnTheInitialTable.
(* ------------------------------------------------------------------ *)
(** * Capacity: where the code departs from the specification *)
(* ------------------------------------------------------------------ *)

(** Replaces the node table of a concrete state by its value. *)
Ltac evaluated_nodes self :=
  let l := eval vm_compute in (Main.simulated_nodes self) in
  replace (Main.simulated_nodes self) with l by (vm_compute; reflexivity).

Section CapacityFacts.
Import Main.

(** C1 (code defect).  [_execute_migrations] places pods without looking
    at the capacity of the destination.  With [aks-spot-1] interrupted
    right after construction, every node is within its capacity; the
    next cycle selects the seven movable pods and the one remaining Spot
    node, the batch succeeds, and [aks-spot-2] (2 cores, 8 GiB) ends up
    with resident requests of about 2.6 cores and 8.5 GiB. *)
Theorem execute_migrations_overcommits :
  let target_nodes := [("aks-spot-2"%string, 11.4)] in
  let batch := Main._execute_migrations 1000001 movable target_nodes one_spot_left in
  Forall (fun e => Spec.within_capacity e.2 = Ok true)
         (Main.simulated_nodes one_spot_left)
  /\ ((ps ← Main.find_pods_for_rebalance;
       Main.lift (Main._filter_pods 10 1000001 ps)) one_spot_left).1 = Ok movable
  /\ ((m ← Main.get_node_metrics;
       Main.lift (Main._select_target_nodes m)) one_spot_left).1
     = Ok [("aks-spot-2"%string, 36480000 # 3200000)]
  /\ batch.1 = Ok tt
  /\ Spec.placement batch.2
     = [("aks-spot-2"%string,
         ["app-10"; "app-1"; "app-7"; "app-5"; "app-4"; "app-2"; "app-8"]%string);
        ("aks-regular-1"%string, ["app-3"; "app-6"; "app-9"]%string)]
  /\ Spec.placement (Main.rebalance_cluster 1000001 one_spot_left).2
     = Spec.placement batch.2
  /\ exists node c m,
       get (Main.simulated_nodes batch.2) "aks-spot-2" = Some node
       /\ Main.allocatable_cpu node = "2"%string
       /\ Main.allocatable_memory node = "8Gi"%string
       /\ Spec.requests_sum (Main.pods node) = Ok (c, m)
       /\ 2.5 < c /\ m == 8.5
       /\ Spec.within_capacity node = Ok false.
Proof.
  cbv zeta.
  split.
  { evaluated_nodes one_spot_left.
    repeat (constructor; [vm_compute; reflexivity|]). constructor. }
  split; [vm_compute; reflexivity|].
  split; [vm_compute; reflexivity|].
  split; [vm_compute; reflexivity|].
  split; [vm_compute; reflexivity|].
  split; [vm_compute; reflexivity|].
  eexists; eexists; eexists.
  split; [vm_compute; reflexivity|].
  split; [vm_compute; reflexivity|].
  split; [vm_compute; reflexivity|].
  split; [vm_compute; reflexivity|].
  split; [vm_compute; reflexivity|].
  split; vm_compute; reflexivity.
Qed.

(** C2 (code defect).  After the first cycle and the interruption of
    [aks-spot-1], the remaining Spot node has no CPU left and could not
    take [app-8] on either resource; the cycle that follows moves
    [app-8] onto it all the same, and its usage counters grow. *)
Theorem rebalance_moves_pods_without_spare_capacity :
  Forall (fun e => Main.is_spot e.2 = true ->
                   Spec.has_spare_capacity e.2 = Ok false
                   /\ Spec.fits e.2 app_8 = Ok false)
         (Main.simulated_nodes after_interruption)
  /\ Spec.placement after_interruption
     = [("aks-spot-2"%string,
         ["app-1"; "app-5"; "app-2"; "app-10"; "app-7"; "app-4"]%string);
        ("aks-regular-1"%string, ["app-3"; "app-6"; "app-9"; "app-8"]%string)]
  /\ Spec.placement (Main.rebalance_cluster 1000040 after_interruption).2
     = [("aks-spot-2"%string,
         ["app-1"; "app-5"; "app-2"; "app-10"; "app-7"; "app-4"; "app-8"]%string);
        ("aks-regular-1"%string, ["app-3"; "app-6"; "app-9"]%string)]
  /\ exists before after,
       get (Main.simulated_nodes after_interruption) "aks-spot-2" = Some before
       /\ get (Main.simulated_nodes
                 (Main.rebalance_cluster 1000040 after_interruption).2)
              "aks-spot-2" = Some after
       /\ Main.current_cpu_usage before < Main.current_cpu_usage after
       /\ Main.current_mem_usage_gb before < Main.current_mem_usage_gb after.
Proof.
  split.
  { evaluated_nodes after_interruption.
    constructor; [|constructor; [|constructor]].
    - intros _. split; vm_compute; reflexivity.
    - intros H. vm_compute in H. discriminate H. }
  split; [vm_compute; reflexivity|].
  split; [vm_compute; reflexivity|].
  eexists; eexists.
  split; [vm_compute; reflexivity|].
  split; [vm_compute; reflexivity|].
  split; vm_compute; reflexivity.
Qed.

(** C3 (code defect).  The capacity test of
    [simulate_spot_node_interruption] divides every CPU request by 1000,
    also when it is written in cores.  When the interruption loop of the
    script reaches [app-4] (0.6 cores), [aks-spot-2] has about 1.5 of
    its 2 cores in use: the node does not satisfy
    [current_usage + pod_request <= allocatable], yet it is found
    eligible, [app-4] is placed on it, and the node ends beyond its
    capacity. *)
Theorem interruption_places_pod_beyond_capacity :
  (Main.reprogram_loop ["aks-spot-2"%string] "aks-regular-1" rng0 2
     [app_4; app_8] reaching_app_4).2 = after_interruption
  /\ (exists node,
       get (Main.simulated_nodes reaching_app_4) "aks-spot-2" = Some node
       /\ Main.is_spot node = true
       /\ Main.allocatable_cpu node = "2"%string
       /\ 1.4 < Main.current_cpu_usage node
       /\ Spec.declared_cpu app_4 = Ok 0.6000000000000001
       /\ Spec.fits node app_4 = Ok false
       /\ Main.eligible_spot_nodes (Main.simulated_nodes reaching_app_4) app_4
            ["aks-spot-2"%string] = Ok ["aks-spot-2"%string])
  /\ exists node',
       get (Main.simulated_nodes after_interruption) "aks-spot-2" = Some node'
       /\ In app_4 (Main.pods node')
       /\ Spec.within_capacity node' = Ok false.
Proof.
  split; [vm_compute; reflexivity|]. split.
  - eexists. split; [vm_compute; reflexivity|].
    split; [vm_compute; reflexivity|].
    split; [vm_compute; reflexivity|].
    split; [vm_compute; reflexivity|].
    split; [vm_compute; reflexivity|].
    split; vm_compute; reflexivity.
  - eexists. split; [vm_compute; reflexivity|].
    split; [|vm_compute; reflexivity].
    vm_compute. do 5 right. left. reflexivity.
Qed.

End CapacityFacts.
